(** * ET-maps: the accuracy dashboard of [app.py]

    A shallow embedding of the computational parts of [app.py]: the
    country-label cleaner of [load_data], the colour and category
    classifiers of the choropleth, the legend bounds, the summary metrics
    of the selected country and the per-question comparison table.

    Scores are Python floats, that is IEEE 754 binary64 numbers.  They are
    modelled by [spec_float] of the Rocq core library at precision 53 and
    maximal exponent 1024, so comparisons and the subtraction are the ones
    the interpreter performs, NaN included.

    The table is sorted by [DataFrame.sort_values] and rounded by
    [Series.round]: both are embedded as pandas and numpy compute them,
    the sort as the argsort of [nargsort] over numpy's quicksort of an
    index array, the rounding as [np.rint] between a multiplication and a
    division by [10**4]. *)

From Stdlib Require Import ZArith List String Ascii Bool Lia.
From Stdlib Require Import SpecFloat.
From Stdlib Require Import Sorting.Sorted Sorting.Permutation.
Import ListNotations.

(** ** Python floats *)

Module Float.

Definition float : Set := spec_float.

Definition prec : Z := 53.
Definition emax : Z := 1024.

Definition nan : float := S754_nan.

(** [np.isnan], and its negation [pd.notna] on a float cell. *)
Definition isnan (x : float) : bool :=
  match x with S754_nan => true | _ => false end.

Definition notna (x : float) : bool := negb (isnan x).

(** The float of an integer (exact below 2^53). *)
Definition of_int (n : Z) : float := binary_normalize prec emax n 0 false.

(** The float denoted by a decimal literal [n/d]: the binary64 number
    nearest to the quotient, which the correctly rounded division of the
    two exact integers yields. *)
Definition lit (n d : Z) : float := SFdiv prec emax (of_int n) (of_int d).

(** Comparison operators of Python on floats: all are False on NaN,
    except [!=] which is True. *)
Definition ltb (x y : float) : bool := SFltb x y.
Definition leb (x y : float) : bool := SFleb x y.
Definition gtb (x y : float) : bool := ltb y x.
Definition geb (x y : float) : bool := leb y x.
Definition eqb (x y : float) : bool := SFeqb x y.
Definition neb (x y : float) : bool := negb (SFeqb x y).

Definition sub (x y : float) : float := SFsub prec emax x y.

Definition zero : float := S754_zero false.

Definition f0_95 : float := Eval vm_compute in lit 95 100.
Definition f0_90 : float := Eval vm_compute in lit 90 100.
Definition f0_85 : float := Eval vm_compute in lit 85 100.
Definition f0_80 : float := Eval vm_compute in lit 80 100.
Definition f0_5 : float := Eval vm_compute in lit 5 10.
Definition f1_0 : float := Eval vm_compute in lit 10 10.
Definition f0_4 : float := Eval vm_compute in lit 4 10.

End Float.

Declare Scope float_scope.
Delimit Scope float_scope with float.
Bind Scope float_scope with Float.float.
Infix "<?" := Float.ltb (at level 70) : float_scope.
Infix "<=?" := Float.leb (at level 70) : float_scope.
Infix ">?" := Float.gtb (at level 70) : float_scope.
Infix ">=?" := Float.geb (at level 70) : float_scope.
Infix "==?" := Float.eqb (at level 70) : float_scope.
Infix "!=?" := Float.neb (at level 70) : float_scope.
Infix "-" := Float.sub : float_scope.

Import Float.

(** ** The order of floats

    [SFcompare] orders the floats other than NaN by sign, then exponent,
    then mantissa.  [key] sends a float to a triple of integers ordered
    lexicographically in the same way, which turns every comparison into
    linear integer arithmetic. *)

Module FloatKey.

Definition key (x : float) : Z * Z * Z :=
  match x with
  | S754_nan => (0, 0, 0)
  | S754_zero _ => (0, 0, 0)
  | S754_infinity true => (-2, 0, 0)
  | S754_infinity false => (2, 0, 0)
  | S754_finite true m e => (-1, - e, Zneg m)
  | S754_finite false m e => (1, e, Zpos m)
  end%Z.

Definition lex_compare (a b : Z * Z * Z) : comparison :=
  let '(a1, a2, a3) := a in
  let '(b1, b2, b3) := b in
  match (a1 ?= b1)%Z with
  | Eq => match (a2 ?= b2)%Z with Eq => (a3 ?= b3)%Z | c => c end
  | c => c
  end.

Definition lex_lt (a b : Z * Z * Z) : Prop :=
  let '(a1, a2, a3) := a in
  let '(b1, b2, b3) := b in
  (a1 < b1 \/ (a1 = b1 /\ (a2 < b2 \/ (a2 = b2 /\ a3 < b3))))%Z.

Definition lex_le (a b : Z * Z * Z) : Prop :=
  let '(a1, a2, a3) := a in
  let '(b1, b2, b3) := b in
  (a1 < b1 \/ (a1 = b1 /\ (a2 < b2 \/ (a2 = b2 /\ a3 <= b3))))%Z.

(** A float of sign [s] that is neither zero nor NaN. *)
Definition signed (s : bool) (x : float) : Prop :=
  (exists m e, x = S754_finite s m e) \/ x = S754_infinity s.

End FloatKey.

Import FloatKey.

Open Scope string_scope.
Open Scope list_scope.

(** ** Exceptions

    A computation of the script either yields a value or raises; nothing
    in the detail section catches, so a raised exception leaves the
    script.  [KeyError] is the only exception of the paths modelled here. *)

Inductive exn : Set :=
| KeyError (key : string).

Inductive result (A : Type) : Type :=
| Ok (a : A)
| Raise (e : exn).

Arguments Ok {A} a.
Arguments Raise {A} e.

Definition bind {A B : Type} (m : result A) (k : A -> result B) : result B :=
  match m with
  | Ok a => k a
  | Raise e => Raise e
  end.

Notation "x <- m ;; k" := (bind m (fun x => k))
  (at level 61, m at next level, right associativity).

(** [x in l] for a list of strings. *)
Definition in_list (x : string) (l : list string) : bool :=
  existsb (String.eqb x) l.

(** ** The regular expression of [load_data]

    The fragment of Python's [re] that the pattern
    [\s*\(\d{4}\)$] needs: one character of a class, a greedy star of a
    class, and the end anchor; a pattern is a sequence of these.
    Characters are the code points below 256. *)

Module Re.

Inductive atom : Type :=
| Cls (p : ascii -> bool)
| StarCls (p : ascii -> bool)
| Eos.

Definition pattern : Type := list atom.

Definition code (c : ascii) : N := N_of_ascii c.

(** [\s] on a str pattern: the Unicode white space, which below 256 is
    TAB, LF, VT, FF, CR, FS, GS, RS, US, SPACE, NEL and NBSP. *)
Definition is_space (c : ascii) : bool :=
  let n := code c in
  ((9 <=? n) && (n <=? 13) || (28 <=? n) && (n <=? 32)
   || (n =? 133) || (n =? 160))%N.

(** [\d] on a str pattern: the decimal digits, which below 256 are 0-9. *)
Definition is_digit (c : ascii) : bool :=
  let n := code c in ((48 <=? n) && (n <=? 57))%N.

Definition is_char (a c : ascii) : bool := Ascii.eqb c a.

(** [$] without MULTILINE: at the end of the string, or just before a
    newline that ends the string. *)
Definition at_end (s : string) : bool :=
  match s with
  | EmptyString => true
  | String c EmptyString => Ascii.eqb c "010"
  | _ => false
  end.

(** A greedy star: take the character when it is in the class and try the
    longer match first, fall back on the continuation [k]. *)
Fixpoint star (p : ascii -> bool) (k : string -> option string)
  (s : string) : option string :=
  match s with
  | String c s' =>
      if p c then
        match star p k s' with
        | Some r => Some r
        | None => k s
        end
      else k s
  | EmptyString => k s
  end.

(** Match the pattern at the start of [s]; the result is what is left of
    [s] after the match. *)
Fixpoint match_here (re : pattern) (s : string) : option string :=
  match re with
  | [] => Some s
  | Cls p :: re' =>
      match s with
      | String c s' => if p c then match_here re' s' else None
      | EmptyString => None
      end
  | StarCls p :: re' => star p (match_here re') s
  | Eos :: re' => if at_end s then match_here re' s else None
  end.

(** [re.sub(pattern, '', s)]: scan from the left; where the pattern
    matches, drop the matched characters and go on after them; elsewhere
    keep the character.  [skip] counts the characters of the current match
    still to drop.  (An empty match drops nothing; the pattern of
    [load_data] has none.) *)
Fixpoint sub_from (re : pattern) (skip : nat) (s : string) : string :=
  match s with
  | EmptyString => EmptyString
  | String c s' =>
      match skip with
      | S n => sub_from re n s'
      | O =>
          match match_here re s with
          | Some rest =>
              match (String.length s - String.length rest)%nat with
              | S n => sub_from re n s'
              | O => String c (sub_from re 0 s')
              end
          | None => String c (sub_from re 0 s')
          end
      end
  end.

Definition sub (re : pattern) (s : string) : string := sub_from re 0 s.

End Re.

(** [r'\s*\(\d{4}\)$'] *)
Definition year_suffix : Re.pattern :=
  [Re.StarCls Re.is_space; Re.Cls (Re.is_char "(");
   Re.Cls Re.is_digit; Re.Cls Re.is_digit; Re.Cls Re.is_digit;
   Re.Cls Re.is_digit; Re.Cls (Re.is_char ")"); Re.Eos].

(** The cleaner that [load_data] applies to every country label:
    [lambda x: re.sub(r'\s*\(\d{4}\)$', '', x)]. *)
Definition country_clean (x : string) : string := Re.sub year_suffix x.

(** The normalizer as the specification words it: a trailing
    [(YYYY)], with one optional space before it, is removed; any other
    string is returned as it is. *)
Definition is_year (s : string) : bool :=
  match s with
  | String o (String d1 (String d2 (String d3 (String d4 (String c EmptyString))))) =>
      Ascii.eqb o "(" && Re.is_digit d1 && Re.is_digit d2 && Re.is_digit d3
      && Re.is_digit d4 && Ascii.eqb c ")"
  | _ => false
  end.

Fixpoint normalize_spec (s : string) : string :=
  match s with
  | EmptyString => EmptyString
  | String c s' =>
      if is_year s then EmptyString
      else if Ascii.eqb c " " && is_year s' then EmptyString
      else String c (normalize_spec s')
  end.

(** Strings of white space, the text [(d1d2d3d4)], and strings whose last
    character is white space. *)
Fixpoint all_space (s : string) : bool :=
  match s with
  | EmptyString => true
  | String c s' => Re.is_space c && all_space s'
  end.

Definition year (d1 d2 d3 d4 : ascii) : string :=
  String "(" (String d1 (String d2 (String d3 (String d4 (String ")" EmptyString))))).

Fixpoint ends_with_space (s : string) : bool :=
  match s with
  | EmptyString => false
  | String c EmptyString => Re.is_space c
  | String _ s' => ends_with_space s'
  end.

Definition newline : string := String "010" EmptyString.

(** The string without its leading white space. *)
Fixpoint lstrip (s : string) : string :=
  match s with
  | EmptyString => EmptyString
  | String c s' => if Re.is_space c then lstrip s' else s
  end.

(** [Some r] when the string is a year in parentheses followed by [r],
    and [r] is empty or the final newline. *)
Definition year_here (s : string) : option string :=
  match s with
  | String o (String d1 (String d2 (String d3 (String d4 (String c r))))) =>
      if Re.is_char "(" o && Re.is_digit d1 && Re.is_digit d2 && Re.is_digit d3
         && Re.is_digit d4 && Re.is_char ")" c && Re.at_end r
      then Some r else None
  | _ => None
  end.

(** ** The tables of [load_data] *)

(** A row of [delta_df], with the column [country_clean] that [load_data]
    adds. *)
Record DeltaRow : Set := {
  country : string;
  country_clean_col : string;
  mean_SJSD_ET : float;
  mean_SJSD_Baseline : float
}.

(** A row of a per-question table ([baseline_df], [et_df]): the label, the
    cleaned label, and one float cell per question column, in the order of
    the header.  A cell that is empty in the file is NaN. *)
Record QuestionRow : Set := {
  Country : string;
  Country_clean : string;
  questions : list (string * float)
}.

(** The rows as read from the files, before the cleaned column is added. *)
Record RawDeltaRow : Set := {
  raw_country : string;
  raw_mean_SJSD_ET : float;
  raw_mean_SJSD_Baseline : float
}.

Record RawQuestionRow : Set := {
  raw_Country : string;
  raw_questions : list (string * float)
}.

Definition clean_delta (r : RawDeltaRow) : DeltaRow :=
  {| country := raw_country r;
     country_clean_col := country_clean (raw_country r);
     mean_SJSD_ET := raw_mean_SJSD_ET r;
     mean_SJSD_Baseline := raw_mean_SJSD_Baseline r |}.

Definition clean_question (r : RawQuestionRow) : QuestionRow :=
  {| Country := raw_Country r;
     Country_clean := country_clean (raw_Country r);
     questions := raw_questions r |}.

Definition load_data (delta : list RawDeltaRow)
  (baseline et : list RawQuestionRow)
  : list DeltaRow * list QuestionRow * list QuestionRow :=
  (map clean_delta delta, map clean_question baseline, map clean_question et).

(** ** The classifiers of the map *)

Definition get_color (score : float) : string :=
  if (score >=? f0_95)%float then "#008000"
  else if (score >=? f0_90)%float then "#90EE90"
  else if (score >=? f0_85)%float then "#FFFF00"
  else if (score >=? f0_80)%float then "#FF4500"
  else "#8B0000".

Definition get_category (score : float) : Z :=
  if (score >=? f0_95)%float then 5
  else if (score >=? f0_90)%float then 4
  else if (score >=? f0_85)%float then 3
  else if (score >=? f0_80)%float then 2
  else 1.

(** The (category, color, label) triples of the trace loop. *)
Definition traces : list (Z * string * string) :=
  [ (5%Z, "#008000", ">= 0.95");
    (4%Z, "#90EE90", "0.90-0.94");
    (3%Z, "#FFFF00", "0.85-0.89");
    (2%Z, "#FF4500", "0.80-0.84");
    (1%Z, "#8B0000", "< 0.80") ].

Fixpoint color_of (l : list (Z * string * string)) (category : Z)
  : option string :=
  match l with
  | [] => None
  | (c, color, _) :: l' => if (c =? category)%Z then Some color else color_of l' category
  end.

(** The five ranges of the classifier as the table of the specification
    gives them. *)
Definition in_band (category : Z) (s : float) : bool :=
  match category with
  | 1%Z => (s <? f0_80)%float
  | 2%Z => (f0_80 <=? s)%float && (s <? f0_85)%float
  | 3%Z => (f0_85 <=? s)%float && (s <? f0_90)%float
  | 4%Z => (f0_90 <=? s)%float && (s <? f0_95)%float
  | 5%Z => (f0_95 <=? s)%float
  | _ => false
  end.

(** ** The bounds of the colour bar *)

(** The builtins [min(a, b)] and [max(a, b)]: the first argument stays
    unless the second is strictly smaller (larger). *)
Definition py_min (a b : float) : float := if (b <? a)%float then b else a.
Definition py_max (a b : float) : float := if (b >? a)%float then b else a.

(** [Series.min()] and [Series.max()] of pandas: NaN cells are skipped,
    and the result is NaN when no cell is left. *)
Definition observed (l : list float) : list float := filter notna l.

Definition series_min (l : list float) : float :=
  match observed l with
  | [] => nan
  | x :: xs => fold_left py_min xs x
  end.

Definition series_max (l : list float) : float :=
  match observed l with
  | [] => nan
  | x :: xs => fold_left py_max xs x
  end.

Definition col_name (selected_approach : string) : string :=
  if String.eqb selected_approach "Electric Twin" then "mean_SJSD_ET"
  else "mean_SJSD_Baseline".

(** [delta_df[col_name]] for the two score columns. *)
Definition column (delta_df : list DeltaRow) (col : string) : list float :=
  map (fun r => if String.eqb col "mean_SJSD_ET" then mean_SJSD_ET r
                else mean_SJSD_Baseline r) delta_df.

Definition min_val (selected_approach : string) (delta_df : list DeltaRow) : float :=
  py_min (series_min (column delta_df (col_name selected_approach))) f0_5.

Definition max_val (selected_approach : string) (delta_df : list DeltaRow) : float :=
  py_max (series_max (column delta_df (col_name selected_approach))) f1_0.

(** ** The summary of the selected country *)

Definition select_delta (delta_df : list DeltaRow) (selected_country : string)
  : list DeltaRow :=
  filter (fun r => String.eqb (country_clean_col r) selected_country) delta_df.

Definition et_score (delta_df : list DeltaRow) (selected_country : string) : float :=
  match select_delta delta_df selected_country with
  | r :: _ => mean_SJSD_ET r
  | [] => nan
  end.

Definition baseline_score (delta_df : list DeltaRow) (selected_country : string) : float :=
  match select_delta delta_df selected_country with
  | r :: _ => mean_SJSD_Baseline r
  | [] => nan
  end.

(** A score of the data model: a valid binary64 number of [0, 1]. *)
Definition is_score (x : float) : Prop :=
  valid_binary prec emax x = true
  /\ (zero <=? x)%float = true /\ (x <=? f1_0)%float = true.

(** The three metrics, as the floats handed to the formatting; [None]
    when the guard fails and no metric is shown. *)
Definition metrics (delta_df : list DeltaRow) (selected_country : string)
  : option (float * float * float) :=
  let et := et_score delta_df selected_country in
  let bl := baseline_score delta_df selected_country in
  if negb (isnan et) && negb (isnan bl)
  then Some (et, bl, (et - bl)%float)
  else None.

(** A least and a greatest element of a list of floats. *)
Definition least (m : float) (l : list float) : Prop :=
  In m l /\ forall x, In x l -> (m <=? x)%float = true.

Definition greatest (m : float) (l : list float) : Prop :=
  In m l /\ forall x, In x l -> (x <=? m)%float = true.

(** ** The per-question comparison table *)

(** A dict appended to [combined_scores], then a row of [scores_df]. *)
Record ScoreRow : Set := {
  Question : string;
  Electric_Twin : float;
  Baseline : float;
  Difference : float
}.

(** [s.replace(old, new)] for one-character [old] and [new]. *)
Fixpoint replace (old new : ascii) (s : string) : string :=
  match s with
  | EmptyString => EmptyString
  | String c s' =>
      String (if Ascii.eqb c old then new else c) (replace old new s')
  end.

(** [df.columns] of a per-question table: the label first, the question
    columns of the file, then the cleaned label that [load_data] adds
    last. *)
Definition columns (r : QuestionRow) : list string :=
  "Country" :: map fst (questions r) ++ ["Country_clean"].

Fixpoint lookup (col : string) (cells : list (string * float)) : option float :=
  match cells with
  | [] => None
  | (c, v) :: cells' => if String.eqb c col then Some v else lookup col cells'
  end.

(** [row[col]] for a question column: KeyError when the row has no such
    column. *)
Definition getitem (row : QuestionRow) (col : string) : result float :=
  match lookup col (questions row) with
  | Some v => Ok v
  | None => Raise (KeyError col)
  end.

(** [df[df['Country_clean'] == selected_country]] *)
Definition select_rows (df : list QuestionRow) (selected_country : string)
  : list QuestionRow :=
  filter (fun r => String.eqb (Country_clean r) selected_country) df.

(** The guard of the loop on a pair of cells. *)
Definition both_scored (et_score baseline_score : float) : bool :=
  notna et_score && notna baseline_score
  && (et_score !=? zero)%float && (baseline_score !=? zero)%float.

Definition score_row (col : string) (et_score baseline_score : float) : ScoreRow :=
  {| Question := replace "." " " col;
     Electric_Twin := et_score;
     Baseline := baseline_score;
     Difference := (et_score - baseline_score)%float |}.

(** The loop over [et_data.columns]; [combined_scores] is the list built
    so far. *)
Fixpoint combined_scores_loop (et_row baseline_row : QuestionRow)
  (cols : list string) (combined_scores : list ScoreRow)
  : result (list ScoreRow) :=
  match cols with
  | [] => Ok combined_scores
  | col :: cols' =>
      if negb (in_list col ["Country"; "Country_clean"]) then
        et_score <- getitem et_row col ;;
        baseline_score <- getitem baseline_row col ;;
        if both_scored et_score baseline_score then
          combined_scores_loop et_row baseline_row cols'
            (combined_scores ++ [score_row col et_score baseline_score])
        else combined_scores_loop et_row baseline_row cols' combined_scores
      else combined_scores_loop et_row baseline_row cols' combined_scores
  end.

Definition combined_scores (et_row baseline_row : QuestionRow)
  : result (list ScoreRow) :=
  combined_scores_loop et_row baseline_row (columns et_row) [].

(** [pd.DataFrame(records)] on a list of dicts with the four keys: a frame
    with these columns, and a frame without any column when the list is
    empty. *)
Record DataFrame : Set := {
  df_columns : list string;
  df_rows : list ScoreRow
}.

Definition DataFrame_of (records : list ScoreRow) : DataFrame :=
  {| df_columns :=
       match records with
       | [] => []
       | _ :: _ => ["Question"; "Electric Twin"; "Baseline"; "Difference"]
       end;
     df_rows := records |}.

(** What is shown under the header of the detail section. *)
Inductive display : Set :=
| Dataframe (scores_df : DataFrame)
| NoQuestionData.

Section Pandas.

(** The control flow of the section, for any sort of the rows and any
    rounding of a cell.  What pandas and numpy compute for
    [sort_values('Electric Twin', ascending=False)] and [round(4)] is
    given further down ([sort_by_electric_twin], [np_round4]), and
    [question_level_scores] is the section with them. *)
Variable sort_desc : list ScoreRow -> list ScoreRow.
Variable round4 : float -> float.

(** [df.sort_values(by, ascending=False)], KeyError when the frame has no
    column [by]. *)
Definition sort_values (by_ : string) (df : DataFrame) : result DataFrame :=
  if in_list by_ (df_columns df) then
    Ok {| df_columns := df_columns df; df_rows := sort_desc (df_rows df) |}
  else Raise (KeyError by_).

Definition round_row (r : ScoreRow) : ScoreRow :=
  {| Question := Question r;
     Electric_Twin := round4 (Electric_Twin r);
     Baseline := round4 (Baseline r);
     Difference := round4 (Difference r) |}.

(** The loop that rounds the three numeric columns. *)
Definition round_columns (df : DataFrame) : DataFrame :=
  {| df_columns := df_columns df; df_rows := map round_row (df_rows df) |}.

(** The body of [if selected_country:], after the header. *)
Definition country_detail (et_df baseline_df : list QuestionRow)
  (selected_country : string) : result display :=
  let et_data := select_rows et_df selected_country in
  let baseline_data := select_rows baseline_df selected_country in
  match et_data, baseline_data with
  | et_row :: _, baseline_row :: _ =>
      records <- combined_scores et_row baseline_row ;;
      scores_df <- sort_values "Electric Twin" (DataFrame_of records) ;;
      Ok (Dataframe (round_columns scores_df))
  | _, _ => Ok NoQuestionData
  end.

(** The detail section with its guard: an empty selection shows
    nothing. *)
Definition detail_section (et_df baseline_df : list QuestionRow)
  (selected_country : string) : result (option display) :=
  if String.eqb selected_country "" then Ok None
  else
    d <- country_detail et_df baseline_df selected_country ;;
    Ok (Some d).

End Pandas.

(** ** Instances of the library operations

    A sort by descending score that leaves the rows of equal score in
    their order, and the rounding of numpy.  The sort serves to evaluate
    [country_detail] on examples; the sort of pandas itself comes
    below. *)

(** Insertion in a list in descending order: [r] goes before the first
    row that [stays_before] does not keep ahead of it. *)
Fixpoint insert_by (stays_before : ScoreRow -> ScoreRow -> bool)
  (r : ScoreRow) (l : list ScoreRow) : list ScoreRow :=
  match l with
  | [] => [r]
  | r' :: l' =>
      if stays_before r' r then r' :: insert_by stays_before r l'
      else r :: l
  end.

Definition sort_by (stays_before : ScoreRow -> ScoreRow -> bool)
  (l : list ScoreRow) : list ScoreRow :=
  fold_right (insert_by stays_before) [] l.

(** A stable sort: a row passes only the rows of strictly greater score,
    so rows of equal score keep their order. *)
Definition stable_sort_desc : list ScoreRow -> list ScoreRow :=
  sort_by (fun r' r => (Electric_Twin r' >? Electric_Twin r)%float).

(** [np.rint]: round to the nearest integer, ties to even. *)
Definition rint (x : float) : float :=
  match x with
  | S754_finite s m e =>
      if (0 <=? e)%Z then x
      else
        let mrs := fst (shr (shr_record_of_loc (Zpos m) loc_Exact) e (- e)) in
        let n := round_nearest_even (shr_m mrs) (loc_of_shr_record mrs) in
        binary_normalize prec emax (cond_Zopp s n) 0 s
  | _ => x
  end.

(** [round(4)] as numpy computes it,
    [np.true_divide(np.rint(a * 10**4), 10**4)]: scale by 10^4, round to
    the nearest integer, scale back. *)
Definition np_round4 (x : float) : float :=
  SFdiv prec emax (rint (SFmul prec emax x (of_int 10000))) (of_int 10000).

(** The rows that one column contributes to [combined_scores]: a row for a
    question column whose two cells pass the guard, nothing otherwise. *)
Definition kept_row (et_row baseline_row : QuestionRow) (col : string)
  : list ScoreRow :=
  if in_list col ["Country"; "Country_clean"] then []
  else
    match lookup col (questions et_row), lookup col (questions baseline_row) with
    | Some e, Some b => if both_scored e b then [score_row col e b] else []
    | _, _ => []
    end.

(** Descending order of the score [Electric Twin]. *)
Definition score_ge (a b : ScoreRow) : Prop :=
  (Electric_Twin a >=? Electric_Twin b)%float = true.

(** What the documentation of pandas grants for [sort_values] on a column
    without NaN, whatever the [kind]: the rows are permuted and come out
    in descending order of the column. *)
Definition sort_contract (sort_desc : list ScoreRow -> list ScoreRow) : Prop :=
  forall l,
    (forall r, In r l -> isnan (Electric_Twin r) = false) ->
    Permutation l (sort_desc l) /\ StronglySorted score_ge (sort_desc l).


(** ** Example tables *)

Definition example_delta : list DeltaRow :=
  [ {| country := "X (2021)"; country_clean_col := "X";
       mean_SJSD_ET := lit 92 100; mean_SJSD_Baseline := lit 88 100 |};
    {| country := "France (2021)"; country_clean_col := "France";
       mean_SJSD_ET := f0_4; mean_SJSD_Baseline := f0_90 |} ].

(** The records of the example of the specification: one pair of scores,
    one zero, one missing cell. *)
Definition example_et : QuestionRow :=
  {| Country := "X (2021)"; Country_clean := "X";
     questions := [("q1", lit 9 10); ("q2", zero); ("q3", nan)] |}.

Definition example_baseline : QuestionRow :=
  {| Country := "X (2021)"; Country_clean := "X";
     questions := [("q1", lit 7 10); ("q2", lit 5 10); ("q3", lit 6 10)] |}.

(** A record whose cells are all zero or missing. *)
Definition unevaluated_et : QuestionRow :=
  {| Country := "Y (2021)"; Country_clean := "Y";
     questions := [("q1", zero); ("q2", nan)] |}.

Definition unevaluated_baseline : QuestionRow :=
  {| Country := "Y (2021)"; Country_clean := "Y";
     questions := [("q1", lit 5 10); ("q2", lit 6 10)] |}.

(** Two questions with the same Electric Twin score. *)
Definition tied_et : QuestionRow :=
  {| Country := "Z"; Country_clean := "Z";
     questions := [("q1", lit 7 10); ("q2", lit 7 10)] |}.

Definition tied_baseline : QuestionRow :=
  {| Country := "Z"; Country_clean := "Z";
     questions := [("q1", lit 5 10); ("q2", lit 6 10)] |}.


(** ** The figure of [create_choropleth] *)

Module go.

(** A [go.Choropleth] trace, with the attributes that carry data or
    decide what is drawn: the line, hover and font attributes are left
    out, and so is the tick text, which prints floats.  [tickvals] is
    empty for a trace without colour bar. *)
Record Choropleth : Set := {
  locations : list string;
  z : list float;
  colorscale : list (float * string);
  showscale : bool;
  visible : bool;
  tickvals : list float
}.

End go.

(** [r[col_name]] for a row of [delta_df]. *)
Definition score_of (col : string) (r : DeltaRow) : float :=
  if String.eqb col "mean_SJSD_ET" then mean_SJSD_ET r else mean_SJSD_Baseline r.

(** A row of [plot_data]: the row of [delta_df] with its two new
    columns. *)
Record PlotRow : Set := {
  plot_row : DeltaRow;
  color : string;
  category : Z
}.

Definition plot_data_of (col : string) (delta_df : list DeltaRow) : list PlotRow :=
  map (fun r => {| plot_row := r;
                   color := get_color (score_of col r);
                   category := get_category (score_of col r) |}) delta_df.

(** One turn of the loop over the triples: a trace for the rows of the
    category, when there is any. *)
Definition category_trace (col : string) (plot_data : list PlotRow)
  (triple : Z * string * string) : list go.Choropleth :=
  let '(cat, trace_color, _) := triple in
  let category_data := filter (fun p => (category p =? cat)%Z) plot_data in
  if (0 <? List.length category_data)%nat then
    [ {| go.locations := map (fun p => country_clean_col (plot_row p)) category_data;
         go.z := map (fun p => score_of col (plot_row p)) category_data;
         go.colorscale := [(of_int 0, trace_color); (of_int 1, trace_color)];
         go.showscale := false;
         go.visible := true;
         go.tickvals := [] |} ]
  else [].

(** The hidden trace that carries the colour bar. *)
Definition colorbar_trace (selected_approach : string) (delta_df : list DeltaRow)
  : go.Choropleth :=
  {| go.locations := ["USA"];
     go.z := [min_val selected_approach delta_df];
     go.colorscale :=
       [ (of_int 0, "#8B0000"); (lit 2 10, "#FF4500"); (lit 4 10, "#FFFF00");
         (lit 6 10, "#90EE90"); (lit 8 10, "#008000"); (of_int 1, "#008000") ];
     go.showscale := true;
     go.visible := false;
     go.tickvals := [min_val selected_approach delta_df;
                     max_val selected_approach delta_df] |}.

(** The traces of the figure, in the order of [add_trace]. *)
Definition create_choropleth (selected_approach : string)
  (delta_df : list DeltaRow) : list go.Choropleth :=
  let col := col_name selected_approach in
  let plot_data := plot_data_of col delta_df in
  flat_map (category_trace col plot_data) traces
  ++ [colorbar_trace selected_approach delta_df].

(** The traces that draw countries: all but the last. *)
Definition country_traces (selected_approach : string)
  (delta_df : list DeltaRow) : list go.Choropleth :=
  removelast (create_choropleth selected_approach delta_df).

(** ** The options of the country selector *)

(** [Series.unique()]: the values in the order of their first
    appearance. *)
Fixpoint unique (l : list string) : list string :=
  match l with
  | [] => []
  | x :: l' => x :: filter (fun y => negb (String.eqb y x)) (unique l')
  end.

(** [sorted] on strings, which Python orders by code point.  The sorted
    list of distinct strings does not depend on the algorithm; insertion
    is used here. *)
Fixpoint insert_sorted (x : string) (l : list string) : list string :=
  match l with
  | [] => [x]
  | y :: l' => if String.leb x y then x :: l else y :: insert_sorted x l'
  end.

Definition sorted (l : list string) : list string :=
  fold_right insert_sorted [] l.

Definition options (delta_df : list DeltaRow) : list string :=
  sorted (unique (map country_clean_col delta_df)).

(** Strictly ascending order of strings. *)
Definition ascending (a b : string) : Prop := String.ltb a b = true.

(** A string without the character [c]. *)
Fixpoint has_char (c : ascii) (s : string) : bool :=
  match s with
  | EmptyString => false
  | String d s' => Ascii.eqb d c || has_char c s'
  end.

(** ** Labels with a year annotation *)

(** The label [name] followed by white space, possibly none, and a year
    in parentheses. *)
Definition annotated (name label : string) : Prop :=
  exists ws d1 d2 d3 d4,
    all_space ws = true
    /\ Re.is_digit d1 = true /\ Re.is_digit d2 = true
    /\ Re.is_digit d3 = true /\ Re.is_digit d4 = true
    /\ label = (name ++ ws ++ year d1 d2 d3 d4)%string.

(** The label is the name, with or without a year annotation. *)
Definition labelled (name label : string) : Prop :=
  label = name \/ annotated name label.

(** ** The argsort of numpy

    [ndarray.argsort(kind='quicksort')] on a float64 array, as numpy's
    generic code computes it (npysort/quicksort.cpp and heapsort.cpp): an
    introsort on the array of indices.  A build of numpy that hands the
    call to a vector routine of the processor sorts all the same and may
    leave entries of equal key in another order. *)

Module np.

(** [npy::double_tag::less]: [a < b || (b != b && a == a)], so that NaN
    goes last. *)
Definition less_double (a b : float) : bool :=
  (a <? b)%float || ((b !=? b)%float && (a ==? a)%float).

Section Npysort.

(** [Tag::less(v[a], v[b])] on two entries of [tosort]. *)
Variable less : nat -> nat -> bool.

(** [x] is not after [y]. *)
Definition le (x y : nat) : Prop := less y x = false.

(** The index array [tosort], or a stretch [pl .. pr] of it; positions
    count from [pl]. *)
Definition at_ (s : list nat) (i : nat) : nat := nth i s 0%nat.

Fixpoint set_at (i : nat) (x : nat) (s : list nat) : list nat :=
  match s, i with
  | [], _ => []
  | _ :: s', O => x :: s'
  | y :: s', S i' => y :: set_at i' x s'
  end.

(** [INTP_SWAP] of the entries at [pi] and [pj]. *)
Definition swap (i j : nat) (s : list nat) : list nat :=
  set_at j (at_ s i) (set_at i (at_ s j) s).

(** The insertion sort of a short stretch: each entry moves left past
    the entries that are greater, [while (pj > pl && less(vp, v[k]))]
    with [k] the entry at [pk].
    [rprefix] is the sorted part read from [pk] down to [pl]. *)
Fixpoint shift_right (vi : nat) (rprefix shifted : list nat) : list nat :=
  match rprefix with
  | [] => vi :: shifted
  | k :: rprefix' =>
      if less vi k then shift_right vi rprefix' (k :: shifted)
      else rev_append rprefix (vi :: shifted)
  end.

Definition insertion_sort (s : list nat) : list nat :=
  fold_left (fun done vi => shift_right vi (rev done) []) s [].

(** [do ++pi; while (less(v[i], vp))] with [i] the entry at [pi], and
    [do --pj; while (less(vp, v[j]))] with [j] the entry at [pj]. *)
Fixpoint scan_up (fuel : nat) (vp : nat) (s : list nat) (i : nat) : nat :=
  match fuel with
  | O => i
  | S fuel' => if less (at_ s i) vp then scan_up fuel' vp s (S i) else i
  end.

Fixpoint scan_down (vp : nat) (s : list nat) (j : nat) : nat :=
  match j with
  | O => O
  | S j' => if less vp (at_ s j) then scan_down vp s j' else j
  end.

(** The loop [for (;;)] of the partition. *)
Fixpoint exchange (fuel : nat) (vp : nat) (s : list nat) (pi pj : nat)
  : list nat * nat :=
  match fuel with
  | O => (s, pi)
  | S fuel' =>
      let pi := scan_up (List.length s) vp s (S pi) in
      let pj := scan_down vp s (pj - 1) in
      if (pj <=? pi)%nat then (s, pi)
      else exchange fuel' vp (swap pi pj s) pi pj
  end.

(** One partition of the stretch [s] = [pl .. pr]: the median of three
    goes to [pr - 1], the entries are exchanged around it, and it ends at
    [pi].  The result is the stretch and [pi]. *)
Definition partition (s : list nat) : list nat * nat :=
  let pr := (List.length s - 1)%nat in
  let pm := Nat.div2 pr in
  let s := if less (at_ s pm) (at_ s 0) then swap pm 0 s else s in
  let s := if less (at_ s pr) (at_ s pm) then swap pr pm s else s in
  let s := if less (at_ s pm) (at_ s 0) then swap pm 0 s else s in
  let vp := at_ s pm in
  let s := swap pm (pr - 1) s in
  let '(s, pi) := exchange (List.length s) vp s 0 (pr - 1) in
  (swap pi (pr - 1) s, pi).

(** [aheapsort_]: the array is addressed from 1, [a = tosort - 1]. *)
Definition at1 (a : list nat) (i : nat) : nat := at_ a (i - 1).
Definition set_at1 (i : nat) (x : nat) (a : list nat) : list nat :=
  set_at (i - 1) x a.

(** Every entry from [lo] to [n] is not before its two children. *)
Definition heap (a : list nat) (lo n : nat) : Prop :=
  forall p c, (lo <= p)%nat -> c = (2 * p)%nat \/ c = S (2 * p) -> (c <= n)%nat ->
    le (at1 a c) (at1 a p).

(** The inner loop of both phases, from [i] with [j = 2 i], and the
    final [a[i] = tmp]. *)
Fixpoint sift (fuel : nat) (a : list nat) (tmp : nat) (i n : nat) : list nat :=
  match fuel with
  | O => set_at1 i tmp a
  | S fuel' =>
      let j := (2 * i)%nat in
      if (n <? j)%nat then set_at1 i tmp a
      else
        let j := if (j <? n)%nat && less (at1 a j) (at1 a (S j)) then S j else j in
        if less tmp (at1 a j) then sift fuel' (set_at1 i (at1 a j) a) tmp j n
        else set_at1 i tmp a
  end.

(** [for (l = n >> 1; l > 0; --l)] *)
Fixpoint build_heap (l : nat) (n : nat) (a : list nat) : list nat :=
  match l with
  | O => a
  | S l' => build_heap l' n (sift n a (at1 a l) l n)
  end.

(** [for (; n > 1;)] *)
Fixpoint drain_heap (n : nat) (a : list nat) : list nat :=
  match n with
  | O => a
  | S n' =>
      if (n' =? 0)%nat then a
      else
        let tmp := at1 a n in
        let a := set_at1 n (at1 a 1) a in
        drain_heap n' (sift n' a tmp 1 n')
  end.

Definition aheapsort (s : list nat) : list nat :=
  let n := List.length s in
  drain_heap n (build_heap (Nat.div2 n) n s).

(** [aquicksort_] on the stretch [s] with the depth [cdepth] left.  The
    source keeps the stretches still to sort on a stack; they do not
    overlap, so each is sorted here where it lies.  A stretch of more
    than 17 entries is partitioned; of the two parts the longer is pushed
    with the new depth and the shorter is gone on with.  [popped] tells a
    stretch that comes from the stack: it is heap-sorted when its depth
    is below zero. *)
Fixpoint aquicksort_from (fuel : nat) (popped : bool) (cdepth : Z)
  (s : list nat) : list nat :=
  match fuel with
  | O => s
  | S fuel' =>
      if popped && (cdepth <? 0)%Z then aheapsort s
      else if (16 <? List.length s - 1)%nat then
        let '(s, pi) := partition s in
        let pl_part := firstn pi s in
        let pr_part := skipn (S pi) s in
        let cdepth := (cdepth - 1)%Z in
        if (List.length pl_part <? List.length pr_part)%nat then
          aquicksort_from fuel' false cdepth pl_part
          ++ at_ s pi :: aquicksort_from fuel' true cdepth pr_part
        else
          aquicksort_from fuel' true cdepth pl_part
          ++ at_ s pi :: aquicksort_from fuel' false cdepth pr_part
      else insertion_sort s
  end.

(** [npy_get_msb(num) * 2] *)
Definition depth_limit (num : nat) : Z := (Z.log2 (Z.of_nat num) * 2)%Z.

Definition aquicksort (tosort : list nat) : list nat :=
  aquicksort_from (S (List.length tosort)) true
    (depth_limit (List.length tosort)) tosort.

End Npysort.

(** The indices [0 .. n-1] of [v], sorted by their entry of [v]. *)
Definition argsort (v : list float) : list nat :=
  aquicksort (fun i j => less_double (nth i v nan) (nth j v nan))
    (seq 0 (List.length v)).

End np.

(** ** The sort of pandas *)

Module pd.

(** [nargsort(items, kind='quicksort', ascending, na_position='last')] of
    pandas.core.sorting: the entries that are NaN are set aside and come
    last; for a descending order the others are reversed, sorted in
    ascending order, and the result is reversed. *)
Definition nargsort (items : list float) (ascending : bool) : list nat :=
  let idx := seq 0 (List.length items) in
  let mask := fun i => isnan (nth i items nan) in
  let non_nans := map (fun i => nth i items nan) (filter (fun i => negb (mask i)) idx) in
  let non_nan_idx := filter (fun i => negb (mask i)) idx in
  let nan_idx := filter mask idx in
  let non_nans := if ascending then non_nans else rev non_nans in
  let non_nan_idx := if ascending then non_nan_idx else rev non_nan_idx in
  let indexer := map (fun j => nth j non_nan_idx 0%nat) (np.argsort non_nans) in
  let indexer := if ascending then indexer else rev indexer in
  indexer ++ nan_idx.

(** [df.take(indexer)]: the rows at the positions of [indexer]. *)
Definition take (indexer : list nat) (rows : list ScoreRow) : list ScoreRow :=
  flat_map (fun i => match nth_error rows i with
                     | Some r => [r]
                     | None => []
                     end) indexer.

(** [df[by]] for the three numeric columns of the table. *)
Definition values (by_ : string) (r : ScoreRow) : float :=
  if String.eqb by_ "Electric Twin" then Electric_Twin r
  else if String.eqb by_ "Baseline" then Baseline r
  else Difference r.

(** [df.sort_values(by, ascending=...)], KeyError when the frame has no
    column [by]. *)
Definition sort_values (by_ : string) (ascending : bool) (df : DataFrame)
  : result DataFrame :=
  if in_list by_ (df_columns df) then
    let k := map (values by_) (df_rows df) in
    Ok {| df_columns := df_columns df;
          df_rows := take (nargsort k ascending) (df_rows df) |}
  else Raise (KeyError by_).

End pd.

(** The rows of [sort_values('Electric Twin', ascending=False)]. *)
Definition sort_by_electric_twin (rows : list ScoreRow) : list ScoreRow :=
  pd.take (pd.nargsort (map (pd.values "Electric Twin") rows) false) rows.

(** The body of [if selected_country:] with the operations of pandas and
    numpy in place: [sort_values('Electric Twin', ascending=False)] and
    [round(4)]. *)
Definition question_level_scores (et_df baseline_df : list QuestionRow)
  (selected_country : string) : result display :=
  let et_data := select_rows et_df selected_country in
  let baseline_data := select_rows baseline_df selected_country in
  match et_data, baseline_data with
  | et_row :: _, baseline_row :: _ =>
      records <- combined_scores et_row baseline_row ;;
      scores_df <- pd.sort_values "Electric Twin" false (DataFrame_of records) ;;
      Ok (Dataframe (round_columns np_round4 scores_df))
  | _, _ => Ok NoQuestionData
  end.

(** ** What the specification says of a row

    The frame of a file has one column of each name: [read_csv] renames a
    header that comes twice. *)
Definition distinct_columns (r : QuestionRow) : Prop :=
  NoDup ("Country" :: "Country_clean" :: map fst (questions r)).

(** A pair of cells that the comparison keeps: both present and both
    other than zero. *)
Definition scored (et_score baseline_score : float) : Prop :=
  isnan et_score = false /\ isnan baseline_score = false
  /\ (et_score ==? zero)%float = false /\ (baseline_score ==? zero)%float = false.

(** The label of a question: the identifier with each separator, a dot,
    turned into a space. *)
Definition label_of (identifier label : string) : Prop :=
  String.length label = String.length identifier
  /\ forall i c, String.get i identifier = Some c ->
       String.get i label = Some (if Ascii.eqb c "." then " "%char else c).

(** The integer [k] is an integer nearest to [m * 2^e], for [e < 0],
    and the even one where two are equally near. *)
Definition nearest_even (m : positive) (e : Z) (k : Z) : Prop :=
  let d := (2 ^ (- e))%Z in
  (Z.abs (2 * (Zpos m - k * d)) <= d)%Z
  /\ (Z.abs (2 * (Zpos m - k * d)) = d -> Z.even k = true)%Z.

(** The record holds [m0] shifted right by [k] bits: its mantissa, the
    bit shifted out last, and whether a bit shifted out before is set. *)
Definition shifted (m0 k : Z) (mrs : shr_record) : Prop :=
  (0 <= shr_m mrs)%Z
  /\ exists t,
       (0 <= t < 2 ^ k)%Z
       /\ (2 * m0 = 2 ^ k * (2 * shr_m mrs + Z.b2z (shr_r mrs)) + t)%Z
       /\ (shr_s mrs = true <-> (0 < t)%Z).

(** The float of [k] ten-thousandths of sign [s]: the binary64 number
    nearest to the decimal, and the zero of that sign for no
    ten-thousandth. *)
Definition decimal4 (s : bool) (k : Z) : float :=
  if (k =? 0)%Z then S754_zero s else lit (cond_Zopp s k) 10000.

(** [y] is [x] rounded to 4 decimal places the way numpy rounds: the
    float of the number of ten-thousandths nearest to [x * 10^4], this
    product being the one of binary64.  A product that is an integer
    already (from 2^52 on), an infinity or NaN is divided as it is. *)
Definition rounded4 (x y : float) : Prop :=
  match SFmul prec emax x (of_int 10000) with
  | S754_finite s m e =>
      if (e <? 0)%Z then
        exists k, (0 <= k)%Z /\ nearest_even m e k /\ y = decimal4 s k
      else y = SFdiv prec emax (S754_finite s m e) (of_int 10000)
  | scaled => y = SFdiv prec emax scaled (of_int 10000)
  end.

(** The sign of a float. *)
Definition signbit (x : float) : bool :=
  match x with
  | S754_zero s | S754_infinity s | S754_finite s _ _ => s
  | S754_nan => false
  end.

(** A number of absolute value at most one: [m * 2^e <= 1]. *)
Definition unit_magnitude (x : float) : Prop :=
  match x with
  | S754_zero _ => True
  | S754_finite _ m e => (e <= 0)%Z /\ (Zpos m <= 2 ^ (- e))%Z
  | _ => False
  end.

(** [k] ten-thousandths are within half a ten-thousandth of the absolute
    value of [x], and [2^-40] of a ten-thousandth more, the error of the
    one product that numpy rounds: for [x] of absolute value [m * 2^e],
    [|m * 10^4 - k * 2^-e| <= (1/2 + 2^-40) * 2^-e]. *)
Definition within_half_unit (x : float) (k : Z) : Prop :=
  match x with
  | S754_zero _ => k = 0%Z
  | S754_finite _ m e =>
      (2 ^ 40 * Z.abs (Zpos m * 10000 - k * 2 ^ (- e)) <= (2 ^ 39 + 1) * 2 ^ (- e))%Z
  | _ => False
  end.

(** [y] is the number [x] rounded to 4 decimal places: the float of a
    number of ten-thousandths nearest to [x], in this sense, with the
    sign of [x].  The product of binary64 is not part of this
    statement. *)
Definition to_4_places (x y : float) : Prop :=
  exists k, (0 <= k)%Z /\ within_half_unit x k /\ y = decimal4 (signbit x) k.


(** ** More example tables *)



(** A Baseline record without the question [q2]. *)
Definition short_et : QuestionRow :=
  {| Country := "V (2021)"; Country_clean := "V";
     questions := [("q1", lit 9 10); ("q2", lit 8 10)] |}.

Definition short_baseline : QuestionRow :=
  {| Country := "V (2021)"; Country_clean := "V";
     questions := [("q1", lit 7 10)] |}.

(** A question whose identifier has separators. *)
Definition dotted_et : QuestionRow :=
  {| Country := "U (2021)"; Country_clean := "U";
     questions := [("Q1.trust.in.science", lit 123456 1000000)] |}.

Definition dotted_baseline : QuestionRow :=
  {| Country := "U (2021)"; Country_clean := "U";
     questions := [("Q1.trust.in.science", lit 5 10)] |}.



(** ** Facts on the order of floats *)

Module FloatOrder.

Lemma compare_key (x y : float) :
  isnan x = false -> isnan y = false ->
  SFcompare x y = Some (lex_compare (key x) (key y)).
Proof.
  destruct x as [sx|sx| |sx mx ex], y as [sy|sy| |sy my ey];
    simpl; try discriminate; intros _ _;
    try (destruct sx; reflexivity); try (destruct sy; reflexivity);
    try (destruct sx, sy; reflexivity).
  destruct sx, sy; simpl; try reflexivity.
  rewrite Z.compare_opp, (Z.compare_antisym ex ey).
  destruct (ex ?= ey)%Z; reflexivity.
Qed.

Lemma lex_compare_lt a b : lex_compare a b = Lt <-> lex_lt a b.
Proof.
  destruct a as [[a1 a2] a3], b as [[b1 b2] b3]; simpl.
  destruct (Z.compare_spec a1 b1), (Z.compare_spec a2 b2),
    (Z.compare_spec a3 b3); split; intros; try discriminate;
    try reflexivity; lia.
Qed.

Lemma lex_compare_le a b : lex_compare a b <> Gt <-> lex_le a b.
Proof.
  destruct a as [[a1 a2] a3], b as [[b1 b2] b3]; simpl.
  destruct (Z.compare_spec a1 b1), (Z.compare_spec a2 b2),
    (Z.compare_spec a3 b3); split; intros; try congruence; lia.
Qed.

Lemma ltb_key x y :
  isnan x = false -> isnan y = false ->
  ((x <? y)%float = true <-> lex_lt (key x) (key y)).
Proof.
  intros Hx Hy. unfold ltb, SFltb. rewrite (compare_key x y Hx Hy).
  rewrite <- lex_compare_lt.
  destruct (lex_compare (key x) (key y)); split; congruence.
Qed.

Lemma leb_key x y :
  isnan x = false -> isnan y = false ->
  ((x <=? y)%float = true <-> lex_le (key x) (key y)).
Proof.
  intros Hx Hy. unfold leb, SFleb. rewrite (compare_key x y Hx Hy).
  rewrite <- lex_compare_le.
  destruct (lex_compare (key x) (key y)); split; congruence.
Qed.

Lemma ltb_key_false x y :
  isnan x = false -> isnan y = false ->
  ((x <? y)%float = false <-> lex_le (key y) (key x)).
Proof.
  intros Hx Hy. rewrite <- not_true_iff_false, (ltb_key x y Hx Hy).
  destruct (key x) as [[a1 a2] a3], (key y) as [[b1 b2] b3]; simpl; lia.
Qed.

Lemma leb_key_false x y :
  isnan x = false -> isnan y = false ->
  ((x <=? y)%float = false <-> lex_lt (key y) (key x)).
Proof.
  intros Hx Hy. rewrite <- not_true_iff_false, (leb_key x y Hx Hy).
  destruct (key x) as [[a1 a2] a3], (key y) as [[b1 b2] b3]; simpl; lia.
Qed.

(** Comparisons with NaN are all False. *)
Lemma leb_nan_l y : (nan <=? y)%float = false.
Proof. reflexivity. Qed.

Lemma leb_nan_r x : (x <=? nan)%float = false.
Proof. destruct x; reflexivity. Qed.

Lemma ltb_nan_r x : (x <? nan)%float = false.
Proof. destruct x; reflexivity. Qed.

Lemma leb_notna x y : (x <=? y)%float = true -> isnan x = false /\ isnan y = false.
Proof. destruct x, y; simpl; auto; discriminate. Qed.

Lemma ltb_notna x y : (x <? y)%float = true -> isnan x = false /\ isnan y = false.
Proof. destruct x, y; simpl; auto; discriminate. Qed.

Lemma leb_refl x : isnan x = false -> (x <=? x)%float = true.
Proof.
  intros Hx. apply leb_key; auto.
  destruct (key x) as [[a1 a2] a3]; simpl; lia.
Qed.

Lemma leb_trans x y z :
  (x <=? y)%float = true -> (y <=? z)%float = true -> (x <=? z)%float = true.
Proof.
  intros Hxy Hyz.
  destruct (leb_notna _ _ Hxy) as [Hx Hy], (leb_notna _ _ Hyz) as [_ Hz].
  apply leb_key in Hxy; auto. apply leb_key in Hyz; auto. apply leb_key; auto.
  destruct (key x) as [[a1 a2] a3], (key y) as [[b1 b2] b3],
    (key z) as [[c1 c2] c3]; simpl in *; lia.
Qed.

Lemma leb_total x y :
  isnan x = false -> isnan y = false ->
  (x <=? y)%float = true \/ (y <=? x)%float = true.
Proof.
  intros Hx Hy. rewrite !leb_key by auto.
  destruct (key x) as [[a1 a2] a3], (key y) as [[b1 b2] b3]; simpl; lia.
Qed.

Lemma ltb_leb_false x y :
  isnan x = false -> isnan y = false ->
  ((x <? y)%float = true <-> (y <=? x)%float = false).
Proof.
  intros Hx Hy. rewrite ltb_key, leb_key_false by auto. reflexivity.
Qed.

(** Turn every comparison of the context and of the goal into
    arithmetic on keys. *)
Ltac to_keys :=
  repeat match goal with
  | H : (?x <=? ?y)%float = true |- _ => apply leb_key in H; [ | assumption || reflexivity ..]
  | H : (?x <=? ?y)%float = false |- _ => apply leb_key_false in H; [ | assumption || reflexivity ..]
  | H : (?x <? ?y)%float = true |- _ => apply ltb_key in H; [ | assumption || reflexivity ..]
  | H : (?x <? ?y)%float = false |- _ => apply ltb_key_false in H; [ | assumption || reflexivity ..]
  end.

End FloatOrder.

(** ** The classifiers *)

(** The thresholds as binary64 numbers: mantissa and exponent of the
    floats that the literals 0.95, 0.90, 0.85 and 0.80 denote (in
    hexadecimal 0x1.e666666666666p-1, 0x1.ccccccccccccdp-1,
    0x1.b333333333333p-1 and 0x1.999999999999ap-1). *)
Example threshold_literals :
  lit 95 100 = S754_finite false 8556839292003942 (-53)
  /\ lit 90 100 = S754_finite false 8106479329266893 (-53)
  /\ lit 85 100 = S754_finite false 7656119366529843 (-53)
  /\ lit 80 100 = S754_finite false 7205759403792794 (-53)
  /\ f0_95 = lit 95 100 /\ f0_90 = lit 90 100
  /\ f0_85 = lit 85 100 /\ f0_80 = lit 80 100.
Proof. repeat split; vm_compute; reflexivity. Qed.

Lemma in_band_cases (k : Z) (s : float) :
  in_band k s = true -> (k = 1 \/ k = 2 \/ k = 3 \/ k = 4 \/ k = 5)%Z.
Proof.
  destruct k as [|p|p]; try discriminate.
  do 3 (try destruct p as [p|p|]); try discriminate; auto 6.
Qed.

Lemma unit_interval_notna (s : float) :
  (zero <=? s)%float = true -> isnan s = false.
Proof. intros H. apply (FloatOrder.leb_notna _ _ H). Qed.

(** The category of a float that is not NaN, read on its key. *)
Lemma get_category_band (s : float) :
  isnan s = false ->
  in_band (get_category s) s = true
  /\ forall k, in_band k s = true -> k = get_category s.
Proof.
  intros Hs. unfold get_category, geb.
  destruct (f0_95 <=? s)%float eqn:H95; [|
  destruct (f0_90 <=? s)%float eqn:H90; [|
  destruct (f0_85 <=? s)%float eqn:H85; [|
  destruct (f0_80 <=? s)%float eqn:H80 ]]].
  all: split;
    [ cbn [in_band];
      repeat match goal with
      | |- (_ && _)%bool = true => apply andb_true_intro; split
      | |- (_ <? _)%float = true => apply FloatOrder.ltb_leb_false; auto
      end; auto
    | intros k Hk; destruct (in_band_cases _ _ Hk) as [E|[E|[E|[E|E]]]];
      subst k; try reflexivity; exfalso; cbn [in_band] in Hk;
      repeat match goal with
      | H : (_ && _)%bool = true |- _ => apply andb_prop in H; destruct H
      end;
      FloatOrder.to_keys; unfold f0_95, f0_90, f0_85, f0_80 in *;
      cbn [key] in *; remember (key s) as ks eqn:Eks; clear Eks;
      destruct ks as [[a b] c];
      cbn [lex_le lex_lt] in *; lia ].
Qed.

(** C1. Every score of [0,1] gets one category among 1..5; the five ranges
    of the table cover [0,1] and do not overlap, since the range that
    holds the score is the one of its category and no other; and each of
    the thresholds 0.80, 0.85, 0.90 and 0.95 is in the band above it. *)
Theorem get_category_partition (s : float) :
  (zero <=? s)%float = true -> (s <=? f1_0)%float = true ->
  (1 <= get_category s <= 5)%Z
  /\ in_band (get_category s) s = true
  /\ (forall k, in_band k s = true -> k = get_category s)
  /\ get_category f0_80 = 2%Z /\ get_category f0_85 = 3%Z
  /\ get_category f0_90 = 4%Z /\ get_category f0_95 = 5%Z.
Proof.
  intros H0 H1.
  destruct (get_category_band s (unit_interval_notna s H0)) as [Hin Huniq].
  split; [|split; [exact Hin|split; [exact Huniq|]]].
  - destruct (in_band_cases _ _ Hin) as [E|[E|[E|[E|E]]]]; rewrite E; lia.
  - repeat split; reflexivity.
Qed.

Lemma get_category_partition_witness :
  (1 <= get_category f0_90 <= 5)%Z
  /\ in_band (get_category f0_90) f0_90 = true
  /\ (forall k, in_band k f0_90 = true -> k = get_category f0_90)
  /\ get_category f0_80 = 2%Z /\ get_category f0_85 = 3%Z
  /\ get_category f0_90 = 4%Z /\ get_category f0_95 = 5%Z.
Proof. apply (get_category_partition f0_90); reflexivity. Defined.

(** C10. The color of a score is the color that the trace loop attaches
    to the category of the score, and each of the five triples holds the
    category of a score if and only if it holds its color: the two
    classifiers put every float, NaN included, in the same band. *)
Theorem get_color_agrees_with_get_category (score : float) :
  color_of traces (get_category score) = Some (get_color score)
  /\ forall category color label,
       In (category, color, label) traces ->
       (get_category score = category <-> get_color score = color).
Proof.
  unfold get_color, get_category.
  destruct (score >=? f0_95)%float; [|
  destruct (score >=? f0_90)%float; [|
  destruct (score >=? f0_85)%float; [|
  destruct (score >=? f0_80)%float ]]].
  all: split; [reflexivity|].
  all: intros category color label Hin; cbn [traces In] in Hin;
    repeat (destruct Hin as [Hin|Hin]; [inversion Hin; subst; clear Hin|]);
    try contradiction; split; intros E; try reflexivity; discriminate E.
Qed.

(** ** The bounds of the colour bar *)

Lemma key_finite_inj (x : float) (s : bool) (m : positive) (e : Z) :
  isnan x = false -> key x = key (S754_finite s m e) -> x = S754_finite s m e.
Proof.
  destruct x as [sx|sx| |sx mx ex]; try discriminate; intros _;
    try destruct sx; destruct s; cbn [key]; intros H; inversion H.
  - f_equal. lia.
  - reflexivity.
Qed.

Lemma leb_antisym_finite (x : float) (s : bool) (m : positive) (e : Z) :
  (x <=? S754_finite s m e)%float = true ->
  (S754_finite s m e <=? x)%float = true ->
  x = S754_finite s m e.
Proof.
  intros H1 H2. destruct (FloatOrder.leb_notna _ _ H1) as [Hx Hc].
  apply key_finite_inj; [exact Hx|].
  apply FloatOrder.leb_key in H1; auto. apply FloatOrder.leb_key in H2; auto.
  destruct (key x) as [[a1 a2] a3], (key (S754_finite s m e)) as [[b1 b2] b3].
  cbn [lex_le] in *.
  assert (a1 = b1) by lia. assert (a2 = b2) by lia. assert (a3 = b3) by lia.
  congruence.
Qed.

Lemma py_min_cases (a b : float) : py_min a b = a \/ py_min a b = b.
Proof. unfold py_min. destruct (b <? a)%float; auto. Qed.

Lemma py_max_cases (a b : float) : py_max a b = a \/ py_max a b = b.
Proof. unfold py_max. destruct (b >? a)%float; auto. Qed.

Lemma py_min_notna (a b : float) :
  isnan a = false -> isnan b = false -> isnan (py_min a b) = false.
Proof. intros. destruct (py_min_cases a b) as [E|E]; rewrite E; auto. Qed.

Lemma py_max_notna (a b : float) :
  isnan a = false -> isnan b = false -> isnan (py_max a b) = false.
Proof. intros. destruct (py_max_cases a b) as [E|E]; rewrite E; auto. Qed.

Lemma py_min_le (a b : float) :
  isnan a = false -> isnan b = false ->
  (py_min a b <=? a)%float = true /\ (py_min a b <=? b)%float = true.
Proof.
  intros Ha Hb. unfold py_min. destruct (b <? a)%float eqn:E.
  - split; [|apply FloatOrder.leb_refl; auto].
    apply FloatOrder.leb_key; auto. apply FloatOrder.ltb_key in E; auto.
    destruct (key a) as [[a1 a2] a3], (key b) as [[b1 b2] b3];
      cbn [lex_le lex_lt] in *; lia.
  - split; [apply FloatOrder.leb_refl; auto|].
    apply FloatOrder.leb_key; auto. apply FloatOrder.ltb_key_false in E; auto.
Qed.

Lemma py_max_ge (a b : float) :
  isnan a = false -> isnan b = false ->
  (a <=? py_max a b)%float = true /\ (b <=? py_max a b)%float = true.
Proof.
  intros Ha Hb. unfold py_max, gtb. destruct (a <? b)%float eqn:E.
  - split; [|apply FloatOrder.leb_refl; auto].
    apply FloatOrder.leb_key; auto. apply FloatOrder.ltb_key in E; auto.
    destruct (key a) as [[a1 a2] a3], (key b) as [[b1 b2] b3];
      cbn [lex_le lex_lt] in *; lia.
  - split; [apply FloatOrder.leb_refl; auto|].
    apply FloatOrder.leb_key; auto. apply FloatOrder.ltb_key_false in E; auto.
Qed.

Lemma observed_notna (l : list float) (x : float) :
  In x (observed l) -> isnan x = false.
Proof.
  unfold observed, notna. rewrite filter_In. intros [_ H].
  now apply negb_true_iff in H.
Qed.

Lemma fold_py_min_least (xs : list float) :
  forall x, (forall y, In y (x :: xs) -> isnan y = false) ->
  least (fold_left py_min xs x) (x :: xs).
Proof.
  induction xs as [|y xs IH]; intros x Hn.
  - split; [left; reflexivity|]. intros z [<-|[]].
    apply FloatOrder.leb_refl, Hn. left; reflexivity.
  - assert (Hx : isnan x = false) by (apply Hn; left; reflexivity).
    assert (Hy : isnan y = false) by (apply Hn; right; left; reflexivity).
    destruct (IH (py_min x y)) as [Hin Hle].
    { intros z [<-|Hz]; [apply py_min_notna; auto|].
      apply Hn. right; right; exact Hz. }
    destruct (py_min_le x y Hx Hy) as [Lx Ly].
    assert (Hm : (fold_left py_min xs (py_min x y) <=? py_min x y)%float = true)
      by (apply Hle; left; reflexivity).
    cbn [fold_left]. split.
    + destruct Hin as [E|Hin]; [|right; right; exact Hin].
      rewrite <- E. destruct (py_min_cases x y) as [E'|E']; rewrite E';
        [left|right; left]; reflexivity.
    + intros z [<-|[<-|Hz]].
      * eapply FloatOrder.leb_trans; eauto.
      * eapply FloatOrder.leb_trans; eauto.
      * apply Hle. right; exact Hz.
Qed.

Lemma fold_py_max_greatest (xs : list float) :
  forall x, (forall y, In y (x :: xs) -> isnan y = false) ->
  greatest (fold_left py_max xs x) (x :: xs).
Proof.
  induction xs as [|y xs IH]; intros x Hn.
  - split; [left; reflexivity|]. intros z [<-|[]].
    apply FloatOrder.leb_refl, Hn. left; reflexivity.
  - assert (Hx : isnan x = false) by (apply Hn; left; reflexivity).
    assert (Hy : isnan y = false) by (apply Hn; right; left; reflexivity).
    destruct (IH (py_max x y)) as [Hin Hle].
    { intros z [<-|Hz]; [apply py_max_notna; auto|].
      apply Hn. right; right; exact Hz. }
    destruct (py_max_ge x y Hx Hy) as [Lx Ly].
    assert (Hm : (py_max x y <=? fold_left py_max xs (py_max x y))%float = true)
      by (apply Hle; left; reflexivity).
    cbn [fold_left]. split.
    + destruct Hin as [E|Hin]; [|right; right; exact Hin].
      rewrite <- E. destruct (py_max_cases x y) as [E'|E']; rewrite E';
        [left|right; left]; reflexivity.
    + intros z [<-|[<-|Hz]].
      * eapply FloatOrder.leb_trans; eauto.
      * eapply FloatOrder.leb_trans; eauto.
      * apply Hle. right; exact Hz.
Qed.

(** [Series.min()] and [Series.max()] are a least and a greatest observed
    score, when there is one. *)
Lemma series_min_least (l : list float) :
  observed l <> [] -> least (series_min l) (observed l).
Proof.
  unfold series_min. intros Hne.
  pose proof (observed_notna l) as Hn.
  destruct (observed l) as [|x xs]; [congruence|].
  apply fold_py_min_least. exact Hn.
Qed.

Lemma series_max_greatest (l : list float) :
  observed l <> [] -> greatest (series_max l) (observed l).
Proof.
  unfold series_max. intros Hne.
  pose proof (observed_notna l) as Hn.
  destruct (observed l) as [|x xs]; [congruence|].
  apply fold_py_max_greatest. exact Hn.
Qed.

Lemma least_py_min (m c : float) (l : list float) :
  isnan c = false -> (forall x, In x l -> isnan x = false) ->
  least m l -> least (py_min m c) (l ++ [c]).
Proof.
  intros Hc Hn [Hin Hle].
  assert (Hm : isnan m = false) by auto.
  destruct (py_min_le m c Hm Hc) as [L1 L2]. split.
  - apply in_or_app. destruct (py_min_cases m c) as [E|E]; rewrite E;
      [left; exact Hin|right; left; reflexivity].
  - intros x Hx. apply in_app_or in Hx. destruct Hx as [Hx|[<-|[]]].
    + eapply FloatOrder.leb_trans; [exact L1|auto].
    + exact L2.
Qed.

Lemma greatest_py_max (m c : float) (l : list float) :
  isnan c = false -> (forall x, In x l -> isnan x = false) ->
  greatest m l -> greatest (py_max m c) (l ++ [c]).
Proof.
  intros Hc Hn [Hin Hle].
  assert (Hm : isnan m = false) by auto.
  destruct (py_max_ge m c Hm Hc) as [L1 L2]. split.
  - apply in_or_app. destruct (py_max_cases m c) as [E|E]; rewrite E;
      [left; exact Hin|right; left; reflexivity].
  - intros x Hx. apply in_app_or in Hx. destruct Hx as [Hx|[<-|[]]].
    + eapply FloatOrder.leb_trans; [|exact L1]. auto.
    + exact L2.
Qed.

(** C6. With at least one observed score, the lower bound is
    [min(lo, 0.5)] and the upper bound [max(hi, 1.0)] for a least observed
    score [lo] and a greatest one [hi]; they are a least element of the
    observed scores with 0.5 and a greatest element of the observed scores
    with 1.0.  Scores all within [0.5, 1.0] give exactly 0.5 and 1.0, and
    a least observed score of 0.4 gives the lower bound 0.4. *)
Theorem legend_bounds (selected_approach : string) (delta_df : list DeltaRow) :
  let scores := observed (column delta_df (col_name selected_approach)) in
  let lower_bound := min_val selected_approach delta_df in
  let upper_bound := max_val selected_approach delta_df in
  scores <> [] ->
  (exists lo hi,
     least lo scores /\ greatest hi scores
     /\ lower_bound = py_min lo f0_5 /\ upper_bound = py_max hi f1_0)
  /\ least lower_bound (scores ++ [f0_5])
  /\ greatest upper_bound (scores ++ [f1_0])
  /\ ((forall x, In x scores ->
         (f0_5 <=? x)%float = true /\ (x <=? f1_0)%float = true) ->
      lower_bound = f0_5 /\ upper_bound = f1_0)
  /\ (least f0_4 scores -> lower_bound = f0_4).
Proof.
  intros scores lower_bound upper_bound Hne.
  pose proof (series_min_least _ Hne) as Hlo.
  pose proof (series_max_greatest _ Hne) as Hhi.
  pose proof (observed_notna (column delta_df (col_name selected_approach))) as Hn.
  fold scores in Hlo, Hhi, Hn.
  assert (Elo : lower_bound = py_min (series_min (column delta_df (col_name selected_approach))) f0_5)
    by reflexivity.
  assert (Ehi : upper_bound = py_max (series_max (column delta_df (col_name selected_approach))) f1_0)
    by reflexivity.
  set (lo := series_min _) in *. set (hi := series_max _) in *.
  split; [exists lo, hi; auto|].
  split; [rewrite Elo; apply least_py_min; auto|].
  split; [rewrite Ehi; apply greatest_py_max; auto|].
  split.
  - intros Hall. destruct Hlo as [Ilo _], Hhi as [Ihi _].
    destruct (Hall _ Ilo) as [Llo _], (Hall _ Ihi) as [_ Lhi].
    rewrite Elo, Ehi. unfold py_min, py_max, gtb. split.
    + destruct (f0_5 <? lo)%float eqn:E; [reflexivity|].
      apply leb_antisym_finite; [|exact Llo].
      apply FloatOrder.leb_key; auto. apply FloatOrder.ltb_key_false in E; auto.
    + destruct (hi <? f1_0)%float eqn:E; [reflexivity|].
      apply leb_antisym_finite; [exact Lhi|].
      apply FloatOrder.leb_key; auto. apply FloatOrder.ltb_key_false in E; auto.
  - intros [I4 L4]. destruct Hlo as [Ilo Llo].
    assert (E : lo = f0_4).
    { apply leb_antisym_finite; [apply Llo; exact I4|apply L4; exact Ilo]. }
    rewrite Elo, E. reflexivity.
Qed.

Lemma legend_bounds_witness :
  observed (column example_delta (col_name "Electric Twin")) <> []
  /\ min_val "Electric Twin" example_delta = f0_4.
Proof.
  assert (H : observed (column example_delta (col_name "Electric Twin")) <> [])
    by (vm_compute; discriminate).
  split; [exact H|].
  apply (legend_bounds "Electric Twin" example_delta H).
  vm_compute. split; [right; left; reflexivity|].
  intros x [<-|[<-|[]]]; reflexivity.
Defined.

(** ** The sign of a float difference

    The subtraction of two valid floats aligns the mantissas on the lesser
    exponent, subtracts them as integers and rounds.  Rounding never
    turns a difference other than zero into zero, because the exponent of
    a valid float is at least [emin]; so the sign of the float difference
    is the sign of the exact one. *)

Module FloatSub.

Local Open Scope Z_scope.

Lemma digits2_bounds (m : positive) :
  2 ^ (Zpos (digits2_pos m) - 1) <= Zpos m < 2 ^ Zpos (digits2_pos m).
Proof.
  induction m as [m IH|m IH|]; cbn [digits2_pos].
  - rewrite Pos2Z.inj_succ. unfold Z.succ.
    replace (Zpos (digits2_pos m) + 1 - 1) with (Z.succ (Zpos (digits2_pos m) - 1)) by lia.
    rewrite Z.pow_succ_r by lia.
    replace (Zpos (digits2_pos m) + 1) with (Z.succ (Zpos (digits2_pos m))) by lia.
    rewrite Z.pow_succ_r by lia. lia.
  - rewrite Pos2Z.inj_succ. unfold Z.succ.
    replace (Zpos (digits2_pos m) + 1 - 1) with (Z.succ (Zpos (digits2_pos m) - 1)) by lia.
    rewrite Z.pow_succ_r by lia.
    replace (Zpos (digits2_pos m) + 1) with (Z.succ (Zpos (digits2_pos m))) by lia.
    rewrite Z.pow_succ_r by lia. lia.
  - cbn. lia.
Qed.

Lemma shr_1_m (mrs : shr_record) :
  0 <= shr_m mrs -> shr_m (shr_1 mrs) = shr_m mrs / 2.
Proof.
  destruct mrs as [m r s]. cbn [shr_m]. intros Hm.
  rewrite <- Z.div2_div.
  destruct m as [|[p|p|]|p]; try reflexivity. lia.
Qed.

Lemma iter_shr_1_m (k : positive) :
  forall mrs, 0 <= shr_m mrs ->
    shr_m (iter_pos shr_1 k mrs) = shr_m mrs / 2 ^ Zpos k.
Proof.
  assert (Hstep : forall mrs, 0 <= shr_m mrs -> 0 <= shr_m (shr_1 mrs)).
  { intros mrs H. rewrite shr_1_m by exact H. apply Z.div_pos; lia. }
  induction k as [k IH|k IH|]; intros mrs Hm; cbn [iter_pos].
  - rewrite IH, IH, shr_1_m; auto.
    + rewrite !Z.div_div by lia. f_equal.
      rewrite Pos2Z.inj_xI, <- Z.pow_add_r, <- (Z.pow_1_r 2) at 1 by lia.
      rewrite <- Z.pow_add_r by lia. f_equal. lia.
    + rewrite IH by auto. apply Z.div_pos; [auto|]. apply Z.pow_pos_nonneg; lia.
  - rewrite IH, IH; auto.
    + rewrite Z.div_div by (try apply Z.pow_pos_nonneg; try apply Z.pow_nonzero; lia).
      f_equal. rewrite Pos2Z.inj_xO, <- Z.pow_add_r by lia. f_equal. lia.
    + rewrite IH by auto. apply Z.div_pos; [auto|]. apply Z.pow_pos_nonneg; lia.
  - rewrite shr_1_m by exact Hm. reflexivity.
Qed.

Lemma shr_record_of_loc_m (m : Z) (l : location) :
  shr_m (shr_record_of_loc m l) = m.
Proof. destruct l as [|[]]; reflexivity. Qed.

(** Shifting a positive mantissa to its canonical exponent leaves a
    positive mantissa, when the exponent is not below [emin]. *)
Lemma shr_fexp_pos (m : positive) (e : Z) (l : location) :
  emin prec emax <= e ->
  exists p,
    shr_m (fst (shr_fexp prec emax (Zpos m) e l)) = Zpos p
    /\ emin prec emax <= snd (shr_fexp prec emax (Zpos m) e l).
Proof.
  intros He. unfold shr_fexp, shr. cbn [Zdigits2].
  pose proof (digits2_bounds m) as [Hlo _].
  set (D := Zpos (digits2_pos m)) in *.
  destruct (fexp prec emax (D + e) - e) as [|k|k] eqn:En; cbn [fst snd].
  - exists m. rewrite shr_record_of_loc_m. auto.
  - assert (Hk : Zpos k <= D - 1).
    { rewrite <- En. unfold fexp, emin, prec, emax in *. lia. }
    rewrite iter_shr_1_m by (rewrite shr_record_of_loc_m; lia).
    rewrite shr_record_of_loc_m.
    assert (Hpow : 0 < 2 ^ Zpos k <= Zpos m).
    { split; [apply Z.pow_pos_nonneg; lia|].
      eapply Z.le_trans; [apply (Z.pow_le_mono_r 2 (Zpos k) (D - 1)); lia|exact Hlo]. }
    pose proof (Z.div_str_pos _ _ Hpow) as Hdiv.
    destruct (Zpos m / 2 ^ Zpos k) as [|p|p]; try lia.
    exists p. split; [reflexivity|lia].
  - exists m. rewrite shr_record_of_loc_m. auto.
Qed.

Lemma round_nearest_even_pos (p : positive) (l : location) :
  exists q, round_nearest_even (Zpos p) l = Zpos q.
Proof.
  destruct l as [|[]]; cbn [round_nearest_even]; eauto.
  - destruct (Z.even (Zpos p)); eauto. exists (p + 1)%positive. reflexivity.
  - exists (p + 1)%positive. reflexivity.
Qed.

(** Rounding a mantissa other than zero gives a float of the same sign,
    finite or infinite, never zero and never NaN. *)
Lemma binary_round_aux_signed (s : bool) (m : positive) (e : Z) (l : location) :
  emin prec emax <= e -> signed s (binary_round_aux prec emax s (Zpos m) e l).
Proof.
  intros He. unfold binary_round_aux.
  destruct (shr_fexp_pos m e l He) as [p [Hp He']].
  destruct (shr_fexp prec emax (Zpos m) e l) as [mrs' e'] eqn:E1.
  cbn [fst snd] in Hp, He'. rewrite Hp.
  destruct (round_nearest_even_pos p (loc_of_shr_record mrs')) as [q Hq].
  rewrite Hq.
  destruct (shr_fexp_pos q e' loc_Exact He') as [p' [Hp' _]].
  destruct (shr_fexp prec emax (Zpos q) e' loc_Exact) as [mrs'' e''] eqn:E2.
  cbn [fst] in Hp'. rewrite Hp'.
  destruct (e'' <=? emax - prec); [left; eauto|right; reflexivity].
Qed.

Lemma binary_round_signed (s : bool) (m : positive) (e : Z) :
  emin prec emax <= e -> signed s (binary_round prec emax s m e).
Proof.
  intros He. unfold binary_round, shl_align.
  set (f := fexp prec emax (Zpos (digits2_pos m) + e)).
  assert (Hf : emin prec emax <= f) by (unfold f, fexp; lia).
  destruct (f - e) as [|d|d]; apply binary_round_aux_signed; auto.
Qed.

Lemma pos_iter_xO (m d : positive) :
  Zpos (Pos.iter xO m d) = Zpos m * 2 ^ Zpos d.
Proof.
  induction d as [|d IH] using Pos.peano_ind.
  - cbn. lia.
  - rewrite Pos.iter_succ, Pos2Z.inj_xO, IH, Pos2Z.inj_succ, Z.pow_succ_r by lia.
    lia.
Qed.

Lemma shl_align_value (m : positive) (e e' : Z) :
  e' <= e -> Zpos (fst (shl_align m e e')) = Zpos m * 2 ^ (e - e').
Proof.
  intros H. unfold shl_align. destruct (e' - e) as [|d|d] eqn:E; cbn [fst].
  - replace (e - e') with 0 by lia. lia.
  - lia.
  - rewrite pos_iter_xO. f_equal. f_equal. lia.
Qed.

(** A valid float has a mantissa of at most [prec] digits, of exactly
    [prec] digits above the least exponent. *)
Lemma bounded_digits (m : positive) (e : Z) :
  bounded prec emax m e = true ->
  emin prec emax <= e
  /\ Zpos m < 2 ^ prec
  /\ (emin prec emax < e -> 2 ^ (prec - 1) <= Zpos m).
Proof.
  unfold bounded, canonical_mantissa. intros H.
  apply andb_prop in H. destruct H as [H _]. apply Z.eqb_eq in H.
  pose proof (digits2_bounds m) as [Hlo Hhi].
  set (D := Zpos (digits2_pos m)) in *.
  assert (HD : 0 < D) by (unfold D; lia).
  unfold fexp, emin, prec, emax in *.
  split; [lia|]. split.
  - eapply Z.lt_le_trans; [exact Hhi|]. apply Z.pow_le_mono_r; lia.
  - intros He. replace D with 53 in Hlo by lia. exact Hlo.
Qed.

(** The difference of two positive valid floats has the sign of their
    comparison. *)
Lemma sub_finite_sign (mx my : positive) (ex ey : Z) :
  bounded prec emax mx ex = true -> bounded prec emax my ey = true ->
  let r := SFsub prec emax (S754_finite false mx ex) (S754_finite false my ey) in
  (ey < ex \/ (ey = ex /\ Zpos my < Zpos mx) -> signed false r)
  /\ (ex < ey \/ (ex = ey /\ Zpos mx < Zpos my) -> signed true r)
  /\ (ex = ey /\ mx = my -> r = S754_zero false).
Proof.
  intros Bx By r.
  destruct (bounded_digits mx ex Bx) as [Hex [Hmx Hnx]].
  destruct (bounded_digits my ey By) as [Hey [Hmy Hny]].
  unfold r, SFsub. cbn [cond_Zopp].
  assert (Hz : emin prec emax <= Z.min ex ey) by lia.
  rewrite (shl_align_value mx ex (Z.min ex ey)) by lia.
  rewrite (shl_align_value my ey (Z.min ex ey)) by lia.
  set (X := Zpos mx * 2 ^ (ex - Z.min ex ey)).
  set (Y := Zpos my * 2 ^ (ey - Z.min ex ey)).
  assert (Hcmp : (ey < ex -> Y < X) /\ (ex < ey -> X < Y)
                 /\ (ex = ey -> X = Zpos mx /\ Y = Zpos my)).
  { unfold X, Y, prec, emin, emax in *.
    change (2 ^ (53 - 1)) with 4503599627370496 in Hnx, Hny.
    change (2 ^ 53) with 9007199254740992 in Hmx, Hmy. repeat split.
    - intros H. rewrite Z.min_r by lia. replace (ey - ey) with 0 by lia.
      assert (2 <= 2 ^ (ex - ey))
        by (change 2 with (2 ^ 1) at 1; apply Z.pow_le_mono_r; lia).
      assert (4503599627370496 <= Zpos mx) by (apply Hnx; lia). nia.
    - intros H. rewrite Z.min_l by lia. replace (ex - ex) with 0 by lia.
      assert (2 <= 2 ^ (ey - ex))
        by (change 2 with (2 ^ 1) at 1; apply Z.pow_le_mono_r; lia).
      assert (4503599627370496 <= Zpos my) by (apply Hny; lia). nia.
    - subst ey. rewrite Z.min_id, Z.sub_diag. lia.
    - subst ey. rewrite Z.min_id, Z.sub_diag. lia. }
  destruct Hcmp as [Hgt [Hlt Heq]].
  repeat split.
  - intros H. assert (Hd : 0 < X - Y) by (destruct H as [H|[H H']]; [specialize (Hgt H)|destruct (Heq (eq_sym H))]; lia).
    destruct (X - Y) as [|p|p]; try lia. cbn [binary_normalize].
    apply binary_round_signed, Hz.
  - intros H. assert (Hd : X - Y < 0) by (destruct H as [H|[H H']]; [specialize (Hlt H)|destruct (Heq H)]; lia).
    destruct (X - Y) as [|p|p]; try lia. cbn [binary_normalize].
    apply binary_round_signed, Hz.
  - intros [H H']. destruct (Heq H) as [-> ->]. subst my.
    rewrite Z.sub_diag. reflexivity.
Qed.

Lemma signed_true_lt_zero (r : float) :
  signed true r -> (r <? zero)%float = true /\ (zero <? r)%float = false.
Proof. intros [[m [e ->]]| ->]; split; reflexivity. Qed.

Lemma signed_false_gt_zero (r : float) :
  signed false r -> (zero <? r)%float = true /\ (r <? zero)%float = false.
Proof. intros [[m [e ->]]| ->]; split; reflexivity. Qed.

Lemma is_score_cases (x : float) :
  is_score x ->
  (exists s, x = S754_zero s)
  \/ (exists m e, x = S754_finite false m e /\ bounded prec emax m e = true).
Proof.
  intros [Hv [H0 H1]]. destruct x as [s|s| |s m e].
  - left; eauto.
  - destruct s; discriminate.
  - discriminate.
  - destruct s; [discriminate|]. right. exists m, e. auto.
Qed.

(** On scores the float difference is positive exactly when the first
    score is the greater, and negative exactly when it is the lesser. *)
Lemma sub_score_sign (x y : float) :
  is_score x -> is_score y ->
  (zero <? (x - y))%float = (y <? x)%float
  /\ ((x - y) <? zero)%float = (x <? y)%float.
Proof.
  intros Hx Hy.
  destruct (is_score_cases x Hx) as [[sx ->]|[mx [ex [-> Bx]]]],
    (is_score_cases y Hy) as [[sy ->]|[my [ey [-> By]]]].
  - destruct sx, sy; split; reflexivity.
  - split; reflexivity.
  - split; reflexivity.
  - destruct (sub_finite_sign mx my ex ey Bx By) as [Hgt [Hlt Heq]].
    unfold sub.
    set (r := SFsub prec emax (S754_finite false mx ex) (S754_finite false my ey)) in *.
    assert (Hcases : (ey < ex \/ (ey = ex /\ Zpos my < Zpos mx))
                     \/ (ex < ey \/ (ex = ey /\ Zpos mx < Zpos my))
                     \/ (ex = ey /\ mx = my)) by lia.
    destruct Hcases as [H|[H|H]].
    + destruct (signed_false_gt_zero r (Hgt H)) as [-> ->]. split; symmetry.
      * apply FloatOrder.ltb_key; [reflexivity..|]. cbn [key lex_lt]. lia.
      * apply FloatOrder.ltb_key_false; [reflexivity..|]. cbn [key lex_le]. lia.
    + destruct (signed_true_lt_zero r (Hlt H)) as [-> ->]. split; symmetry.
      * apply FloatOrder.ltb_key_false; [reflexivity..|]. cbn [key lex_le]. lia.
      * apply FloatOrder.ltb_key; [reflexivity..|]. cbn [key lex_lt]. lia.
    + rewrite (Heq H). destruct H as [-> ->]. split; symmetry.
      * apply FloatOrder.ltb_key_false; [reflexivity..|]. cbn [key lex_le]. lia.
      * apply FloatOrder.ltb_key_false; [reflexivity..|]. cbn [key lex_le]. lia.
Qed.

End FloatSub.

(** ** The summary of the selected country *)

Lemma filter_none {A : Type} (f : A -> bool) (l : list A) :
  (forall x, In x l -> f x = false) -> filter f l = [].
Proof.
  induction l as [|a l IH]; intros H; [reflexivity|]. cbn [filter].
  rewrite (H a (or_introl eq_refl)). apply IH. intros x Hx. apply H. right; exact Hx.
Qed.

Lemma filter_first {A : Type} (f : A -> bool) (before after : list A) (x : A) :
  (forall y, In y before -> f y = false) -> f x = true ->
  filter f (before ++ x :: after) = x :: filter f after.
Proof.
  intros Hb Hx. rewrite filter_app, (filter_none f before Hb). cbn [filter app].
  rewrite Hx. reflexivity.
Qed.

(** C5. A key that no record carries shows no metric at all, so never the
    triple of zeros; for the first record that carries the key, with two
    scores that are numbers, the metrics are its two scores and their
    float difference, Electric Twin minus Baseline; on scores of [0, 1]
    the difference is positive exactly when Electric Twin scored higher
    and negative exactly when it scored lower. *)
Theorem metrics_of_selected_country (delta_df : list DeltaRow)
  (selected_country : string) :
  ((forall r, In r delta_df -> country_clean_col r <> selected_country) ->
   metrics delta_df selected_country = None
   /\ metrics delta_df selected_country <> Some (zero, zero, zero))
  /\ (forall before r after,
        delta_df = before ++ r :: after ->
        (forall r', In r' before -> country_clean_col r' <> selected_country) ->
        country_clean_col r = selected_country ->
        isnan (mean_SJSD_ET r) = false ->
        isnan (mean_SJSD_Baseline r) = false ->
        let difference := (mean_SJSD_ET r - mean_SJSD_Baseline r)%float in
        metrics delta_df selected_country
        = Some (mean_SJSD_ET r, mean_SJSD_Baseline r, difference)
        /\ (is_score (mean_SJSD_ET r) -> is_score (mean_SJSD_Baseline r) ->
            (zero <? difference)%float
            = (mean_SJSD_Baseline r <? mean_SJSD_ET r)%float
            /\ (difference <? zero)%float
               = (mean_SJSD_ET r <? mean_SJSD_Baseline r)%float)).
Proof.
  split.
  - intros Hno.
    assert (E : select_delta delta_df selected_country = []).
    { apply filter_none. intros r Hr. apply String.eqb_neq, Hno, Hr. }
    unfold metrics, et_score, baseline_score. rewrite E. cbn.
    split; [reflexivity|discriminate].
  - intros before r after -> Hb Hr Het Hbl difference.
    assert (E : select_delta (before ++ r :: after) selected_country
                = r :: select_delta after selected_country).
    { apply filter_first.
      - intros y Hy. apply String.eqb_neq, Hb, Hy.
      - apply String.eqb_eq, Hr. }
    split.
    + unfold metrics, et_score, baseline_score. rewrite E, Het, Hbl. reflexivity.
    + apply FloatSub.sub_score_sign.
Qed.

Lemma metrics_of_selected_country_witness :
  metrics example_delta "Nonexistent" = None
  /\ metrics example_delta "France"
     = Some (f0_4, f0_90, (f0_4 - f0_90)%float)
  /\ ((f0_4 - f0_90) <? zero)%float = true.
Proof.
  split.
  - apply (metrics_of_selected_country example_delta "Nonexistent").
    intros r [<-|[<-|[]]]; cbn; discriminate.
  - assert (H : forall r',
                In r' [ {| country := "X (2021)"; country_clean_col := "X";
                           mean_SJSD_ET := lit 92 100;
                           mean_SJSD_Baseline := lit 88 100 |} ] ->
                country_clean_col r' <> "France")
      by (intros r' [<-|[]]; cbn; discriminate).
    destruct (proj2 (metrics_of_selected_country example_delta "France")
                [ {| country := "X (2021)"; country_clean_col := "X";
                     mean_SJSD_ET := lit 92 100; mean_SJSD_Baseline := lit 88 100 |} ]
                {| country := "France (2021)"; country_clean_col := "France";
                   mean_SJSD_ET := f0_4; mean_SJSD_Baseline := f0_90 |}
                [] eq_refl H eq_refl eq_refl eq_refl) as [Hm Hs].
    split; [exact Hm|].
    apply Hs; repeat split; reflexivity.
Defined.

(** ** The loop that builds [combined_scores] *)

Lemma lookup_in (col : string) (cells : list (string * float)) :
  In col (map fst cells) -> exists v, lookup col cells = Some v.
Proof.
  induction cells as [|[c v] cells IH]; cbn [map fst In lookup]; [intros []|].
  intros [E|Hin].
  - subst c. rewrite String.eqb_refl. eauto.
  - destruct (String.eqb c col); eauto.
Qed.

Lemma lookup_some_in (col : string) (cells : list (string * float)) (v : float) :
  lookup col cells = Some v -> In col (map fst cells).
Proof.
  induction cells as [|[c w] cells IH]; cbn [map fst In lookup]; [discriminate|].
  destruct (String.eqb_spec c col); auto.
Qed.

Lemma columns_question (r : QuestionRow) (col : string) :
  In col (columns r) -> in_list col ["Country"; "Country_clean"] = false ->
  In col (map fst (questions r)).
Proof.
  unfold columns. intros [E|Hin] Hid.
  - subst col. discriminate Hid.
  - apply in_app_or in Hin. destruct Hin as [Hin|[E|[]]]; [exact Hin|].
    subst col. discriminate Hid.
Qed.

(** When every question column met has a cell in both rows, the loop
    ends normally and appends the kept rows, column after column. *)
Lemma combined_scores_loop_ok (et_row baseline_row : QuestionRow) (cols : list string) :
  (forall col, In col cols -> in_list col ["Country"; "Country_clean"] = false ->
     In col (map fst (questions et_row))
     /\ In col (map fst (questions baseline_row))) ->
  forall acc,
    combined_scores_loop et_row baseline_row cols acc
    = Ok (acc ++ flat_map (kept_row et_row baseline_row) cols).
Proof.
  induction cols as [|col cols IH]; intros Hcols acc.
  - cbn. rewrite app_nil_r. reflexivity.
  - assert (Hrest : forall c, In c cols ->
              in_list c ["Country"; "Country_clean"] = false ->
              In c (map fst (questions et_row))
              /\ In c (map fst (questions baseline_row)))
      by (intros c Hc; apply Hcols; right; exact Hc).
    cbn [combined_scores_loop flat_map]. unfold kept_row at 1.
    destruct (in_list col ["Country"; "Country_clean"]) eqn:Hid; cbn [negb].
    + rewrite IH by exact Hrest. reflexivity.
    + destruct (Hcols col (or_introl eq_refl) Hid) as [He Hb].
      destruct (lookup_in _ _ He) as [e Ee], (lookup_in _ _ Hb) as [b Eb].
      unfold getitem. rewrite Ee, Eb. cbn [bind].
      destruct (both_scored e b).
      * rewrite IH by exact Hrest. rewrite <- app_assoc. reflexivity.
      * rewrite IH by exact Hrest. reflexivity.
Qed.

Lemma combined_scores_ok (et_row baseline_row : QuestionRow) :
  (forall col, In col (map fst (questions et_row)) ->
     In col (map fst (questions baseline_row))) ->
  combined_scores et_row baseline_row
  = Ok (flat_map (kept_row et_row baseline_row) (columns et_row)).
Proof.
  intros H. unfold combined_scores. rewrite combined_scores_loop_ok; [reflexivity|].
  intros col Hc Hid. pose proof (columns_question _ _ Hc Hid) as Hq. auto.
Qed.

Lemma in_kept_rows (et_row baseline_row : QuestionRow) (cols : list string)
  (row : ScoreRow) :
  In row (flat_map (kept_row et_row baseline_row) cols) <->
  exists col e b,
    In col cols /\ in_list col ["Country"; "Country_clean"] = false
    /\ lookup col (questions et_row) = Some e
    /\ lookup col (questions baseline_row) = Some b
    /\ both_scored e b = true /\ row = score_row col e b.
Proof.
  rewrite in_flat_map. split.
  - intros [col [Hc Hrow]]. unfold kept_row in Hrow.
    destruct (in_list col ["Country"; "Country_clean"]) eqn:Hid; [destruct Hrow|].
    destruct (lookup col (questions et_row)) as [e|] eqn:Ee; [|destruct Hrow].
    destruct (lookup col (questions baseline_row)) as [b|] eqn:Eb; [|destruct Hrow].
    destruct (both_scored e b) eqn:Hs; [|destruct Hrow].
    destruct Hrow as [<-|[]]. exists col, e, b. auto 10.
  - intros [col [e [b [Hc [Hid [Ee [Eb [Hs ->]]]]]]]].
    exists col. split; [exact Hc|]. unfold kept_row.
    rewrite Hid, Ee, Eb, Hs. left; reflexivity.
Qed.

Lemma both_scored_iff (e b : float) :
  both_scored e b = true <->
  isnan e = false /\ isnan b = false
  /\ (e ==? zero)%float = false /\ (b ==? zero)%float = false.
Proof.
  unfold both_scored, notna, neb, eqb. rewrite !andb_true_iff, !negb_true_iff.
  tauto.
Qed.

(** The example of the specification: of the three questions only [q1]
    is kept, with the difference of its two scores. *)
Example combined_scores_example :
  combined_scores example_et example_baseline
  = Ok [ {| Question := "q1"; Electric_Twin := lit 9 10; Baseline := lit 7 10;
            Difference := (lit 9 10 - lit 7 10)%float |} ].
Proof. reflexivity. Qed.

(** ** The detail section *)

(** A loop that ends normally has appended the kept rows. *)
Lemma combined_scores_loop_inv (et_row baseline_row : QuestionRow) (cols : list string) :
  forall acc records,
    combined_scores_loop et_row baseline_row cols acc = Ok records ->
    records = acc ++ flat_map (kept_row et_row baseline_row) cols.
Proof.
  induction cols as [|col cols IH]; intros acc records.
  - cbn. rewrite app_nil_r. congruence.
  - cbn [combined_scores_loop flat_map]. unfold kept_row at 1.
    destruct (in_list col ["Country"; "Country_clean"]); cbn [negb];
      [apply IH|].
    unfold getitem.
    destruct (lookup col (questions et_row)) as [e|]; [|discriminate].
    destruct (lookup col (questions baseline_row)) as [b|]; [|discriminate].
    cbn [bind]. destruct (both_scored e b); intros H; apply IH in H.
    + rewrite <- app_assoc in H. exact H.
    + exact H.
Qed.

Lemma combined_scores_inv (et_row baseline_row : QuestionRow) (records : list ScoreRow) :
  combined_scores et_row baseline_row = Ok records ->
  records = flat_map (kept_row et_row baseline_row) (columns et_row).
Proof. intros H. apply combined_scores_loop_inv in H. exact H. Qed.

Lemma combined_scores_notna (et_row baseline_row : QuestionRow) (records : list ScoreRow) :
  combined_scores et_row baseline_row = Ok records ->
  forall r, In r records -> isnan (Electric_Twin r) = false.
Proof.
  intros H r Hr. rewrite (combined_scores_inv _ _ _ H) in Hr.
  apply in_kept_rows in Hr.
  destruct Hr as [col [e [b [_ [_ [_ [_ [Hs ->]]]]]]]].
  apply both_scored_iff in Hs. apply Hs.
Qed.

(** The section once both records are found and the loop has ended: an
    empty [combined_scores] makes [sort_values] raise, any other is
    sorted and rounded. *)
Lemma country_detail_found (sort_desc : list ScoreRow -> list ScoreRow)
  (round4 : float -> float) (et_df baseline_df : list QuestionRow)
  (selected_country : string) (et_row baseline_row : QuestionRow)
  (et_rest baseline_rest : list QuestionRow) (records : list ScoreRow) :
  select_rows et_df selected_country = et_row :: et_rest ->
  select_rows baseline_df selected_country = baseline_row :: baseline_rest ->
  combined_scores et_row baseline_row = Ok records ->
  country_detail sort_desc round4 et_df baseline_df selected_country
  = match records with
    | [] => Raise (KeyError "Electric Twin")
    | _ :: _ =>
        Ok (Dataframe
              {| df_columns := ["Question"; "Electric Twin"; "Baseline"; "Difference"];
                 df_rows := map (round_row round4) (sort_desc records) |})
    end.
Proof.
  intros Eet Ebl Erec. unfold country_detail. rewrite Eet, Ebl, Erec.
  destruct records; reflexivity.
Qed.

(** C7. A key that no row of the Electric Twin table carries, or no row
    of the Baseline table, ends the section normally with the notice that
    no question-level data is available; with the guard of the section,
    the empty key shows nothing at all.  Neither raises. *)
Theorem country_detail_no_data (sort_desc : list ScoreRow -> list ScoreRow)
  (round4 : float -> float) (et_df baseline_df : list QuestionRow)
  (selected_country : string) :
  (forall r, In r et_df -> Country_clean r <> selected_country)
  \/ (forall r, In r baseline_df -> Country_clean r <> selected_country) ->
  country_detail sort_desc round4 et_df baseline_df selected_country
  = Ok NoQuestionData
  /\ detail_section sort_desc round4 et_df baseline_df selected_country
     = Ok (if String.eqb selected_country "" then None else Some NoQuestionData).
Proof.
  intros Habs.
  assert (E : country_detail sort_desc round4 et_df baseline_df selected_country
              = Ok NoQuestionData).
  { unfold country_detail. destruct Habs as [Habs|Habs].
    - replace (select_rows et_df selected_country) with (@nil QuestionRow);
        [reflexivity|].
      symmetry. apply filter_none. intros r Hr. apply String.eqb_neq, Habs, Hr.
    - replace (select_rows baseline_df selected_country) with (@nil QuestionRow);
        [destruct (select_rows et_df selected_country); reflexivity|].
      symmetry. apply filter_none. intros r Hr. apply String.eqb_neq, Habs, Hr. }
  split; [exact E|]. unfold detail_section. rewrite E.
  destruct (String.eqb selected_country ""); reflexivity.
Qed.

Lemma country_detail_no_data_witness :
  country_detail stable_sort_desc np_round4 [example_et] [example_baseline] "Nonexistent"
  = Ok NoQuestionData
  /\ detail_section stable_sort_desc np_round4 [example_et] [example_baseline] "Nonexistent"
     = Ok (Some NoQuestionData).
Proof.
  apply (country_detail_no_data stable_sort_desc np_round4
           [example_et] [example_baseline] "Nonexistent").
  left. intros r [<-|[]]. cbn. discriminate.
Defined.

(** With both records found and every pair of cells excluded by the
    guard, the frame built from the empty list has no column, and
    [sort_values] raises KeyError. *)
Lemma country_detail_raises_without_rows (sort_desc : list ScoreRow -> list ScoreRow)
  (round4 : float -> float) (et_df baseline_df : list QuestionRow)
  (selected_country : string) (et_row baseline_row : QuestionRow)
  (et_rest baseline_rest : list QuestionRow) :
  select_rows et_df selected_country = et_row :: et_rest ->
  select_rows baseline_df selected_country = baseline_row :: baseline_rest ->
  combined_scores et_row baseline_row = Ok [] ->
  country_detail sort_desc round4 et_df baseline_df selected_country
  = Raise (KeyError "Electric Twin").
Proof. intros Eet Ebl Erec. rewrite (country_detail_found sort_desc round4 _ _ _ _ _ _ _ _ Eet Ebl Erec). reflexivity. Qed.

(** C9. The record of country [Y] is present in both tables and all its
    cells are zero or missing: the section does not yield an empty table,
    it raises KeyError, whatever the sort and the rounding do. *)
Theorem country_detail_unevaluated_raises
  (sort_desc : list ScoreRow -> list ScoreRow) (round4 : float -> float) :
  select_rows [unevaluated_et] "Y" = [unevaluated_et]
  /\ select_rows [unevaluated_baseline] "Y" = [unevaluated_baseline]
  /\ combined_scores unevaluated_et unevaluated_baseline = Ok []
  /\ country_detail sort_desc round4 [unevaluated_et] [unevaluated_baseline] "Y"
     = Raise (KeyError "Electric Twin")
  /\ detail_section sort_desc round4 [unevaluated_et] [unevaluated_baseline] "Y"
     = Raise (KeyError "Electric Twin").
Proof. repeat split; reflexivity. Qed.

(** ** Sorting by descending score *)

Section InsertionSort.

Variable stays_before : ScoreRow -> ScoreRow -> bool.

(** The two tests of the instances compare the scores: a row kept ahead
    has a score at least as great, and a row passed has one at most as
    great. *)
Hypothesis stays_before_ge :
  forall r' r, stays_before r' r = true -> score_ge r' r.
Hypothesis passed_ge :
  forall r' r, isnan (Electric_Twin r') = false -> isnan (Electric_Twin r) = false ->
    stays_before r' r = false -> score_ge r r'.

Lemma insert_by_perm (r : ScoreRow) (l : list ScoreRow) :
  Permutation (r :: l) (insert_by stays_before r l).
Proof.
  induction l as [|r' l IH]; cbn [insert_by]; [apply Permutation_refl|].
  destruct (stays_before r' r); [|apply Permutation_refl].
  eapply Permutation_trans; [apply perm_swap|]. apply perm_skip, IH.
Qed.

Lemma sort_by_perm (l : list ScoreRow) : Permutation l (sort_by stays_before l).
Proof.
  induction l as [|r l IH]; [apply perm_nil|]. unfold sort_by. cbn [fold_right].
  eapply Permutation_trans; [apply perm_skip, IH|]. apply insert_by_perm.
Qed.

Lemma insert_by_sorted (r : ScoreRow) (l : list ScoreRow) :
  isnan (Electric_Twin r) = false ->
  (forall x, In x l -> isnan (Electric_Twin x) = false) ->
  StronglySorted score_ge l ->
  StronglySorted score_ge (insert_by stays_before r l).
Proof.
  intros Hr. induction l as [|r' l IH]; intros Hn Hs; cbn [insert_by].
  - constructor; constructor.
  - inversion Hs as [|? ? Hs' Hall]; subst.
    assert (Hr' : isnan (Electric_Twin r') = false)
      by (apply Hn; left; reflexivity).
    destruct (stays_before r' r) eqn:E.
    + constructor.
      * apply IH; [|exact Hs']. intros x Hx. apply Hn. right; exact Hx.
      * eapply Permutation_Forall; [apply insert_by_perm|].
        constructor; [apply stays_before_ge; exact E|exact Hall].
    + constructor; [exact Hs|].
      pose proof (passed_ge r' r Hr' Hr E) as Hge.
      constructor; [exact Hge|].
      rewrite Forall_forall in Hall |- *. intros x Hx.
      unfold score_ge, geb in *. eapply FloatOrder.leb_trans; [apply Hall, Hx|exact Hge].
Qed.

Lemma sort_by_contract : sort_contract (sort_by stays_before).
Proof.
  intros l Hn. split; [apply sort_by_perm|].
  induction l as [|r l IH]; [constructor|]. unfold sort_by. cbn [fold_right].
  apply insert_by_sorted.
  - apply Hn. left; reflexivity.
  - intros x Hx. apply Hn. right.
    eapply Permutation_in; [apply Permutation_sym, sort_by_perm|exact Hx].
  - apply IH. intros x Hx. apply Hn. right; exact Hx.
Qed.

End InsertionSort.

Lemma stable_sort_desc_contract : sort_contract stable_sort_desc.
Proof.
  apply sort_by_contract.
  - intros r' r H. unfold score_ge, geb. unfold gtb in H.
    destruct (FloatOrder.ltb_notna _ _ H) as [Hr Hr'].
    apply FloatOrder.leb_key; auto. apply FloatOrder.ltb_key in H; auto.
    destruct (key (Electric_Twin r)) as [[a1 a2] a3],
      (key (Electric_Twin r')) as [[b1 b2] b3]; cbn [lex_le lex_lt] in *; lia.
  - intros r' r Hr' Hr H. unfold score_ge, geb. unfold gtb in H.
    apply FloatOrder.leb_key; auto. apply FloatOrder.ltb_key_false in H; auto.
Qed.

(** ** The table that is shown *)

(** The example of the specification, with the rounding of numpy: the
    single row [(q1, 0.9, 0.7, 0.2)]. *)
Example country_detail_example :
  country_detail stable_sort_desc np_round4 [example_et] [example_baseline] "X"
  = Ok (Dataframe
          {| df_columns := ["Question"; "Electric Twin"; "Baseline"; "Difference"];
             df_rows := [ {| Question := "q1"; Electric_Twin := lit 9 10;
                             Baseline := lit 7 10; Difference := lit 2 10 |} ] |}).
Proof. vm_compute. reflexivity. Qed.

(** ** The cleaner of country labels *)

Lemma length_append (a b : string) :
  String.length (a ++ b) = (String.length a + String.length b)%nat.
Proof. induction a as [|c a IH]; cbn; [reflexivity|]. rewrite IH. reflexivity. Qed.

Lemma append_assoc (a b c : string) : ((a ++ b) ++ c = a ++ (b ++ c))%string.
Proof. induction a as [|x a IH]; cbn; [reflexivity|]. rewrite IH. reflexivity. Qed.

Lemma append_nil_r (a : string) : (a ++ "" = a)%string.
Proof. induction a as [|x a IH]; cbn; [reflexivity|]. rewrite IH. reflexivity. Qed.

Lemma chars_append (a b : string) :
  list_ascii_of_string (a ++ b)
  = (list_ascii_of_string a ++ list_ascii_of_string b)%list.
Proof. induction a as [|x a IH]; cbn; [reflexivity|]. rewrite IH. reflexivity. Qed.

Lemma chars_inj (a b : string) :
  list_ascii_of_string a = list_ascii_of_string b -> a = b.
Proof.
  intros H. rewrite <- (string_of_list_ascii_of_string a),
    <- (string_of_list_ascii_of_string b), H. reflexivity.
Qed.

Lemma space_not_paren (c : ascii) :
  Re.is_space c = true -> Re.is_char "(" c = false.
Proof.
  unfold Re.is_char. destruct (Ascii.eqb_spec c "(") as [->|]; [|reflexivity].
  discriminate.
Qed.

Lemma at_end_cases (r : string) :
  Re.at_end r = true <-> r = EmptyString \/ r = newline.
Proof.
  unfold newline. split.
  - destruct r as [|c [|d r]]; cbn; auto; [|discriminate].
    intros H. apply Ascii.eqb_eq in H. subst c. auto.
  - intros [->| ->]; reflexivity.
Qed.

(** After the star has given back all it took, the rest of the pattern
    reads a year and the end. *)
Lemma match_here_year (s : string) :
  Re.match_here (tl year_suffix) s = year_here s.
Proof.
  unfold year_suffix, year_here. cbn [tl Re.match_here].
  destruct s as [|o [|d1 [|d2 [|d3 [|d4 [|c r]]]]]];
    repeat match goal with
    | |- context [if ?b then _ else _] => destruct b; cbn [andb]
    end; reflexivity.
Qed.

(** The greedy star takes all the leading white space: giving some back
    would leave a white space where the parenthesis is expected. *)
Lemma match_here_lstrip (s : string) :
  Re.match_here year_suffix s = year_here (lstrip s).
Proof.
  change (Re.match_here year_suffix s)
    with (Re.star Re.is_space (Re.match_here (tl year_suffix)) s).
  induction s as [|c s IH]; cbn [Re.star lstrip].
  - apply match_here_year.
  - destruct (Re.is_space c) eqn:Hc; [|apply match_here_year].
    rewrite IH. destruct (year_here (lstrip s)); [reflexivity|].
    rewrite match_here_year. unfold year_here.
    destruct s as [|d1 [|d2 [|d3 [|d4 [|c' r]]]]]; try reflexivity.
    rewrite (space_not_paren c Hc). reflexivity.
Qed.

Lemma lstrip_split (s : string) :
  exists ws, all_space ws = true /\ s = (ws ++ lstrip s)%string.
Proof.
  induction s as [|c s [ws [Hws E]]]; [exists ""; auto|]. cbn [lstrip].
  destruct (Re.is_space c) eqn:Hc.
  - exists (String c ws). cbn. rewrite Hc, Hws, <- E. auto.
  - exists "". auto.
Qed.

Lemma lstrip_spaces (ws t : string) :
  all_space ws = true -> lstrip (ws ++ t) = lstrip t.
Proof.
  induction ws as [|c ws IH]; cbn; [reflexivity|].
  intros H. apply andb_prop in H. destruct H as [Hc Hws].
  rewrite Hc. auto.
Qed.

Lemma year_here_spec (s r : string) :
  year_here s = Some r <->
  exists d1 d2 d3 d4,
    Re.is_digit d1 = true /\ Re.is_digit d2 = true /\ Re.is_digit d3 = true
    /\ Re.is_digit d4 = true /\ s = (year d1 d2 d3 d4 ++ r)%string
    /\ (r = EmptyString \/ r = newline).
Proof.
  unfold year_here, year. split.
  - destruct s as [|o [|d1 [|d2 [|d3 [|d4 [|c r']]]]]]; try discriminate.
    destruct (Re.is_char "(" o && Re.is_digit d1 && Re.is_digit d2
              && Re.is_digit d3 && Re.is_digit d4 && Re.is_char ")" c
              && Re.at_end r')%bool eqn:E; [|discriminate].
    intros H. injection H as ->.
    repeat (apply andb_prop in E; destruct E as [E ?]).
    unfold Re.is_char in *.
    apply Ascii.eqb_eq in E. subst o.
    match goal with H : Ascii.eqb c ")" = true |- _ => apply Ascii.eqb_eq in H; subst c end.
    exists d1, d2, d3, d4. cbn. rewrite <- at_end_cases. auto 10.
  - intros [d1 [d2 [d3 [d4 [H1 [H2 [H3 [H4 [-> Hr]]]]]]]]].
    apply at_end_cases in Hr. cbn. rewrite H1, H2, H3, H4, Hr. reflexivity.
Qed.

(** Where the pattern matches: at white space followed by a year that
    ends the string or stands before its final newline. *)
Lemma match_here_spec (s r : string) :
  Re.match_here year_suffix s = Some r <->
  exists ws d1 d2 d3 d4,
    all_space ws = true
    /\ Re.is_digit d1 = true /\ Re.is_digit d2 = true /\ Re.is_digit d3 = true
    /\ Re.is_digit d4 = true
    /\ s = (ws ++ year d1 d2 d3 d4 ++ r)%string
    /\ (r = EmptyString \/ r = newline).
Proof.
  rewrite match_here_lstrip, year_here_spec. split.
  - intros [d1 [d2 [d3 [d4 [H1 [H2 [H3 [H4 [E Hr]]]]]]]]].
    destruct (lstrip_split s) as [ws [Hws Es]].
    exists ws, d1, d2, d3, d4. rewrite <- E. auto 10.
  - intros [ws [d1 [d2 [d3 [d4 [Hws [H1 [H2 [H3 [H4 [-> Hr]]]]]]]]]]].
    exists d1, d2, d3, d4. rewrite (lstrip_spaces _ _ Hws). cbn. auto 10.
Qed.

Lemma sub_from_skip (re : Re.pattern) (a b : string) :
  Re.sub_from re (String.length a) (a ++ b) = Re.sub_from re 0 b.
Proof. induction a as [|c a IH]; cbn; [destruct b; reflexivity|exact IH]. Qed.

(** A match that is not empty is dropped, and the scan goes on after
    it. *)
Lemma sub_from_match (re : Re.pattern) (a r : string) :
  a <> EmptyString ->
  Re.match_here re (a ++ r) = Some r ->
  Re.sub_from re 0 (a ++ r) = Re.sub_from re 0 r.
Proof.
  destruct a as [|c a]; [congruence|]. intros _ Hm.
  cbn [append] in *. cbn [Re.sub_from]. rewrite Hm.
  replace (String.length (String c (a ++ r)) - String.length r)%nat
    with (S (String.length a)).
  - apply sub_from_skip.
  - cbn [String.length]. rewrite length_append. lia.
Qed.

(** Where no suffix matches, nothing is dropped. *)
Lemma sub_from_no_match (re : Re.pattern) (s : string) :
  (forall a t, s = (a ++ t)%string -> Re.match_here re t = None) ->
  Re.sub_from re 0 s = s.
Proof.
  induction s as [|c s IH]; intros H; [reflexivity|]. cbn [Re.sub_from].
  rewrite (H EmptyString (String c s) eq_refl). f_equal. apply IH.
  intros a t E. apply (H (String c a) t). cbn. rewrite E. reflexivity.
Qed.

Lemma sub_from_end (r : string) :
  r = EmptyString \/ r = newline -> Re.sub_from year_suffix 0 r = r.
Proof. intros [->| ->]; reflexivity. Qed.

Lemma all_space_append (a b : string) :
  all_space (a ++ b) = all_space a && all_space b.
Proof.
  induction a as [|c a IH]; cbn; [reflexivity|]. rewrite IH, andb_assoc. reflexivity.
Qed.

Lemma all_space_ends (p : string) :
  p <> EmptyString -> all_space p = true -> ends_with_space p = true.
Proof.
  induction p as [|c p IH]; [congruence|]. intros _ H. cbn in H.
  apply andb_prop in H. destruct H as [Hc Hp].
  destruct p as [|d p]; [exact Hc|]. apply IH; [discriminate|exact Hp].
Qed.

(** Two readings of one string as text, year, end have the same text. *)
Lemma year_suffix_unique (a b r r' : string) (d1 d2 d3 d4 e1 e2 e3 e4 : ascii) :
  r = EmptyString \/ r = newline -> r' = EmptyString \/ r' = newline ->
  (a ++ year d1 d2 d3 d4 ++ r = b ++ year e1 e2 e3 e4 ++ r')%string ->
  a = b /\ r = r'.
Proof.
  intros Hr Hr' E. apply (f_equal list_ascii_of_string) in E.
  rewrite !chars_append in E. apply (f_equal (@rev ascii)) in E.
  rewrite !rev_app_distr in E.
  destruct Hr as [->| ->], Hr' as [->| ->]; cbn in E;
    try discriminate E; injection E as E; split; try reflexivity;
    apply chars_inj; rewrite <- (rev_involutive (list_ascii_of_string a)),
      <- (rev_involutive (list_ascii_of_string b)); congruence.
Qed.

(** Inside a text that does not end with white space, the pattern does
    not match. *)
Lemma no_match_inside (p ws r : string) (d1 d2 d3 d4 : ascii) :
  p <> EmptyString -> ends_with_space p = false ->
  r = EmptyString \/ r = newline ->
  Re.match_here year_suffix (p ++ ws ++ year d1 d2 d3 d4 ++ r) = None.
Proof.
  intros Hp Hends Hr.
  destruct (Re.match_here year_suffix (p ++ ws ++ year d1 d2 d3 d4 ++ r))
    as [r'|] eqn:Hm; [exfalso|reflexivity].
  apply match_here_spec in Hm.
  destruct Hm as [ws' [e1 [e2 [e3 [e4 [Hws' [_ [_ [_ [_ [E Hr']]]]]]]]]]].
  rewrite <- (append_assoc p ws) in E.
  destruct (year_suffix_unique _ _ _ _ _ _ _ _ _ _ _ _ Hr Hr' E) as [Eq _].
  rewrite <- Eq, all_space_append in Hws'. apply andb_prop in Hws'.
  rewrite (all_space_ends p Hp (proj1 Hws')) in Hends. discriminate.
Qed.

Lemma ends_with_space_tail (c : ascii) (p : string) :
  ends_with_space (String c p) = false -> ends_with_space p = false.
Proof. destruct p as [|d p]; [reflexivity|]. cbn. auto. Qed.

(** C4. The cleaner removes white space of any length followed by a year
    in parentheses, when the year ends the label or stands before its
    final newline, and leaves the text before it and the newline; a
    label that does not end so is returned as it is. *)
Theorem country_clean_strips_year :
  (forall p ws d1 d2 d3 d4 nl,
      ends_with_space p = false -> all_space ws = true ->
      Re.is_digit d1 = true -> Re.is_digit d2 = true ->
      Re.is_digit d3 = true -> Re.is_digit d4 = true ->
      nl = EmptyString \/ nl = newline ->
      country_clean (p ++ ws ++ year d1 d2 d3 d4 ++ nl) = (p ++ nl)%string)
  /\ (forall s,
        (forall p d1 d2 d3 d4 nl,
            Re.is_digit d1 = true -> Re.is_digit d2 = true ->
            Re.is_digit d3 = true -> Re.is_digit d4 = true ->
            nl = EmptyString \/ nl = newline ->
            s <> (p ++ year d1 d2 d3 d4 ++ nl)%string) ->
        country_clean s = s)
  /\ country_clean "France (2021)" = "France"
  /\ country_clean "United States" = "United States".
Proof.
  split; [|split; [|split; reflexivity]].
  - intros p ws d1 d2 d3 d4 nl Hp Hws H1 H2 H3 H4 Hnl. unfold country_clean, Re.sub.
    induction p as [|c p IH].
    + cbn [append]. rewrite <- append_assoc.
      rewrite sub_from_match.
      * apply sub_from_end, Hnl.
      * destruct ws; discriminate.
      * rewrite append_assoc. apply match_here_spec.
        exists ws, d1, d2, d3, d4. auto 10.
    + cbn [append Re.sub_from].
      change (String c (p ++ ws ++ year d1 d2 d3 d4 ++ nl))
        with (String c p ++ ws ++ year d1 d2 d3 d4 ++ nl)%string.
      rewrite no_match_inside by (auto; discriminate).
      f_equal. apply IH. apply (ends_with_space_tail c p Hp).
  - intros s Hs. unfold country_clean, Re.sub. apply sub_from_no_match.
    intros a t E.
    destruct (Re.match_here year_suffix t) as [r|] eqn:Hm; [exfalso|reflexivity].
    apply match_here_spec in Hm.
    destruct Hm as [ws [d1 [d2 [d3 [d4 [_ [H1 [H2 [H3 [H4 [Et Hr]]]]]]]]]]].
    apply (Hs (a ++ ws)%string d1 d2 d3 d4 r H1 H2 H3 H4 Hr).
    rewrite E, Et, append_assoc. reflexivity.
Qed.

Lemma country_clean_strips_year_witness :
  country_clean "United States   (1999)" = "United States"
  /\ country_clean "Utopia" = "Utopia".
Proof.
  split.
  - apply (proj1 country_clean_strips_year "United States" "   "
             "1"%char "9"%char "9"%char "9"%char "");
      try reflexivity. left; reflexivity.
  - apply (proj1 (proj2 country_clean_strips_year) "Utopia").
    intros p d1 d2 d3 d4 nl _ _ _ _ Hnl E.
    apply (f_equal list_ascii_of_string) in E. rewrite !chars_append in E.
    apply (f_equal (@rev ascii)) in E. rewrite !rev_app_distr in E.
    destruct Hnl as [->| ->]; cbn in E; discriminate E.
Defined.

(** C4, as the claim words it.  With two spaces before the year the
    cleaner removes both, where removing one optional space leaves the
    other; and a year followed by a final newline is removed, where the
    claim finds no year at the end of the string. *)
Lemma country_clean_differs_from_normalize_spec :
  country_clean "France  (2021)" = "France"
  /\ normalize_spec "France  (2021)" = "France "
  /\ country_clean ("France (2021)" ++ newline) = ("France" ++ newline)%string
  /\ normalize_spec ("France (2021)" ++ newline) = ("France (2021)" ++ newline)%string
  /\ ~ (forall s, country_clean s = normalize_spec s).
Proof.
  repeat split; try reflexivity.
  intros H. specialize (H "France  (2021)"). discriminate H.
Qed.

(** ** Remarks on the library operations *)


(** A question column of the Electric Twin record that the Baseline
    record lacks makes the loop raise KeyError. *)
Lemma combined_scores_loop_missing_column (et_row baseline_row : QuestionRow)
  (cols : list string) :
  (forall c, In c cols -> in_list c ["Country"; "Country_clean"] = false ->
     In c (map fst (questions et_row))) ->
  (exists c, In c cols /\ in_list c ["Country"; "Country_clean"] = false
             /\ lookup c (questions baseline_row) = None) ->
  forall acc, exists c,
    combined_scores_loop et_row baseline_row cols acc = Raise (KeyError c)
    /\ lookup c (questions baseline_row) = None.
Proof.
  induction cols as [|col cols IH]; intros Het [c [Hc [Hid Hnone]]] acc;
    [destruct Hc|].
  assert (Het' : forall c, In c cols ->
            in_list c ["Country"; "Country_clean"] = false ->
            In c (map fst (questions et_row)))
    by (intros c' Hc'; apply Het; right; exact Hc').
  cbn [combined_scores_loop].
  destruct (in_list col ["Country"; "Country_clean"]) eqn:Hcol; cbn [negb].
  - apply IH; [exact Het'|]. destruct Hc as [->|Hc]; [congruence|]. eauto.
  - destruct (lookup_in _ _ (Het col (or_introl eq_refl) Hcol)) as [e Ee].
    unfold getitem. rewrite Ee. cbn [bind].
    destruct (lookup col (questions baseline_row)) as [b|] eqn:Eb; cbn [bind].
    + destruct Hc as [->|Hc]; [congruence|].
      destruct (both_scored e b); apply IH; eauto.
    + exists col. auto.
Qed.

Lemma combined_scores_missing_column (et_row baseline_row : QuestionRow) (col : string) :
  In col (map fst (questions et_row)) ->
  in_list col ["Country"; "Country_clean"] = false ->
  lookup col (questions baseline_row) = None ->
  exists c,
    combined_scores et_row baseline_row = Raise (KeyError c)
    /\ lookup c (questions baseline_row) = None.
Proof.
  intros Hin Hid Hnone. apply combined_scores_loop_missing_column.
  - intros c Hc Hc'. apply columns_question; assumption.
  - exists col. split; [|auto]. unfold columns. right. apply in_or_app. left; exact Hin.
Qed.

(** ** The examples of the specification *)

(** The record [X] with scores 0.92 and 0.88: the difference is 0.04
    within the rounding of floats, and 0.04 once rounded. *)
Example metrics_example :
  metrics example_delta "X"
  = Some (lit 92 100, lit 88 100, S754_finite false 5764607523034240 (-57))
  /\ np_round4 (S754_finite false 5764607523034240 (-57)) = lit 4 100.
Proof. split; vm_compute; reflexivity. Qed.

(** Scores all within [0.85, 0.93] leave the bounds at 0.5 and 1.0. *)
Example legend_bounds_example :
  let delta_df :=
    [ {| country := "A"; country_clean_col := "A";
         mean_SJSD_ET := f0_85; mean_SJSD_Baseline := lit 93 100 |};
      {| country := "B"; country_clean_col := "B";
         mean_SJSD_ET := lit 93 100; mean_SJSD_Baseline := f0_90 |} ] in
  min_val "Electric Twin" delta_df = f0_5
  /\ max_val "Electric Twin" delta_df = f1_0
  /\ min_val "Baseline" delta_df = f0_5
  /\ max_val "Baseline" delta_df = f1_0.
Proof. repeat split; vm_compute; reflexivity. Qed.

(** ** The argsort of numpy sorts

    For every comparison that is a strict weak order, the introsort
    returns a permutation of the indices in ascending order, and up to 17
    indices it leaves those of equal key in their order. *)

Module NpSort.

Import np.

Section Order.

Variable less : nat -> nat -> bool.
Hypothesis less_irrefl : forall x, less x x = false.
Hypothesis less_trans :
  forall x y z, less x y = true -> less y z = true -> less x z = true.
Hypothesis less_incomparable :
  forall x y z, less x y = false -> less y z = false -> less x z = false.

Local Abbreviation le := (np.le less).
Local Abbreviation heap := (np.heap less).

Lemma le_refl x : le x x.
Proof. apply less_irrefl. Qed.

Lemma le_trans x y z : le x y -> le y z -> le x z.
Proof. unfold np.le. intros H1 H2. apply (less_incomparable z y x); assumption. Qed.

Lemma less_le x y : less x y = true -> le x y.
Proof.
  unfold np.le. intros H. destruct (less y x) eqn:E; [|reflexivity].
  rewrite <- (less_irrefl x). symmetry. apply (less_trans x y x); assumption.
Qed.

(** *** Lists read as arrays *)

Lemma length_set_at i x s : List.length (set_at i x s) = List.length s.
Proof.
  revert i. induction s as [|y s IH]; intros [|i]; cbn; auto.
Qed.

Lemma at_set_at_eq i x s : (i < List.length s)%nat -> at_ (set_at i x s) i = x.
Proof.
  unfold at_. revert i. induction s as [|y s IH]; intros [|i] H; cbn in *;
    try lia; auto. apply IH. lia.
Qed.

Lemma at_set_at_neq i j x s : i <> j -> at_ (set_at i x s) j = at_ s j.
Proof.
  unfold at_. revert i j. induction s as [|y s IH]; intros [|i] [|j] H; cbn;
    try reflexivity; try congruence. apply IH. congruence.
Qed.

Lemma set_at_perm i x s :
  (i < List.length s)%nat -> Permutation (at_ s i :: set_at i x s) (x :: s).
Proof.
  unfold at_. revert i. induction s as [|y s IH]; intros [|i] H; cbn in *; try lia.
  - apply perm_swap.
  - eapply Permutation_trans; [apply perm_swap|].
    eapply Permutation_trans; [apply perm_skip, IH; lia|]. apply perm_swap.
Qed.

Lemma length_swap i j s : List.length (swap i j s) = List.length s.
Proof. unfold swap. rewrite !length_set_at. reflexivity. Qed.

Lemma swap_perm i j s :
  (i < List.length s)%nat -> (j < List.length s)%nat -> Permutation (swap i j s) s.
Proof.
  intros Hi Hj. unfold swap.
  set (s1 := set_at i (at_ s j) s).
  assert (H1 : Permutation (at_ s i :: s1) (at_ s j :: s)) by (apply set_at_perm, Hi).
  assert (H2 : Permutation (at_ s1 j :: set_at j (at_ s i) s1) (at_ s i :: s1)).
  { apply set_at_perm. unfold s1. rewrite length_set_at. exact Hj. }
  assert (E : at_ s1 j = at_ s j).
  { unfold s1. destruct (Nat.eq_dec i j) as [->|Hne].
    - apply at_set_at_eq, Hj.
    - apply at_set_at_neq, Hne. }
  rewrite E in H2. eapply Permutation_cons_inv.
  eapply Permutation_trans; [exact H2|exact H1].
Qed.

Lemma at_swap_l i j s :
  (i < List.length s)%nat -> (j < List.length s)%nat -> at_ (swap i j s) i = at_ s j.
Proof.
  intros Hi Hj. unfold swap. destruct (Nat.eq_dec j i) as [->|Hne].
  - apply at_set_at_eq. rewrite length_set_at. exact Hi.
  - rewrite at_set_at_neq by exact Hne. apply at_set_at_eq, Hi.
Qed.

Lemma at_swap_r i j s :
  (i < List.length s)%nat -> (j < List.length s)%nat -> at_ (swap i j s) j = at_ s i.
Proof.
  intros Hi Hj. unfold swap. apply at_set_at_eq. rewrite length_set_at. exact Hj.
Qed.

Lemma at_swap_other i j k s : k <> i -> k <> j -> at_ (swap i j s) k = at_ s k.
Proof.
  intros Hi Hj. unfold swap. rewrite !at_set_at_neq by congruence. reflexivity.
Qed.

Lemma at_in i s : (i < List.length s)%nat -> In (at_ s i) s.
Proof. intros H. apply nth_In, H. Qed.

Lemma in_at x s : In x s -> exists i, (i < List.length s)%nat /\ at_ s i = x.
Proof. intros H. destruct (In_nth s x 0%nat H) as [i [Hi E]]. exists i. auto. Qed.

Lemma at_firstn i k s : (i < k)%nat -> at_ (firstn k s) i = at_ s i.
Proof.
  unfold at_. revert i k. induction s as [|y s IH]; intros i k H.
  - rewrite firstn_nil. reflexivity.
  - destruct k as [|k]; [lia|]. destruct i as [|i]; cbn; [reflexivity|].
    apply IH. lia.
Qed.

Lemma at_skipn i k s : at_ (skipn k s) i = at_ s (k + i).
Proof.
  unfold at_. revert k. induction s as [|y s IH]; intros k.
  - assert (N : forall j, nth j (@nil nat) 0%nat = 0%nat) by (intros [|j]; reflexivity).
    rewrite skipn_nil, !N. reflexivity.
  - destruct k as [|k]; cbn; [reflexivity|]. apply IH.
Qed.

Lemma split_at i s :
  (i < List.length s)%nat -> s = firstn i s ++ at_ s i :: skipn (S i) s.
Proof.
  unfold at_. revert i. induction s as [|y s IH]; intros [|i] H; cbn in *;
    try lia; [reflexivity|]. f_equal. apply IH. lia.
Qed.

(** *** Sorted lists *)

Lemma sorted_app l1 l2 :
  StronglySorted le (l1 ++ l2) <->
  StronglySorted le l1 /\ StronglySorted le l2
  /\ forall a b, In a l1 -> In b l2 -> le a b.
Proof.
  induction l1 as [|x l1 IH]; cbn [app].
  - split; [intros H; split; [constructor|split; [exact H|intros a b []]]|tauto].
  - split.
    + intros H. inversion H as [|? ? Hs Hall]; subst. apply IH in Hs.
      destruct Hs as [H1 [H2 H12]]. rewrite Forall_forall in Hall.
      split; [constructor; [exact H1|]|split; [exact H2|]].
      * apply Forall_forall. intros y Hy. apply Hall, in_or_app. auto.
      * intros a b [<-|Ha] Hb; [apply Hall, in_or_app; auto|auto].
    + intros [H1 [H2 H12]]. inversion H1 as [|? ? Hs Hall]; subst.
      rewrite Forall_forall in Hall. constructor.
      * apply IH. split; [exact Hs|split; [exact H2|]]. intros a b Ha Hb.
        apply H12; [right; exact Ha|exact Hb].
      * apply Forall_forall. intros y Hy. apply in_app_or in Hy.
        destruct Hy as [Hy|Hy]; [apply Hall, Hy|apply H12; [left; reflexivity|exact Hy]].
Qed.

Lemma sorted_cons x l :
  StronglySorted le (x :: l) <->
  StronglySorted le l /\ forall y, In y l -> le x y.
Proof.
  split.
  - intros H. inversion H as [|? ? Hs Hall]; subst. rewrite Forall_forall in Hall.
    auto.
  - intros [Hs Hall]. constructor; [exact Hs|]. apply Forall_forall. exact Hall.
Qed.

(** *** The insertion sort *)

Lemma shift_right_perm vi rprefix shifted :
  Permutation (shift_right less vi rprefix shifted) (vi :: rev rprefix ++ shifted).
Proof.
  revert shifted. induction rprefix as [|k rp IH]; intros shifted;
    cbn [shift_right]; [reflexivity|].
  destruct (less vi k).
  - eapply Permutation_trans; [apply IH|]. cbn [rev]. rewrite <- app_assoc.
    reflexivity.
  - rewrite rev_append_rev. apply Permutation_sym, Permutation_middle.
Qed.

Lemma shift_right_sorted vi rprefix shifted :
  StronglySorted le (rev rprefix ++ shifted) ->
  (forall y, In y shifted -> less vi y = true) ->
  StronglySorted le (shift_right less vi rprefix shifted).
Proof.
  revert shifted. induction rprefix as [|k rp IH]; intros shifted Hs Hgt;
    cbn [shift_right].
  - apply sorted_cons. split; [exact Hs|]. intros y Hy. apply less_le, Hgt, Hy.
  - destruct (less vi k) eqn:E.
    + apply IH.
      * cbn [rev] in Hs. rewrite <- app_assoc in Hs. exact Hs.
      * intros y [<-|Hy]; [exact E|apply Hgt, Hy].
    + rewrite rev_append_rev. apply sorted_app in Hs.
      destruct Hs as [H1 [H2 H12]]. apply sorted_app.
      split; [exact H1|]. split.
      * apply sorted_cons. split; [exact H2|]. intros y Hy. apply less_le, Hgt, Hy.
      * assert (Hk : forall a, In a (rev (k :: rp)) -> le a vi).
        { intros a Ha. apply (le_trans a k vi); [|exact E].
          cbn [rev] in Ha, H1. apply in_app_or in Ha. destruct Ha as [Ha|[<-|[]]].
          - apply sorted_app in H1. apply H1; [exact Ha|left; reflexivity].
          - apply le_refl. }
        intros a b Ha [<-|Hb]; [apply Hk, Ha|apply H12; assumption].
Qed.

Lemma insertion_sort_from done s :
  StronglySorted le done ->
  Permutation (fold_left (fun done vi => shift_right less vi (rev done) []) s done)
    (done ++ s)
  /\ StronglySorted le
       (fold_left (fun done vi => shift_right less vi (rev done) []) s done).
Proof.
  revert done. induction s as [|x s IH]; intros done Hd; cbn [fold_left].
  - rewrite app_nil_r. split; [reflexivity|exact Hd].
  - assert (Hs : StronglySorted le (shift_right less x (rev done) [])).
    { apply shift_right_sorted; [|intros y []].
      rewrite rev_involutive, app_nil_r. exact Hd. }
    destruct (IH _ Hs) as [Hp Hsorted]. split; [|exact Hsorted].
    eapply Permutation_trans; [exact Hp|].
    pose proof (shift_right_perm x (rev done) []) as Hx.
    rewrite rev_involutive, app_nil_r in Hx.
    eapply Permutation_trans; [apply Permutation_app_tail, Hx|]. cbn [app].
    apply Permutation_middle.
Qed.

Lemma insertion_sort_perm s : Permutation (insertion_sort less s) s.
Proof. apply (insertion_sort_from [] s). constructor. Qed.

Lemma insertion_sort_sorted s : StronglySorted le (insertion_sort less s).
Proof. apply (insertion_sort_from [] s). constructor. Qed.

(** *** The partition *)

Lemma scan_up_spec fuel vp s i t :
  (i <= t)%nat -> less (at_ s t) vp = false -> (t - i < fuel)%nat ->
  (i <= scan_up less fuel vp s i <= t)%nat
  /\ less (at_ s (scan_up less fuel vp s i)) vp = false
  /\ forall k, (i <= k < scan_up less fuel vp s i)%nat -> less (at_ s k) vp = true.
Proof.
  revert i. induction fuel as [|fuel IH]; intros i Hi Ht Hf; [lia|].
  cbn [scan_up]. destruct (less (at_ s i) vp) eqn:E.
  - assert (Hne : i <> t) by (intros ->; congruence).
    destruct (IH (S i)) as [H1 [H2 H3]]; [lia|exact Ht|lia|].
    split; [lia|]. split; [exact H2|]. intros k Hk.
    destruct (Nat.eq_dec k i) as [->|Hki]; [exact E|apply H3; lia].
  - split; [lia|]. split; [exact E|]. intros k Hk. lia.
Qed.

Lemma scan_down_spec vp s j t :
  (t <= j)%nat -> less vp (at_ s t) = false ->
  (t <= scan_down less vp s j <= j)%nat
  /\ less vp (at_ s (scan_down less vp s j)) = false
  /\ forall k, (scan_down less vp s j < k <= j)%nat -> less vp (at_ s k) = true.
Proof.
  induction j as [|j IH]; intros Hj Ht; cbn [scan_down].
  - assert (t = 0)%nat by lia. subst t. split; [lia|]. split; [exact Ht|].
    intros k Hk. lia.
  - destruct (less vp (at_ s (S j))) eqn:E.
    + assert (Hne : t <> S j) by (intros ->; congruence).
      destruct IH as [H1 [H2 H3]]; [lia|exact Ht|].
      split; [lia|]. split; [exact H2|]. intros k Hk.
      destruct (Nat.eq_dec k (S j)) as [->|Hkj]; [exact E|apply H3; lia].
    + split; [lia|]. split; [exact E|]. intros k Hk. lia.
Qed.

Lemma exchange_spec fuel vp pr : forall s pi pj,
  (pi < pj)%nat -> (pj <= pr - 1)%nat -> (pr < List.length s)%nat ->
  at_ s (pr - 1) = vp ->
  (forall k, (k <= pi)%nat -> le (at_ s k) vp) ->
  (forall k, (pj <= k <= pr)%nat -> le vp (at_ s k)) ->
  (pj - pi <= fuel)%nat ->
  let s' := fst (exchange less fuel vp s pi pj) in
  let pi' := snd (exchange less fuel vp s pi pj) in
  Permutation s' s /\ List.length s' = List.length s
  /\ (pi < pi' <= pr - 1)%nat /\ at_ s' (pr - 1) = vp
  /\ (forall k, (k < pi')%nat -> le (at_ s' k) vp)
  /\ le vp (at_ s' pi')
  /\ (forall k, (pi' < k <= pr)%nat -> le vp (at_ s' k)).
Proof.
  induction fuel as [|fuel IH]; intros s pi pj Hij Hj Hpr Hvp Hlo Hhi Hf; [lia|].
  cbn [exchange].
  destruct (scan_up_spec (List.length s) vp s (S pi) (pr - 1)) as [U1 [U2 U3]];
    [lia|rewrite Hvp; apply less_irrefl|lia|].
  destruct (scan_down_spec vp s (pj - 1) pi) as [D1 [D2 D3]];
    [lia|apply Hlo; lia|].
  set (pi1 := scan_up less (List.length s) vp s (S pi)) in *.
  set (pj1 := scan_down less vp s (pj - 1)) in *.
  assert (Lo : forall k, (k < pi1)%nat -> le (at_ s k) vp).
  { intros k Hk. destruct (Nat.le_gt_cases k pi) as [H|H]; [apply Hlo, H|].
    apply less_le, U3. lia. }
  assert (Hi : forall k, (pj1 < k <= pr)%nat -> le vp (at_ s k)).
  { intros k Hk. destruct (Nat.le_gt_cases pj k) as [H|H]; [apply Hhi; lia|].
    apply less_le, D3. lia. }
  destruct (pj1 <=? pi1)%nat eqn:E; cbn [fst snd].
  - apply Nat.leb_le in E. split; [reflexivity|]. split; [reflexivity|].
    split; [lia|]. split; [exact Hvp|]. split; [exact Lo|]. split; [exact U2|].
    intros k Hk. apply Hi. lia.
  - apply Nat.leb_gt in E.
    assert (Hl1 : (pi1 < List.length s)%nat) by lia.
    assert (Hl2 : (pj1 < List.length s)%nat) by lia.
    destruct (IH (swap pi1 pj1 s) pi1 pj1) as [P [L [B [V [A1 [A2 A3]]]]]].
    + exact E.
    + lia.
    + rewrite length_swap. exact Hpr.
    + rewrite at_swap_other by lia. exact Hvp.
    + intros k Hk. destruct (Nat.eq_dec k pi1) as [->|Hne].
      * rewrite at_swap_l by assumption. exact D2.
      * rewrite at_swap_other by lia. apply Lo. lia.
    + intros k Hk. destruct (Nat.eq_dec k pj1) as [->|Hne].
      * rewrite at_swap_r by assumption. exact U2.
      * rewrite at_swap_other by lia. apply Hi. lia.
    + lia.
    + split; [eapply Permutation_trans; [exact P|apply swap_perm; assumption]|].
      split; [rewrite L; apply length_swap|]. split; [lia|]. auto.
Qed.

(** One conditional exchange of the median of three: afterwards the
    two entries are in order, and [hi] has the greater. *)
Lemma swap_if_less_spec hi lo s :
  lo <> hi -> (lo < List.length s)%nat -> (hi < List.length s)%nat ->
  let s' := if less (at_ s hi) (at_ s lo) then swap hi lo s else s in
  Permutation s' s /\ List.length s' = List.length s
  /\ le (at_ s' lo) (at_ s' hi)
  /\ le (at_ s lo) (at_ s' hi)
  /\ (forall k, k <> lo -> k <> hi -> at_ s' k = at_ s k)
  /\ (forall x, le (at_ s lo) x -> le (at_ s hi) x ->
        le (at_ s' lo) x /\ le (at_ s' hi) x).
Proof.
  intros Hne Hlo Hhi. destruct (less (at_ s hi) (at_ s lo)) eqn:E; cbn zeta.
  - split; [apply swap_perm; assumption|]. split; [apply length_swap|].
    rewrite at_swap_l, at_swap_r by assumption.
    split; [apply less_le, E|]. split; [apply le_refl|].
    split; [intros k H1 H2; apply at_swap_other; auto|].
    intros x H1 H2; auto.
  - split; [reflexivity|]. split; [reflexivity|]. split; [exact E|].
    split; [exact E|]. split; [reflexivity|]. intros x H1 H2; auto.
Qed.

Lemma partition_spec s :
  (4 <= List.length s)%nat ->
  let t := fst (partition less s) in
  let pi := snd (partition less s) in
  Permutation t s /\ (0 < pi < List.length t - 1)%nat
  /\ (forall k, (k < pi)%nat -> le (at_ t k) (at_ t pi))
  /\ (forall k, (pi < k < List.length t)%nat -> le (at_ t pi) (at_ t k)).
Proof.
  intros Hn. unfold partition.
  set (pr := (List.length s - 1)%nat). set (pm := Nat.div2 pr).
  assert (Hpm : (0 < pm <= pr - 2)%nat).
  { unfold pm. pose proof (Nat.div2_odd pr) as H.
    destruct (Nat.odd pr); cbn [Nat.b2n] in H; lia. }
  destruct (swap_if_less_spec pm 0%nat s) as [P1 [L1 [O1 [_ [K1 _]]]]]; [lia..|].
  set (s1 := if less (at_ s pm) (at_ s 0) then swap pm 0 s else s) in *.
  destruct (swap_if_less_spec pr pm s1) as [P2 [L2 [O2 [M2 [K2 _]]]]]; [lia..|].
  set (s2 := if less (at_ s1 pr) (at_ s1 pm) then swap pr pm s1 else s1) in *.
  destruct (swap_if_less_spec pm 0%nat s2) as [P3 [L3 [O3 [_ [K3 G3]]]]]; [lia..|].
  set (s3 := if less (at_ s2 pm) (at_ s2 0) then swap pm 0 s2 else s2) in *.
  assert (O4 : le (at_ s3 pm) (at_ s3 pr)).
  { rewrite (K3 pr) by lia. apply (G3 (at_ s2 pr)); [|exact O2].
    rewrite (K2 0%nat) by lia.
    apply (le_trans _ (at_ s1 pm) _); [exact O1|exact M2]. }
  set (vp := at_ s3 pm) in *.
  assert (L4 : List.length (swap pm (pr - 1) s3) = List.length s)
    by (rewrite length_swap; lia).
  destruct (exchange_spec (List.length (swap pm (pr - 1) s3)) vp pr
              (swap pm (pr - 1) s3) 0%nat (pr - 1)%nat)
    as [P5 [L5 [B5 [V5 [A1 [A2 A3]]]]]].
  - lia.
  - lia.
  - lia.
  - rewrite at_swap_r by lia. reflexivity.
  - intros k Hk. assert (k = 0)%nat by lia. subst k.
    rewrite at_swap_other by lia. exact O3.
  - intros k Hk. destruct (Nat.eq_dec k pr) as [->|Hne].
    + rewrite at_swap_other by lia. exact O4.
    + assert (k = pr - 1)%nat by lia. subst k. rewrite at_swap_r by lia.
      apply le_refl.
  - lia.
  - destruct (exchange less (List.length (swap pm (pr - 1) s3)) vp
                (swap pm (pr - 1) s3) 0 (pr - 1)) as [s5 pi].
    cbn [fst snd] in *.
    assert (Hpi : (pi < List.length s5)%nat) by lia.
    assert (Hpr : (pr - 1 < List.length s5)%nat) by lia.
    split.
    { eapply Permutation_trans; [apply swap_perm; assumption|].
      eapply Permutation_trans; [exact P5|].
      eapply Permutation_trans; [apply swap_perm; lia|].
      eapply Permutation_trans; [exact P3|].
      eapply Permutation_trans; [exact P2|exact P1]. }
    rewrite length_swap. split; [lia|].
    rewrite at_swap_l by assumption. rewrite V5. split.
    + intros k Hk. rewrite at_swap_other by lia. apply A1, Hk.
    + intros k Hk. destruct (Nat.eq_dec k (pr - 1)) as [->|Hne].
      * rewrite at_swap_r by assumption. exact A2.
      * rewrite at_swap_other by lia. apply A3. lia.
Qed.

(** The two parts that a partition leaves. *)
Lemma partition_parts s :
  (4 <= List.length s)%nat ->
  let t := fst (partition less s) in
  let pi := snd (partition less s) in
  Permutation (firstn pi t ++ at_ t pi :: skipn (S pi) t) s
  /\ (List.length (firstn pi t) < List.length s)%nat
  /\ (List.length (skipn (S pi) t) < List.length s)%nat
  /\ (forall x, In x (firstn pi t) -> le x (at_ t pi))
  /\ (forall x, In x (skipn (S pi) t) -> le (at_ t pi) x).
Proof.
  intros Hn. destruct (partition_spec s Hn) as [P [B [Lo Hi]]].
  cbn zeta in *.
  set (t := fst (partition less s)) in *. set (pi := snd (partition less s)) in *.
  assert (Hl : List.length t = List.length s) by (apply Permutation_length, P).
  split; [rewrite <- split_at by lia; exact P|].
  split; [rewrite length_firstn; lia|]. split; [rewrite length_skipn; lia|].
  split.
  - intros x Hx. apply in_at in Hx. destruct Hx as [k [Hk <-]].
    rewrite length_firstn in Hk. rewrite at_firstn by lia. apply Lo. lia.
  - intros x Hx. apply in_at in Hx. destruct Hx as [k [Hk <-]].
    rewrite length_skipn in Hk. rewrite at_skipn. apply Hi. lia.
Qed.

(** *** The heap sort *)

Lemma at1_set_at1_eq i x a :
  (1 <= i <= List.length a)%nat -> at1 (set_at1 i x a) i = x.
Proof. intros H. unfold at1, set_at1. apply at_set_at_eq. lia. Qed.

Lemma at1_set_at1_neq i k x a :
  (1 <= i)%nat -> (1 <= k)%nat -> i <> k -> at1 (set_at1 i x a) k = at1 a k.
Proof. intros Hi Hk H. unfold at1, set_at1. apply at_set_at_neq. lia. Qed.

Lemma at1_S k a : at1 a (S k) = at_ a k.
Proof. unfold at1. f_equal. lia. Qed.

Lemma length_set_at1 i x a : List.length (set_at1 i x a) = List.length a.
Proof. apply length_set_at. Qed.

Lemma set_at_set_at i x y s : set_at i y (set_at i x s) = set_at i y s.
Proof. revert i. induction s as [|z s IH]; intros [|i]; cbn; f_equal; auto. Qed.

Lemma set_at_same i s : set_at i (at_ s i) s = s.
Proof.
  unfold at_. revert i. induction s as [|z s IH]; intros [|i]; cbn; f_equal; auto.
Qed.

(** Filling the hole at [j] after the entry at [j] went up to [i]. *)
Lemma set_at1_move i j x a :
  (1 <= i <= List.length a)%nat -> (1 <= j <= List.length a)%nat -> i <> j ->
  Permutation (set_at1 j x (set_at1 i (at1 a j) a)) (set_at1 i x a).
Proof.
  intros Hi Hj Hne. unfold set_at1, at1.
  set (b := set_at (i - 1) x a).
  assert (E : set_at (j - 1) x (set_at (i - 1) (at_ a (j - 1)) a)
              = swap (i - 1) (j - 1) b).
  { unfold swap, b. rewrite at_set_at_eq by lia.
    rewrite at_set_at_neq by lia. rewrite set_at_set_at. reflexivity. }
  rewrite E. apply swap_perm; unfold b; rewrite length_set_at; lia.
Qed.

Lemma sift_spec lo n fuel : forall a tmp i,
  (1 <= lo <= i)%nat -> (i <= n <= List.length a)%nat -> (n < i + fuel)%nat ->
  (forall p c, (lo <= p)%nat -> p <> i -> c = (2 * p)%nat \/ c = S (2 * p) ->
     (c <= n)%nat -> c <> i -> le (at1 a c) (at1 a p)) ->
  (forall p, (lo <= p)%nat -> i = (2 * p)%nat \/ i = S (2 * p) ->
     le tmp (at1 a p)
     /\ forall c, c = (2 * i)%nat \/ c = S (2 * i) -> (c <= n)%nat ->
          le (at1 a c) (at1 a p)) ->
  let r := sift less fuel a tmp i n in
  List.length r = List.length a
  /\ Permutation r (set_at1 i tmp a)
  /\ (forall k, (1 <= k)%nat -> (k < i \/ n < k)%nat -> at1 r k = at1 a k)
  /\ heap r lo n.
Proof.
  induction fuel as [|fuel IH]; intros a tmp i Hlo Hn Hf H1 H2; [lia|].
  cbn [sift].
  assert (Stop : (forall c, c = (2 * i)%nat \/ c = S (2 * i) -> (c <= n)%nat ->
                    le (at1 a c) tmp) ->
                 let r := set_at1 i tmp a in
                 List.length r = List.length a
                 /\ Permutation r (set_at1 i tmp a)
                 /\ (forall k, (1 <= k)%nat -> (k < i \/ n < k)%nat ->
                       at1 r k = at1 a k)
                 /\ heap r lo n).
  { intros Hc r. split; [apply length_set_at1|]. split; [reflexivity|]. split.
    - intros k Hk Hki. unfold r. apply at1_set_at1_neq; lia.
    - intros p c Hp Hpc Hcn. unfold r.
      destruct (Nat.eq_dec p i) as [->|Hpi].
      + rewrite at1_set_at1_eq by lia. rewrite at1_set_at1_neq by lia.
        apply Hc; assumption.
      + rewrite (at1_set_at1_neq i p) by lia.
        destruct (Nat.eq_dec c i) as [->|Hci].
        * rewrite at1_set_at1_eq by lia. apply (H2 p Hp Hpc).
        * rewrite at1_set_at1_neq by lia. apply H1; assumption. }
  destruct (n <? 2 * i)%nat eqn:En.
  - apply Nat.ltb_lt in En. apply Stop. intros c Hc Hcn. lia.
  - apply Nat.ltb_ge in En.
    set (j := if ((2 * i <? n)%nat && less (at1 a (2 * i)) (at1 a (S (2 * i))))%bool
              then S (2 * i) else (2 * i)%nat).
    assert (Hj : (j = (2 * i)%nat \/ j = S (2 * i)) /\ (j <= n)%nat
                 /\ forall c, c = (2 * i)%nat \/ c = S (2 * i) -> (c <= n)%nat ->
                      le (at1 a c) (at1 a j)).
    { unfold j. destruct (2 * i <? n)%nat eqn:E2; cbn [andb].
      - apply Nat.ltb_lt in E2.
        destruct (less (at1 a (2 * i)) (at1 a (S (2 * i)))) eqn:E3.
        + split; [auto|]. split; [lia|]. intros c [->| ->] _;
            [apply less_le, E3|apply le_refl].
        + split; [auto|]. split; [lia|]. intros c [->| ->] _;
            [apply le_refl|exact E3].
      - apply Nat.ltb_ge in E2. split; [auto|]. split; [lia|].
        intros c [->| ->] Hc; [apply le_refl|lia]. }
    destruct Hj as [Hj [Hjn Hmax]].
    destruct (less tmp (at1 a j)) eqn:Et.
    + set (a' := set_at1 i (at1 a j) a).
      assert (Hij : i <> j) by lia.
      destruct (IH a' tmp j) as [L [P [K Hheap]]].
      * lia.
      * unfold a'. rewrite length_set_at1. lia.
      * lia.
      * intros p c Hp Hpj Hpc Hcn Hcj. unfold a'.
        destruct (Nat.eq_dec p i) as [->|Hpi].
        -- rewrite at1_set_at1_eq by lia. rewrite at1_set_at1_neq by lia.
           apply Hmax; assumption.
        -- rewrite (at1_set_at1_neq i p) by lia.
           destruct (Nat.eq_dec c i) as [->|Hci].
           ++ rewrite at1_set_at1_eq by lia. apply (H2 p Hp Hpc); assumption.
           ++ rewrite at1_set_at1_neq by lia. apply H1; assumption.
      * intros p Hp Hpj. assert (p = i) by lia. subst p. unfold a'.
        rewrite at1_set_at1_eq by lia. split; [apply less_le, Et|].
        intros c Hc Hcn. rewrite at1_set_at1_neq by lia.
        apply H1; try assumption; lia.
      * split; [rewrite L; apply length_set_at1|]. split.
        -- eapply Permutation_trans; [exact P|]. apply set_at1_move; lia.
        -- split; [|exact Hheap]. intros k Hk Hki. rewrite K by lia.
           unfold a'. apply at1_set_at1_neq; lia.
    + apply Stop. intros c Hc Hcn.
      apply (le_trans _ (at1 a j) _); [apply Hmax; assumption|exact Et].
Qed.

Lemma heap_root a n k :
  heap a 1 n -> (1 <= k <= n)%nat -> le (at1 a k) (at1 a 1).
Proof.
  intros Hh. induction k as [k IH] using lt_wf_ind. intros Hk.
  destruct (Nat.eq_dec k 1) as [->|Hne]; [apply le_refl|].
  pose proof (Nat.div2_odd k) as E.
  apply (le_trans _ (at1 a (Nat.div2 k)) _).
  - apply Hh; [|destruct (Nat.odd k); cbn [Nat.b2n] in E; lia|lia].
    destruct (Nat.odd k); cbn [Nat.b2n] in E; lia.
  - apply IH; destruct (Nat.odd k); cbn [Nat.b2n] in E; lia.
Qed.

Lemma build_heap_spec n l : forall a,
  (n <= List.length a)%nat -> (l <= n)%nat -> heap a (S l) n ->
  Permutation (build_heap less l n a) a /\ heap (build_heap less l n a) 1 n.
Proof.
  induction l as [|l IH]; intros a Hn Hl Hh; cbn [build_heap].
  - split; [reflexivity|exact Hh].
  - destruct (sift_spec (S l) n n a (at1 a (S l)) (S l)) as [L [P [_ Hr]]];
      [lia|lia|lia| |intros p Hp Hpc; lia|].
    + intros p c Hp Hne Hpc Hcn _. apply Hh; [lia|assumption..].
    + unfold set_at1, at1 in P. rewrite set_at_same in P.
      destruct (IH (sift less n a (at1 a (S l)) (S l) n)) as [P' H'];
        [lia|lia|exact Hr|].
      split; [|exact H']. eapply Permutation_trans; [exact P'|exact P].
Qed.

Lemma skipn_ext m (r a : list nat) :
  List.length r = List.length a ->
  (forall k, (m <= k)%nat -> at_ r k = at_ a k) -> skipn m r = skipn m a.
Proof.
  intros L H. apply (nth_ext _ _ 0%nat 0%nat).
  - rewrite !length_skipn, L. reflexivity.
  - intros k _. fold (at_ (skipn m r) k) (at_ (skipn m a) k).
    rewrite !at_skipn. apply H. lia.
Qed.

Lemma in_firstn_at x m s :
  In x (firstn m s) -> exists k, (k < m)%nat /\ (k < List.length s)%nat /\ at_ s k = x.
Proof.
  intros H. apply in_at in H. destruct H as [k [Hk <-]].
  rewrite length_firstn in Hk. exists k. rewrite at_firstn by lia.
  split; [lia|]. split; [lia|reflexivity].
Qed.

Lemma at_in_firstn k m s :
  (k < m)%nat -> (k < List.length s)%nat -> In (at_ s k) (firstn m s).
Proof.
  intros H1 H2. rewrite <- (at_firstn k m s H1). apply at_in.
  rewrite length_firstn. lia.
Qed.

Lemma drain_heap_spec n : forall a,
  (n <= List.length a)%nat -> heap a 1 n ->
  StronglySorted le (skipn n a) ->
  (forall x y, In x (firstn n a) -> In y (skipn n a) -> le x y) ->
  Permutation (drain_heap less n a) a /\ StronglySorted le (drain_heap less n a).
Proof.
  induction n as [|n IH]; intros a Hn Hh Hs Hc; cbn [drain_heap].
  - split; [reflexivity|exact Hs].
  - destruct (n =? 0)%nat eqn:E.
    + apply Nat.eqb_eq in E. subst n. split; [reflexivity|].
      rewrite <- (firstn_skipn 1 a). apply sorted_app.
      split; [|split; [exact Hs|exact Hc]].
      destruct a as [|x a]; cbn; repeat constructor.
    + apply Nat.eqb_neq in E.
      set (a1 := set_at1 (S n) (at1 a 1) a).
      destruct (sift_spec 1 n n a1 (at1 a (S n)) 1) as [L [P [K Hr]]];
        [lia| |lia| |intros p Hp Hpc; lia|].
      * unfold a1. rewrite length_set_at1. lia.
      * intros p c Hp Hne Hpc Hcn _. unfold a1.
        rewrite !at1_set_at1_neq by lia. apply Hh; [assumption..|lia].
      * set (r := sift less n a1 (at1 a (S n)) 1 n) in *.
        assert (La1 : List.length a1 = List.length a) by apply length_set_at1.
        assert (Pa : Permutation (set_at1 1 (at1 a (S n)) a1) a).
        { unfold a1. rewrite !at1_S. unfold set_at1, at1.
          replace (S n - 1)%nat with n by lia. replace (1 - 1)%nat with 0%nat by lia.
          apply (swap_perm n 0 a); lia. }
        assert (Etail : skipn n r = at1 a 1 :: skipn (S n) a).
        { rewrite (split_at 0 (skipn n r)) by (rewrite length_skipn; lia).
          cbn [firstn app]. rewrite at_skipn, Nat.add_0_r, skipn_skipn.
          f_equal.
          - rewrite <- at1_S. rewrite K by lia. unfold a1.
            apply at1_set_at1_eq. lia.
          - cbn [Nat.add]. apply skipn_ext; [lia|]. intros k Hk.
            rewrite <- !at1_S. rewrite K by lia. unfold a1.
            apply at1_set_at1_neq; lia. }
        assert (Ehead : forall x, In x (firstn n r) -> In x (firstn (S n) a)).
        { intros x Hx.
          assert (Pf : Permutation (firstn n r)
                         (firstn n (set_at1 1 (at1 a (S n)) a1))).
          { apply (Permutation_app_inv_r (skipn n r)).
            rewrite firstn_skipn.
            replace (skipn n r) with (skipn n (set_at1 1 (at1 a (S n)) a1)).
            - rewrite firstn_skipn. exact P.
            - symmetry. apply skipn_ext; [rewrite length_set_at1; lia|].
              intros k Hk. rewrite <- !at1_S.
              rewrite K by lia. symmetry. apply at1_set_at1_neq; lia. }
          apply (Permutation_in _ Pf) in Hx. apply in_firstn_at in Hx.
          destruct Hx as [k [Hk [_ <-]]].
          rewrite <- at1_S.
          destruct (Nat.eq_dec k 0) as [->|Hk0].
          - rewrite at1_set_at1_eq by (rewrite La1; lia).
            unfold at1. apply at_in_firstn; lia.
          - rewrite at1_set_at1_neq by lia. unfold a1.
            rewrite at1_set_at1_neq by lia. unfold at1. apply at_in_firstn; lia. }
        assert (Hroot : In (at1 a 1) (firstn (S n) a))
          by (unfold at1; apply at_in_firstn; lia).
        destruct (IH r) as [P' S']; [lia|exact Hr| |  |].
        -- rewrite Etail. apply sorted_cons. split; [exact Hs|].
           intros y Hy. apply Hc; assumption.
        -- rewrite Etail. intros x y Hx [<-|Hy].
           ++ apply Ehead, in_firstn_at in Hx. destruct Hx as [k [Hk [_ <-]]].
              rewrite <- at1_S.
              apply (heap_root a (S n)); [exact Hh|lia].
           ++ apply Hc; [apply Ehead, Hx|exact Hy].
        -- split; [|exact S']. eapply Permutation_trans; [exact P'|].
           eapply Permutation_trans; [exact P|exact Pa].
Qed.

Lemma aheapsort_spec s :
  Permutation (aheapsort less s) s /\ StronglySorted le (aheapsort less s).
Proof.
  unfold aheapsort. set (n := List.length s).
  destruct (build_heap_spec n (Nat.div2 n) s) as [P H]; [lia| | |].
  - pose proof (Nat.div2_odd n) as E. destruct (Nat.odd n); cbn [Nat.b2n] in E; lia.
  - intros p c Hp Hc Hcn. pose proof (Nat.div2_odd n) as E.
    destruct (Nat.odd n); cbn [Nat.b2n] in E; lia.
  - destruct (drain_heap_spec n (build_heap less (Nat.div2 n) n s)) as [P' S'].
    + rewrite (Permutation_length P). lia.
    + exact H.
    + rewrite skipn_all2; [constructor|]. rewrite (Permutation_length P). lia.
    + intros x y _ Hy. rewrite skipn_all2 in Hy; [destruct Hy|].
      rewrite (Permutation_length P). lia.
    + split; [eapply Permutation_trans; [exact P'|exact P]|exact S'].
Qed.

(** *** The whole sort *)

Lemma sorted_around l p r l' r' :
  Permutation l' l -> Permutation r' r ->
  StronglySorted le l' -> StronglySorted le r' ->
  (forall x, In x l -> le x p) -> (forall x, In x r -> le p x) ->
  StronglySorted le (l' ++ p :: r').
Proof.
  intros Pl Pr Sl Sr Hl Hr. apply sorted_app. split; [exact Sl|]. split.
  - apply sorted_cons. split; [exact Sr|]. intros y Hy.
    apply Hr, (Permutation_in _ Pr), Hy.
  - intros a b Ha [<-|Hb].
    + apply Hl, (Permutation_in _ Pl), Ha.
    + apply (le_trans a p b).
      * apply Hl, (Permutation_in _ Pl), Ha.
      * apply Hr, (Permutation_in _ Pr), Hb.
Qed.

Lemma aquicksort_from_spec fuel : forall popped cdepth s,
  (List.length s < fuel)%nat ->
  Permutation (aquicksort_from less fuel popped cdepth s) s
  /\ StronglySorted le (aquicksort_from less fuel popped cdepth s).
Proof.
  induction fuel as [|fuel IH]; intros popped cdepth s Hf; [lia|].
  cbn [aquicksort_from].
  destruct (popped && (cdepth <? 0)%Z)%bool; [apply aheapsort_spec|].
  destruct (16 <? List.length s - 1)%nat eqn:E.
  2:{ split; [apply insertion_sort_perm|apply insertion_sort_sorted]. }
  apply Nat.ltb_lt in E.
  destruct (partition_parts s) as [P [Ll [Lr [Hl Hr]]]]; [lia|].
  destruct (partition less s) as [t pi]. cbn [fst snd] in *.
  assert (Both : forall b1 b2,
            Permutation
              (aquicksort_from less fuel b1 (cdepth - 1) (firstn pi t)
               ++ at_ t pi :: aquicksort_from less fuel b2 (cdepth - 1) (skipn (S pi) t))
              s
            /\ StronglySorted le
                 (aquicksort_from less fuel b1 (cdepth - 1) (firstn pi t)
                  ++ at_ t pi
                     :: aquicksort_from less fuel b2 (cdepth - 1) (skipn (S pi) t))).
  { intros b1 b2.
    destruct (IH b1 (cdepth - 1)%Z (firstn pi t)) as [P1 S1]; [lia|].
    destruct (IH b2 (cdepth - 1)%Z (skipn (S pi) t)) as [P2 S2]; [lia|].
    split.
    - eapply Permutation_trans; [|exact P].
      apply Permutation_app; [exact P1|]. apply perm_skip, P2.
    - apply (sorted_around (firstn pi t) (at_ t pi) (skipn (S pi) t)); assumption. }
  destruct (List.length (firstn pi t) <? List.length (skipn (S pi) t))%nat;
    apply Both.
Qed.

Lemma aquicksort_perm tosort : Permutation (aquicksort less tosort) tosort.
Proof. apply aquicksort_from_spec. lia. Qed.

Lemma aquicksort_sorted tosort : StronglySorted le (aquicksort less tosort).
Proof. apply aquicksort_from_spec. lia. Qed.

(** *** Entries of equal key *)


Section Ties.

(** A class of entries none of which is before another. *)
Variable same : nat -> bool.
Hypothesis same_key : forall x y, same x = true -> same y = true -> less x y = false.



End Ties.

End Order.

End NpSort.

(** ** The sort of the table *)

Module PdSort.

Lemma eqb_refl_notna (x : float) : isnan x = false -> SFeqb x x = true.
Proof.
  intros H. unfold SFeqb. rewrite (FloatOrder.compare_key x x H H).
  destruct (key x) as [[a b] c]. cbn. rewrite !Z.compare_refl. reflexivity.
Qed.

Lemma eqb_nan (x : float) : isnan x = true -> SFeqb x x = false.
Proof. destruct x; try discriminate. reflexivity. Qed.

Lemma ltb_nan (x y : float) :
  isnan x = true \/ isnan y = true -> (x <? y)%float = false.
Proof.
  intros H. destruct (x <? y)%float eqn:E; [|reflexivity].
  destruct (FloatOrder.ltb_notna _ _ E) as [Hx Hy]. destruct H; congruence.
Qed.

(** The comparison of numpy puts the floats in lexicographic order of
    their keys, and NaN after them. *)
Lemma less_double_spec (a b : float) :
  np.less_double a b = true <->
  isnan a = false
  /\ (isnan b = true \/ (isnan b = false /\ lex_lt (key a) (key b))).
Proof.
  unfold np.less_double, neb, eqb.
  destruct (isnan a) eqn:Ha.
  - rewrite (ltb_nan a b (or_introl Ha)), (eqb_nan a Ha), andb_false_r.
    split; [discriminate|intros [H _]; discriminate H].
  - rewrite (eqb_refl_notna a Ha), andb_true_r. destruct (isnan b) eqn:Hb.
    + rewrite (ltb_nan a b (or_intror Hb)), (eqb_nan b Hb). cbn. tauto.
    + rewrite (eqb_refl_notna b Hb). cbn [negb]. rewrite orb_false_r.
      rewrite (FloatOrder.ltb_key a b Ha Hb). split; [auto|].
      intros [_ [H|[_ H]]]; [discriminate H|exact H].
Qed.

Lemma less_double_false (a b : float) :
  np.less_double a b = false <->
  isnan a = true
  \/ (isnan b = false /\ lex_le (key b) (key a)).
Proof.
  rewrite <- not_true_iff_false, less_double_spec.
  destruct (isnan a), (isnan b);
    destruct (key a) as [[a1 a2] a3], (key b) as [[b1 b2] b3];
    cbn [lex_lt lex_le]; split; intros H;
    try (left; reflexivity); try (right; split; [reflexivity|lia]);
    try (intros [H1 H2]; discriminate H1);
    try (intros [_ [H2|[H2 H3]]]; try discriminate H2;
         destruct H as [H|[_ H]]; try discriminate H; lia).
  - exfalso. apply H. auto.
  - intros [_ [H2|[H2 _]]]; [|discriminate H2].
    destruct H as [H|[H _]]; discriminate H.
Qed.

Lemma less_double_irrefl (a : float) : np.less_double a a = false.
Proof.
  apply less_double_false. destruct (isnan a); [auto|right].
  split; [reflexivity|]. destruct (key a) as [[a1 a2] a3]. cbn. lia.
Qed.

Lemma less_double_trans (a b c : float) :
  np.less_double a b = true -> np.less_double b c = true ->
  np.less_double a c = true.
Proof.
  rewrite !less_double_spec. intros [Ha Hab] [Hb Hbc]. split; [exact Ha|].
  destruct Hab as [Hab|[_ Hab]]; [congruence|].
  destruct Hbc as [Hc|[Hc Hbc]]; [auto|right]. split; [exact Hc|].
  destruct (key a) as [[a1 a2] a3], (key b) as [[b1 b2] b3],
    (key c) as [[c1 c2] c3]; cbn [lex_lt] in *; lia.
Qed.

Lemma less_double_incomparable (a b c : float) :
  np.less_double a b = false -> np.less_double b c = false ->
  np.less_double a c = false.
Proof.
  rewrite !less_double_false. intros [Ha|[Hb Hab]] H; [auto|].
  destruct H as [Hb'|[Hc Hbc]]; [congruence|right]. split; [exact Hc|].
  destruct (key a) as [[a1 a2] a3], (key b) as [[b1 b2] b3],
    (key c) as [[c1 c2] c3]; cbn [lex_le] in *; lia.
Qed.

(** *** Lists and positions *)

Lemma filter_all {A : Type} (f : A -> bool) (l : list A) :
  (forall x, In x l -> f x = true) -> filter f l = l.
Proof.
  induction l as [|a l IH]; intros H; [reflexivity|]. cbn [filter].
  rewrite (H a (or_introl eq_refl)). f_equal. apply IH.
  intros x Hx. apply H. right; exact Hx.
Qed.

Lemma map_nth_positions {A : Type} (d : A) (l : list A) :
  map (fun i => nth i l d) (seq 0 (List.length l)) = l.
Proof.
  induction l as [|a l IH]; [reflexivity|].
  cbn [List.length seq map nth]. f_equal.
  rewrite <- seq_shift, map_map. exact IH.
Qed.



Lemma sorted_reverse {A : Type} (R : A -> A -> Prop) (l : list A) :
  StronglySorted R l -> StronglySorted (fun x y => R y x) (rev l).
Proof.
  induction 1 as [|a l Hs IH Hall]; [constructor|]. cbn [rev].
  rewrite Forall_forall in Hall.
  assert (G : forall l1, StronglySorted (fun x y => R y x) l1 ->
            (forall x, In x l1 -> R a x) ->
            StronglySorted (fun x y => R y x) (l1 ++ [a])).
  { induction 1 as [|b l1 Hs1 IH1 Hall1]; intros Ha; cbn [app].
    - repeat constructor.
    - constructor; [apply IH1; intros x Hx; apply Ha; right; exact Hx|].
      apply Forall_forall. intros x Hx. apply in_app_or in Hx.
      destruct Hx as [Hx|[<-|[]]]; [|apply Ha; left; reflexivity].
      rewrite Forall_forall in Hall1. apply Hall1, Hx. }
  apply G; [exact IH|]. intros x Hx. apply Hall, in_rev, Hx.
Qed.

Lemma sorted_map {A B : Type} (R : A -> A -> Prop) (R' : B -> B -> Prop)
  (f : A -> B) (l : list A) :
  (forall x y, R x y -> R' (f x) (f y)) ->
  StronglySorted R l -> StronglySorted R' (map f l).
Proof.
  intros H. induction 1 as [|a l Hs IH Hall]; cbn [map]; constructor; [exact IH|].
  rewrite Forall_forall in Hall |- *. intros y Hy. apply in_map_iff in Hy.
  destruct Hy as [x [<- Hx]]. apply H, Hall, Hx.
Qed.

Lemma take_positions (d : ScoreRow) (indexer : list nat) (rows : list ScoreRow) :
  (forall i, In i indexer -> (i < List.length rows)%nat) ->
  pd.take indexer rows = map (fun i => nth i rows d) indexer.
Proof.
  unfold pd.take. induction indexer as [|i l IH]; intros H; [reflexivity|].
  cbn [flat_map map]. rewrite IH by (intros j Hj; apply H; right; exact Hj).
  destruct (nth_error rows i) as [r|] eqn:E.
  - rewrite (nth_error_nth _ _ d E). reflexivity.
  - apply nth_error_None in E. specialize (H i (or_introl eq_refl)). lia.
Qed.

(** Without NaN nothing is set aside. *)
Lemma nargsort_descending (items : list float) :
  (forall x, In x items -> isnan x = false) ->
  pd.nargsort items false
  = rev (map (fun j => nth j (rev (seq 0 (List.length items))) 0%nat)
           (np.argsort (rev items))).
Proof.
  intros H. unfold pd.nargsort.
  assert (Hmask : forall i, In i (seq 0 (List.length items)) ->
            isnan (nth i items nan) = false).
  { intros i Hi. apply in_seq in Hi. apply H, nth_In. lia. }
  rewrite (filter_all (fun i => negb (isnan (nth i items nan))))
    by (intros i Hi; rewrite (Hmask i Hi); reflexivity).
  rewrite (filter_none (fun i => isnan (nth i items nan))) by exact Hmask.
  rewrite map_nth_positions, app_nil_r. reflexivity.
Qed.

Lemma sorted_weaken {A : Type} (R R' : A -> A -> Prop) (l : list A) :
  (forall x y, In x l -> In y l -> R x y -> R' x y) ->
  StronglySorted R l -> StronglySorted R' l.
Proof.
  intros H Hs. induction Hs as [|a l Hs IH Hall]; constructor.
  - apply IH. intros x y Hx Hy. apply H; right; assumption.
  - rewrite Forall_forall in Hall |- *. intros y Hy.
    apply H; [left; reflexivity|right; exact Hy|apply Hall, Hy].
Qed.

Lemma reverse_positions (n j : nat) :
  (j < n)%nat -> nth j (rev (seq 0 n)) 0%nat = (n - S j)%nat.
Proof.
  intros H. rewrite rev_nth by (rewrite length_seq; exact H).
  rewrite length_seq, seq_nth by lia. reflexivity.
Qed.

(** *** The rows in descending order *)

Section Rows.

Variable rows : list ScoreRow.
Hypothesis rows_notna : forall r, In r rows -> isnan (Electric_Twin r) = false.

Local Abbreviation blank :=
  {| Question := ""; Electric_Twin := nan; Baseline := nan; Difference := nan |}.
Local Abbreviation items := (rev (map Electric_Twin rows)).
Local Abbreviation less :=
  (fun i j => np.less_double (nth i items nan) (nth j items nan)).
Local Abbreviation row_at := (fun j => nth j (rev rows) blank).

Lemma item_at (j : nat) : nth j items nan = Electric_Twin (row_at j).
Proof. rewrite <- map_rev. apply (map_nth Electric_Twin (rev rows) blank j). Qed.

Lemma argsort_positions :
  Permutation (np.argsort items) (seq 0 (List.length rows)).
Proof.
  unfold np.argsort. rewrite length_rev, length_map.
  apply NpSort.aquicksort_perm.
  - intros x. apply less_double_irrefl.
  - intros x y z. apply less_double_trans.
  - intros x y z. apply less_double_incomparable.
Qed.

Lemma sort_by_electric_twin_eq :
  sort_by_electric_twin rows = rev (map row_at (np.argsort items)).
Proof.
  unfold sort_by_electric_twin.
  change (pd.values "Electric Twin") with Electric_Twin.
  rewrite nargsort_descending.
  2:{ intros x Hx. apply in_map_iff in Hx. destruct Hx as [r [<- Hr]].
      apply rows_notna, Hr. }
  rewrite length_map.
  assert (Hin : forall j, In j (np.argsort items) -> (j < List.length rows)%nat).
  { intros j Hj. apply (Permutation_in _ argsort_positions) in Hj.
    apply in_seq in Hj. lia. }
  rewrite (take_positions blank).
  - rewrite map_rev, map_map. f_equal. apply map_ext_in. intros j Hj.
    specialize (Hin j Hj). rewrite reverse_positions by exact Hin.
    rewrite rev_nth by exact Hin. reflexivity.
  - intros i Hi. apply in_rev, in_map_iff in Hi. destruct Hi as [j [<- Hj]].
    specialize (Hin j Hj). rewrite reverse_positions by exact Hin. lia.
Qed.

Lemma sort_by_electric_twin_perm : Permutation rows (sort_by_electric_twin rows).
Proof.
  rewrite sort_by_electric_twin_eq. apply Permutation_sym.
  eapply Permutation_trans; [apply Permutation_sym, Permutation_rev|].
  eapply Permutation_trans; [apply Permutation_map, argsort_positions|].
  rewrite <- (length_rev rows), map_nth_positions.
  apply Permutation_sym, Permutation_rev.
Qed.

Lemma sort_by_electric_twin_sorted :
  StronglySorted score_ge (sort_by_electric_twin rows).
Proof.
  apply (sorted_weaken
           (fun x y => np.less_double (Electric_Twin x) (Electric_Twin y) = false)).
  - intros x y Hx Hy H.
    apply (Permutation_in _ (Permutation_sym sort_by_electric_twin_perm)) in Hx, Hy.
    apply rows_notna in Hx, Hy. apply less_double_false in H.
    destruct H as [H|[_ H]]; [congruence|].
    unfold score_ge, geb. apply FloatOrder.leb_key; assumption.
  - rewrite sort_by_electric_twin_eq.
    apply (sorted_reverse
             (fun x y => np.less_double (Electric_Twin y) (Electric_Twin x) = false)).
    apply (sorted_map (np.le less)).
    + intros x y H. unfold np.le in H. rewrite !item_at in H. exact H.
    + unfold np.argsort. apply NpSort.aquicksort_sorted.
      * intros x. apply less_double_irrefl.
      * intros x y z. apply less_double_trans.
      * intros x y z. apply less_double_incomparable.
Qed.


End Rows.

(** The sort of pandas keeps the contract of a sort in descending
    order. *)
Lemma sort_by_electric_twin_contract : sort_contract sort_by_electric_twin.
Proof.
  intros l H. split.
  - apply sort_by_electric_twin_perm, H.
  - apply sort_by_electric_twin_sorted, H.
Qed.

(** The section with the operations of pandas is the section of
    [country_detail] at these operations. *)
Lemma question_level_scores_eq (et_df baseline_df : list QuestionRow)
  (selected_country : string) :
  question_level_scores et_df baseline_df selected_country
  = country_detail sort_by_electric_twin np_round4 et_df baseline_df
      selected_country.
Proof. reflexivity. Qed.

End PdSort.

(** ** Rounding to four decimal places *)

Module Rounding.

Lemma shr_1_shifted (m0 k : Z) (mrs : shr_record) :
  (0 <= k)%Z -> shifted m0 k mrs -> shifted m0 (k + 1) (shr_1 mrs).
Proof.
  intros Hk [Hm [t [Ht [E Hs]]]].
  assert (Hp : (0 < 2 ^ k)%Z) by (apply Z.pow_pos_nonneg; lia).
  assert (E2 : (2 ^ (k + 1) = 2 * 2 ^ k)%Z) by (rewrite Z.pow_add_r; lia).
  destruct mrs as [m r s]. cbn [shr_m shr_r shr_s] in *.
  unfold shifted. rewrite E2.
  assert (Hs' : forall t', (t' = 2 ^ k * Z.b2z r + t)%Z ->
            (r || s = true <-> 0 < t')%Z).
  { intros t' ->. destruct r; cbn [orb Z.b2z].
    - split; [lia|reflexivity].
    - rewrite Hs. lia. }
  destruct m as [|[p|p|]|p]; cbn [shr_1 shr_m shr_r shr_s Z.b2z]; try lia.
  - split; [lia|]. exists (2 ^ k * Z.b2z r + t)%Z.
    split; [destruct r; cbn [Z.b2z]; lia|]. split; [|apply Hs'; reflexivity].
    destruct r; cbn [Z.b2z] in *; lia.
  - split; [lia|]. exists (2 ^ k * Z.b2z r + t)%Z.
    split; [destruct r; cbn [Z.b2z]; lia|]. split; [|apply Hs'; reflexivity].
    rewrite (Pos2Z.inj_xI p) in E. destruct r; cbn [Z.b2z] in *; lia.
  - split; [lia|]. exists (2 ^ k * Z.b2z r + t)%Z.
    split; [destruct r; cbn [Z.b2z]; lia|]. split; [|apply Hs'; reflexivity].
    rewrite (Pos2Z.inj_xO p) in E. destruct r; cbn [Z.b2z] in *; lia.
  - split; [lia|]. exists (2 ^ k * Z.b2z r + t)%Z.
    split; [destruct r; cbn [Z.b2z]; lia|]. split; [|apply Hs'; reflexivity].
    destruct r; cbn [Z.b2z] in *; lia.
Qed.

Lemma iter_shr_1_shifted (m0 : Z) (p : positive) :
  forall k mrs, (0 <= k)%Z -> shifted m0 k mrs ->
    shifted m0 (k + Zpos p) (iter_pos shr_1 p mrs).
Proof.
  induction p as [p IH|p IH|]; intros k mrs Hk H; cbn [iter_pos].
  - replace (k + Zpos p~1)%Z with (k + 1 + Zpos p + Zpos p)%Z by lia.
    apply IH; [lia|]. apply IH; [lia|]. apply shr_1_shifted; assumption.
  - replace (k + Zpos p~0)%Z with (k + Zpos p + Zpos p)%Z by lia.
    apply IH; [lia|]. apply IH; assumption.
  - apply shr_1_shifted; assumption.
Qed.

(** The rounding of the shifted mantissa gives an integer nearest to
    [m * 2^e], the even one of two. *)
Lemma round_shifted_nearest (m : positive) (e : Z) :
  (e < 0)%Z ->
  let mrs := fst (shr (shr_record_of_loc (Zpos m) loc_Exact) e (- e)) in
  let n := round_nearest_even (shr_m mrs) (loc_of_shr_record mrs) in
  (0 <= n)%Z /\ nearest_even m e n.
Proof.
  intros He. unfold shr. destruct (- e)%Z as [|p|p] eqn:Ee; try lia.
  cbn [fst shr_record_of_loc]. unfold nearest_even. rewrite Ee.
  assert (H0 : shifted (Zpos m) 0 (Build_shr_record (Zpos m) false false)).
  { split; [cbn; lia|]. exists 0%Z. cbn. split; [lia|]. split; [lia|].
    split; [discriminate|lia]. }
  pose proof (iter_shr_1_shifted (Zpos m) p 0 _ (Z.le_refl 0) H0) as H.
  cbn [Z.add] in H.
  destruct (iter_pos shr_1 p (Build_shr_record (Zpos m) false false)) as [q r s].
  destruct H as [Hq [t [Ht [E Hs]]]]. cbn [shr_m shr_r shr_s] in *.
  assert (Hd : (2 <= 2 ^ Zpos p)%Z).
  { change 2%Z with (2 ^ 1)%Z at 1. apply Z.pow_le_mono_r; lia. }
  set (d := (2 ^ Zpos p)%Z) in *. cbn zeta.
  destruct r, s; cbn [loc_of_shr_record round_nearest_even Z.b2z] in *.
  - assert (0 < t)%Z by (apply Hs; reflexivity). split; [lia|]. split; lia.
  - assert (t = 0)%Z.
    { destruct (Z.eq_dec t 0) as [->|Hne]; [reflexivity|].
      assert (Hf : false = true) by (apply Hs; lia). discriminate Hf. }
    subst t. destruct (Z.even q) eqn:Ev.
    + split; [lia|]. split; [lia|]. intros _. exact Ev.
    + split; [lia|]. split; [lia|]. intros _.
      rewrite Z.even_add, Ev. reflexivity.
  - assert (0 < t)%Z by (apply Hs; reflexivity). split; [lia|]. split; lia.
  - assert (t = 0)%Z.
    { destruct (Z.eq_dec t 0) as [->|Hne]; [reflexivity|].
      assert (Hf : false = true) by (apply Hs; lia). discriminate Hf. }
    subst t. split; [lia|]. split; lia.
Qed.

Lemma div_decimal4 (s : bool) (n : Z) :
  (0 <= n)%Z ->
  SFdiv prec emax (binary_normalize prec emax (cond_Zopp s n) 0 s) (of_int 10000)
  = decimal4 s n.
Proof.
  intros Hn. unfold decimal4, lit, of_int. destruct n as [|p|p]; [| |lia].
  - destruct s; reflexivity.
  - destruct s; reflexivity.
Qed.

(** [round(4)] as numpy computes it rounds to four decimal places. *)
Lemma np_round4_rounded4 (x : float) : rounded4 x (np_round4 x).
Proof.
  unfold rounded4, np_round4.
  destruct (SFmul prec emax x (of_int 10000)) as [s|s| |s m e]; try reflexivity.
  destruct (e <? 0)%Z eqn:He.
  - apply Z.ltb_lt in He.
    destruct (round_shifted_nearest m e He) as [Hn Hnear]. cbn zeta in *.
    eexists. split; [exact Hn|]. split; [exact Hnear|].
    unfold rint. replace (0 <=? e)%Z with false by (symmetry; apply Z.leb_gt; lia).
    apply div_decimal4, Hn.
  - apply Z.ltb_ge in He. unfold rint.
    replace (0 <=? e)%Z with true by (symmetry; apply Z.leb_le; lia).
    reflexivity.
Qed.

(** A float has one rounding to four decimal places. *)
Lemma nearest_even_unique (m : positive) (e k1 k2 : Z) :
  (e < 0)%Z -> nearest_even m e k1 -> nearest_even m e k2 -> k1 = k2.
Proof.
  unfold nearest_even. intros He [B1 T1] [B2 T2].
  assert (Hd : (2 <= 2 ^ (- e))%Z).
  { change 2%Z with (2 ^ 1)%Z at 1. apply Z.pow_le_mono_r; lia. }
  set (d := (2 ^ (- e))%Z) in *.
  assert (Hk : (k1 = k2 \/ k1 = k2 + 1 \/ k2 = k1 + 1)%Z) by nia.
  destruct Hk as [H|[H|H]]; [exact H| |]; exfalso.
  - subst k1. assert (E1 : (Z.abs (2 * (Zpos m - (k2 + 1) * d)) = d)%Z) by nia.
    assert (E2 : (Z.abs (2 * (Zpos m - k2 * d)) = d)%Z) by nia.
    specialize (T1 E1). specialize (T2 E2).
    rewrite Z.even_add, T2 in T1. discriminate T1.
  - subst k2. assert (E1 : (Z.abs (2 * (Zpos m - (k1 + 1) * d)) = d)%Z) by nia.
    assert (E2 : (Z.abs (2 * (Zpos m - k1 * d)) = d)%Z) by nia.
    specialize (T1 E2). specialize (T2 E1).
    rewrite Z.even_add, T1 in T2. discriminate T2.
Qed.

Lemma rounded4_unique (x y1 y2 : float) :
  rounded4 x y1 -> rounded4 x y2 -> y1 = y2.
Proof.
  unfold rounded4.
  destruct (SFmul prec emax x (of_int 10000)) as [s|s| |s m e]; try congruence.
  destruct (e <? 0)%Z eqn:He; [|congruence].
  apply Z.ltb_lt in He. intros [k1 [_ [N1 ->]]] [k2 [_ [N2 ->]]].
  rewrite (nearest_even_unique m e k1 k2 He N1 N2). reflexivity.
Qed.

End Rounding.

(** *** Rounding and the number that is rounded *)

Module Places.
Local Open Scope Z_scope.

(** The float of [10**4]. *)
Lemma of_int_10000 : of_int 10000 = S754_finite false 5497558138880000 (-39).
Proof. reflexivity. Qed.

(** The rounding of a shifted mantissa is an integer nearest to it. *)
Lemma round_shifted (m0 k : Z) (mrs : shr_record) :
  0 <= k -> shifted m0 k mrs ->
  let n := round_nearest_even (shr_m mrs) (loc_of_shr_record mrs) in
  0 <= n /\ Z.abs (2 * (m0 - n * 2 ^ k)) <= 2 ^ k.
Proof.
  intros Hk [Hq [t [Ht [E Hs]]]]. destruct mrs as [q r s].
  cbn [shr_m shr_r shr_s] in *.
  assert (Hd : 0 < 2 ^ k) by (apply Z.pow_pos_nonneg; lia).
  set (d := 2 ^ k) in *. cbn zeta.
  destruct r, s; cbn [loc_of_shr_record round_nearest_even Z.b2z] in *.
  - assert (0 < t) by (apply Hs; reflexivity). split; lia.
  - assert (t = 0).
    { destruct (Z.eq_dec t 0) as [->|Hne]; [reflexivity|].
      assert (Hf : false = true) by (apply Hs; lia). discriminate Hf. }
    subst t. destruct (Z.even q); split; lia.
  - assert (0 < t) by (apply Hs; reflexivity). split; lia.
  - assert (t = 0).
    { destruct (Z.eq_dec t 0) as [->|Hne]; [reflexivity|].
      assert (Hf : false = true) by (apply Hs; lia). discriminate Hf. }
    subst t. split; lia.
Qed.


(** A mantissa that was not shifted. *)
Lemma shifted_0 (P : positive) :
  shifted (Zpos P) 0 (shr_record_of_loc (Zpos P) loc_Exact).
Proof.
  split; [cbn; lia|]. exists 0. cbn. split; [lia|]. split; [lia|].
  split; [discriminate|lia].
Qed.

(** The first step of the rounding of a product: the mantissa shifted to
    the exponent of the format and rounded is within half a unit of what
    it stands for. *)
Lemma shr_fexp_round (P : positive) (e0 : Z) :
  let e1 := fexp prec emax (Zpos (digits2_pos P) + e0) in
  e0 <= e1 ->
  exists mrs,
    shr_fexp prec emax (Zpos P) e0 loc_Exact = (mrs, e1)
    /\ let m1 := round_nearest_even (shr_m mrs) (loc_of_shr_record mrs) in
       0 <= m1 /\ Z.abs (2 * (Zpos P - m1 * 2 ^ (e1 - e0))) <= 2 ^ (e1 - e0).
Proof.
  intros e1 He. unfold shr_fexp, shr. cbn [Zdigits2]. fold e1.
  destruct (e1 - e0) as [|p|p] eqn:En; [| |lia].
  - eexists. split; [f_equal; lia|].
    apply (round_shifted (Zpos P) 0); [lia|apply shifted_0].
  - eexists. split; [f_equal; lia|].
    apply (round_shifted (Zpos P) (Zpos p)); [lia|].
    apply (Rounding.iter_shr_1_shifted (Zpos P) p 0); [lia|apply shifted_0].
Qed.

(** The second step leaves a mantissa of at most [prec] digits as it is,
    and halves the mantissa [2^prec]. *)
Lemma shr_fexp_exact (m1 e1 : Z) :
  emin prec emax <= e1 -> 0 <= m1 <= 2 ^ 53 ->
  exists q e,
    shr_m (fst (shr_fexp prec emax m1 e1 loc_Exact)) = q
    /\ snd (shr_fexp prec emax m1 e1 loc_Exact) = e
    /\ 0 <= q /\ e1 <= e <= e1 + 1 /\ q * 2 ^ (e - e1) = m1.
Proof.
  intros He [H0 H1]. unfold shr_fexp.
  destruct m1 as [|p|p]; [| |lia].
  - cbn [Zdigits2]. unfold shr.
    assert (Hn : fexp prec emax (0 + e1) - e1 <= 0)
      by (unfold fexp, emin, prec, emax in *; lia).
    destruct (fexp prec emax (0 + e1) - e1) as [|k|k]; [| lia|];
      exists 0, e1; cbn [fst snd shr_m shr_record_of_loc];
      rewrite Z.sub_diag; repeat split; lia.
  - cbn [Zdigits2]. pose proof (FloatSub.digits2_bounds p) as [Hlo Hhi].
    set (D := Zpos (digits2_pos p)) in *.
    destruct (Z.eq_dec (Zpos p) (2 ^ 53)) as [E|Hne].
    + assert (HD : D = 54).
      { assert (D - 1 < 54) by (apply (Z.pow_lt_mono_r_iff 2); lia).
        assert (53 < D) by (apply (Z.pow_lt_mono_r_iff 2); lia). lia. }
      rewrite HD. unfold shr.
      replace (fexp prec emax (54 + e1) - e1) with 1
        by (unfold fexp, emin, prec, emax in *; lia).
      exists (2 ^ 52), (e1 + 1). cbn [fst snd].
      injection E as ->. cbn [iter_pos shr_record_of_loc shr_1 shr_m].
      split; [reflexivity|]. split; [reflexivity|].
      replace (e1 + 1 - e1) with 1 by lia. repeat split; lia.
    + assert (HD : D <= 53).
      { assert (D - 1 < 53); [|lia]. apply (Z.pow_lt_mono_r_iff 2); lia. }
      unfold shr.
      assert (Hn : fexp prec emax (D + e1) - e1 <= 0)
        by (unfold fexp, emin, prec, emax in *; lia).
      destruct (fexp prec emax (D + e1) - e1) as [|k|k]; [| lia|];
        exists (Zpos p), e1; cbn [fst snd shr_m shr_record_of_loc];
        rewrite Z.sub_diag; repeat split; lia.
Qed.


(** The binary64 product of a number of absolute value at most one and
    [10**4] is within [2^-40] of the exact product. *)
Lemma mul_10000 (s : bool) (mx : positive) (ex : Z) :
  ex <= 0 -> Zpos mx <= 2 ^ (- ex) ->
  exists q e,
    SFmul prec emax (S754_finite s mx ex) (of_int 10000)
    = match q with
      | Z0 => S754_zero s
      | Zpos m => S754_finite s m e
      | Zneg _ => S754_nan
      end
    /\ 0 <= q /\ e < 0
    /\ 2 ^ 40 * Z.abs (Zpos mx * 10000 * 2 ^ (- e) - q * 2 ^ (- ex))
       <= 2 ^ (- ex) * 2 ^ (- e).
Proof.
  intros Hex Hmx. rewrite of_int_10000.
  change (SFmul prec emax (S754_finite s mx ex)
            (S754_finite false 5497558138880000 (-39)))
    with (binary_round_aux prec emax (xorb s false)
            (Zpos (mx * 5497558138880000)) (ex + -39) loc_Exact).
  rewrite xorb_false_r. unfold binary_round_aux.
  set (P := (mx * 5497558138880000)%positive).
  set (e0 := ex + -39).
  assert (HP : Zpos P = Zpos mx * 10000 * 2 ^ 39) by (unfold P; lia).
  pose proof (FloatSub.digits2_bounds P) as [Hlo Hhi].
  set (D := Zpos (digits2_pos P)) in *.
  assert (HR : 0 < 2 ^ (- ex)) by (apply Z.pow_pos_nonneg; lia).
  assert (HD1 : 53 <= D).
  { assert (52 < D); [|lia]. apply (Z.pow_lt_mono_r_iff 2); lia. }
  assert (HD2 : D + ex <= 53).
  { assert (D - 1 < 53 - ex); [|lia]. apply (Z.pow_lt_mono_r_iff 2); [lia|lia|].
    replace (53 - ex) with (- ex + 53) by lia. rewrite Z.pow_add_r by lia. nia. }
  set (e1 := fexp prec emax (D + e0)).
  assert (He1 : e0 <= e1 /\ e1 <= -39 /\ emin prec emax <= e1 /\ D - 53 <= e1 - e0)
    by (unfold e1, e0, fexp, emin, prec, emax in *; lia).
  destruct He1 as [He01 [He1 [Hemin Hn]]].
  destruct (shr_fexp_round P e0 He01) as [mrs [E1 [Hm1 Hb]]].
  change (shr_fexp prec emax (Zpos P) e0 loc_Exact = (mrs, e1)) in E1. rewrite E1.
  set (m1 := round_nearest_even (shr_m mrs) (loc_of_shr_record mrs)) in *.
  change (Z.abs (2 * (Zpos P - m1 * 2 ^ (e1 - e0))) <= 2 ^ (e1 - e0)) in Hb.
  set (n := e1 - e0) in *.
  assert (HA : 0 < 2 ^ n) by (apply Z.pow_pos_nonneg; lia).
  assert (HDn : 2 ^ D <= 2 ^ 53 * 2 ^ n).
  { rewrite <- Z.pow_add_r by lia. apply Z.pow_le_mono_r; lia. }
  assert (Hm1' : m1 <= 2 ^ 53).
  { assert (H : 2 * m1 * 2 ^ n < (2 ^ 54 + 1) * 2 ^ n).
    { change (2 ^ 54) with (2 * 2 ^ 53). set (W := 2 ^ 53) in *.
      set (A := 2 ^ n) in *. set (V := 2 ^ D) in *.
      replace ((2 * W + 1) * A) with (2 * (W * A) + A) by ring. lia. }
    apply Z.mul_lt_mono_pos_r in H; [|exact HA]. lia. }
  destruct (shr_fexp_exact m1 e1 Hemin (conj Hm1 Hm1')) as [q [e [Eq [Ee [Hq [He Hqm]]]]]].
  destruct (shr_fexp prec emax m1 e1 loc_Exact) as [mrs2 e2].
  cbn [fst snd] in Eq, Ee. subst e2. rewrite Eq.
  exists q, e. split.
  { destruct q as [|m|m]; try reflexivity.
    replace (e <=? emax - prec) with true; [reflexivity|].
    symmetry. apply Z.leb_le. unfold emax, prec. lia. }
  split; [exact Hq|]. split; [lia|].
  set (R := 2 ^ (- ex)) in *.
  assert (HG : 0 < 2 ^ (- e)) by (apply Z.pow_pos_nonneg; lia).
  set (G := 2 ^ (- e)) in *.
  assert (HU : 0 < 2 ^ (e - e1)) by (apply Z.pow_pos_nonneg; lia).
  set (U := 2 ^ (e - e1)) in *.
  set (A := 2 ^ n) in *.
  assert (HB : G * U = 2 ^ (- e1)).
  { unfold G, U. rewrite <- Z.pow_add_r by lia. f_equal. lia. }
  assert (HAB : A * (G * U) = 2 ^ 39 * R).
  { rewrite HB. unfold A, R, n, e0. rewrite <- !Z.pow_add_r by lia. f_equal. lia. }
  assert (HB39 : 2 ^ 39 <= G * U).
  { rewrite HB. apply Z.pow_le_mono_r; lia. }
  set (X := Zpos mx * 10000 * G - q * R).
  assert (HX : (Zpos P - m1 * A) * (G * U) = 2 ^ 39 * U * X).
  { rewrite HP, <- Hqm. unfold X.
    transitivity (Zpos mx * 10000 * 2 ^ 39 * (G * U) - q * U * (A * (G * U)));
      [ring|]. rewrite HAB. ring. }
  assert (H1 : Z.abs (2 * (Zpos P - m1 * A)) * (G * U) <= A * (G * U))
    by (apply Z.mul_le_mono_nonneg_r; [lia|exact Hb]).
  assert (H2 : 2 * (2 ^ 39 * U * Z.abs X) <= 2 ^ 39 * R).
  { rewrite <- HAB. 
    replace (2 * (2 ^ 39 * U * Z.abs X)) with (Z.abs (2 * (2 ^ 39 * U * X)))
      by (rewrite !Z.abs_mul; rewrite (Z.abs_eq 2), (Z.abs_eq (2 ^ 39)), (Z.abs_eq U); lia).
    rewrite <- HX.
    replace (2 * ((Zpos P - m1 * A) * (G * U))) with (2 * (Zpos P - m1 * A) * (G * U)) by ring.
    rewrite Z.abs_mul, (Z.abs_eq (G * U)) by lia. exact H1. }
  assert (H3 : 2 * U * Z.abs X <= R) by lia.
  assert (H4 : 2 ^ 39 * (2 * U * Z.abs X) <= (G * U) * R)
    by (apply Z.mul_le_mono_nonneg; lia).
  assert (H5 : U * (2 ^ 40 * Z.abs X) <= U * (R * G)).
  { replace (U * (2 ^ 40 * Z.abs X)) with (2 ^ 39 * (2 * U * Z.abs X)) by ring.
    replace (U * (R * G)) with (G * U * R) by ring. exact H4. }
  apply Z.mul_le_mono_pos_l in H5; [exact H5|exact HU].
Qed.


(** [round(4)] of a number of absolute value at most one: a number of
    ten-thousandths within half a ten-thousandth of it, up to the error
    of the product. *)
Lemma np_round4_to_4_places (x : float) :
  unit_magnitude x -> to_4_places x (np_round4 x).
Proof.
  destruct x as [s|s| |s m e]; cbn [unit_magnitude]; try contradiction.
  - intros _. exists 0. split; [lia|]. split; [reflexivity|].
    destruct s; reflexivity.
  - intros [He Hm].
    destruct (mul_10000 s m e He Hm) as [q [e' [Emul [Hq [He' Herr]]]]].
    pose proof (Rounding.np_round4_rounded4 (S754_finite s m e)) as H.
    unfold rounded4 in H. rewrite Emul in H.
    assert (HR : 0 < 2 ^ (- e)) by (apply Z.pow_pos_nonneg; lia).
    assert (HG : 0 < 2 ^ (- e')) by (apply Z.pow_pos_nonneg; lia).
    set (R := 2 ^ (- e)) in *. set (G := 2 ^ (- e')) in *.
    destruct q as [|mq|mq]; [| |lia].
    + exists 0. split; [lia|]. split.
      * cbn [within_half_unit]. fold R.
        rewrite Z.mul_0_l, Z.sub_0_r in *.
        rewrite Z.abs_mul, (Z.abs_eq G) in Herr by lia.
        assert (H1 : G * (2 ^ 40 * Z.abs (Zpos m * 10000)) <= G * R)
          by (replace (G * R) with (R * G) by ring;
              replace (G * (2 ^ 40 * Z.abs (Zpos m * 10000)))
                with (2 ^ 40 * (Z.abs (Zpos m * 10000) * G)) by ring; exact Herr).
        apply Z.mul_le_mono_pos_l in H1; [|exact HG]. lia.
      * rewrite H. destruct s; reflexivity.
    + replace (e' <? 0) with true in H by (symmetry; apply Z.ltb_lt; exact He').
      destruct H as [k [Hk [[Hn _] Hy]]]. fold G in Hn.
      exists k. split; [exact Hk|]. split; [|exact Hy].
      cbn [within_half_unit]. fold R.
      set (a := Zpos m * 10000) in *.
      assert (H1 : 2 ^ 40 * Z.abs (a * G - k * G * R)
                   <= 2 ^ 40 * Z.abs (a * G - Zpos mq * R)
                      + 2 ^ 39 * R * Z.abs (2 * (Zpos mq - k * G))).
      { replace (a * G - k * G * R)
          with ((a * G - Zpos mq * R) + R * (Zpos mq - k * G)) by ring.
        pose proof (Z.abs_triangle (a * G - Zpos mq * R) (R * (Zpos mq - k * G))) as T.
        rewrite (Z.abs_mul 2), (Z.abs_eq 2) by lia.
        rewrite (Z.abs_mul R), (Z.abs_eq R) in T by lia.
        change (2 ^ 40) with (2 * 2 ^ 39). nia. }
      assert (H2 : 2 ^ 39 * R * Z.abs (2 * (Zpos mq - k * G)) <= 2 ^ 39 * R * G)
        by (apply Z.mul_le_mono_nonneg_l; [lia|exact Hn]).
      assert (H3 : G * (2 ^ 40 * Z.abs (a - k * R)) <= G * ((2 ^ 39 + 1) * R)).
      { replace (G * (2 ^ 40 * Z.abs (a - k * R)))
          with (2 ^ 40 * Z.abs (a * G - k * G * R)).
        - replace (G * ((2 ^ 39 + 1) * R)) with (R * G + 2 ^ 39 * R * G) by ring. lia.
        - replace (a * G - k * G * R) with ((a - k * R) * G) by ring.
          rewrite Z.abs_mul, (Z.abs_eq G) by lia. ring. }
      apply Z.mul_le_mono_pos_l in H3; [exact H3|exact HG].
Qed.

(** The scores of the data model are of absolute value at most one. *)
Lemma is_score_unit_magnitude (x : float) : is_score x -> unit_magnitude x.
Proof.
  intros Hs.
  destruct (FloatSub.is_score_cases x Hs) as [[s ->]|[m [e [-> B]]]]; [exact I|].
  destruct Hs as [_ [_ H1]].
  apply FloatOrder.leb_key in H1; [|reflexivity|reflexivity].
  unfold f1_0 in H1. cbn [key lex_le lex_lt] in H1.
  destruct (FloatSub.bounded_digits m e B) as [_ [Hm _]].
  cbn [unit_magnitude]. split; [lia|].
  assert (He : e < -52 \/ e = -52) by lia. destruct He as [He| ->].
  - apply Z.lt_le_incl. eapply Z.lt_le_trans; [exact Hm|].
    apply Z.pow_le_mono_r; unfold prec; lia.
  - change (2 ^ (- -52)) with 4503599627370496. lia.
Qed.

End Places.

(** ** The comparison table against the specification *)

Lemma lookup_pair (col : string) (v : float) (cells : list (string * float)) :
  NoDup (map fst cells) -> In (col, v) cells -> lookup col cells = Some v.
Proof.
  induction cells as [|[c w] cells IH]; intros Hnd Hin; [destruct Hin|].
  cbn [map fst] in Hnd. apply NoDup_cons_iff in Hnd. destruct Hnd as [Hc Hnd].
  cbn [lookup]. destruct Hin as [E|Hin].
  - injection E as -> ->. rewrite String.eqb_refl. reflexivity.
  - destruct (String.eqb_spec c col) as [->|_]; [|apply IH; assumption].
    exfalso. apply Hc. apply (in_map fst) in Hin. exact Hin.
Qed.

Lemma lookup_some_pair (col : string) (v : float) (cells : list (string * float)) :
  lookup col cells = Some v -> In (col, v) cells.
Proof.
  induction cells as [|[c w] cells IH]; cbn [lookup]; [discriminate|].
  destruct (String.eqb_spec c col) as [->|_].
  - intros E. injection E as ->. left; reflexivity.
  - intros E. right. apply IH, E.
Qed.

Lemma distinct_columns_questions (r : QuestionRow) :
  distinct_columns r ->
  NoDup (map fst (questions r))
  /\ forall col, In col (map fst (questions r)) ->
       in_list col ["Country"; "Country_clean"] = false.
Proof.
  unfold distinct_columns. intros H.
  apply NoDup_cons_iff in H. destruct H as [H1 H].
  apply NoDup_cons_iff in H. destruct H as [H2 H].
  split; [exact H|]. intros col Hc. unfold in_list. cbn [existsb].
  destruct (String.eqb_spec col "Country") as [->|_];
    [exfalso; apply H1; right; exact Hc|].
  destruct (String.eqb_spec col "Country_clean") as [->|_];
    [exfalso; apply H2; exact Hc|reflexivity].
Qed.

Lemma question_in_columns (r : QuestionRow) (col : string) :
  In col (map fst (questions r)) -> In col (columns r).
Proof. intros H. unfold columns. right. apply in_or_app. left; exact H. Qed.

(** The rows of [combined_scores] in terms of the cells of the two
    records. *)
Lemma kept_rows_of_pairs (et_row baseline_row : QuestionRow) :
  distinct_columns et_row -> distinct_columns baseline_row ->
  (forall col e b,
     In (col, e) (questions et_row) -> In (col, b) (questions baseline_row) ->
     (In (score_row col e b)
        (flat_map (kept_row et_row baseline_row) (columns et_row))
      <-> scored e b))
  /\ (forall row,
        In row (flat_map (kept_row et_row baseline_row) (columns et_row)) ->
        exists col e b,
          In (col, e) (questions et_row) /\ In (col, b) (questions baseline_row)
          /\ scored e b /\ row = score_row col e b).
Proof.
  intros Det Dbl.
  destruct (distinct_columns_questions _ Det) as [Net Iet].
  destruct (distinct_columns_questions _ Dbl) as [Nbl _].
  split.
  - intros col e b He Hb. rewrite in_kept_rows. unfold scored.
    rewrite <- both_scored_iff. split.
    + intros [col' [e' [b' [_ [_ [_ [_ [Hs Hrow]]]]]]]].
      unfold score_row in Hrow. injection Hrow as _ -> -> _. exact Hs.
    + intros Hs. exists col, e, b.
      assert (Hc : In col (map fst (questions et_row)))
        by (apply (in_map fst) in He; exact He).
      split; [apply question_in_columns, Hc|]. split; [apply Iet, Hc|].
      split; [apply lookup_pair; assumption|].
      split; [apply lookup_pair; assumption|]. auto.
  - intros row Hrow. apply in_kept_rows in Hrow.
    destruct Hrow as [col [e [b [_ [_ [Ee [Eb [Hs ->]]]]]]]].
    exists col, e, b. split; [apply lookup_some_pair, Ee|].
    split; [apply lookup_some_pair, Eb|]. split; [|reflexivity].
    unfold scored. apply both_scored_iff, Hs.
Qed.

(** C3. When the Baseline record carries every question identifier of
    the Electric Twin record, the loop ends normally, and the pair of
    the two cells of an identifier gives a row of [combined_scores] if
    and only if both cells are present (not NaN) and both differ from
    zero; [combined_scores] has no other row. *)
Theorem combined_scores_keeps_scored_pairs (et_row baseline_row : QuestionRow) :
  distinct_columns et_row -> distinct_columns baseline_row ->
  (forall col, In col (map fst (questions et_row)) ->
     In col (map fst (questions baseline_row))) ->
  exists records,
    combined_scores et_row baseline_row = Ok records
    /\ (forall col et_score baseline_score,
          In (col, et_score) (questions et_row) ->
          In (col, baseline_score) (questions baseline_row) ->
          (In {| Question := replace "." " " col;
                 Electric_Twin := et_score;
                 Baseline := baseline_score;
                 Difference := (et_score - baseline_score)%float |} records
           <-> isnan et_score = false /\ isnan baseline_score = false
               /\ (et_score ==? zero)%float = false
               /\ (baseline_score ==? zero)%float = false))
    /\ (forall row, In row records ->
          exists col et_score baseline_score,
            In (col, et_score) (questions et_row)
            /\ In (col, baseline_score) (questions baseline_row)
            /\ row = {| Question := replace "." " " col;
                        Electric_Twin := et_score;
                        Baseline := baseline_score;
                        Difference := (et_score - baseline_score)%float |}).
Proof.
  intros Det Dbl Hcols. eexists. split; [apply combined_scores_ok, Hcols|].
  destruct (kept_rows_of_pairs et_row baseline_row Det Dbl) as [Hiff Hall].
  split.
  - intros col e b He Hb. apply (Hiff col e b He Hb).
  - intros row Hrow. destruct (Hall row Hrow) as [col [e [b [He [Hb [_ ->]]]]]].
    exists col, e, b. auto.
Qed.

Lemma combined_scores_keeps_scored_pairs_witness :
  exists records,
    combined_scores example_et example_baseline = Ok records
    /\ (In {| Question := "q1"; Electric_Twin := lit 9 10; Baseline := lit 7 10;
              Difference := (lit 9 10 - lit 7 10)%float |} records
        <-> isnan (lit 9 10) = false /\ isnan (lit 7 10) = false
            /\ (lit 9 10 ==? zero)%float = false
            /\ (lit 7 10 ==? zero)%float = false)
    /\ (In {| Question := "q2"; Electric_Twin := zero; Baseline := lit 5 10;
              Difference := (zero - lit 5 10)%float |} records
        <-> isnan zero = false /\ isnan (lit 5 10) = false
            /\ (zero ==? zero)%float = false
            /\ (lit 5 10 ==? zero)%float = false).
Proof.
  destruct (combined_scores_keeps_scored_pairs example_et example_baseline)
    as [records [E [Hiff _]]].
  - unfold distinct_columns. repeat constructor; cbn; intuition discriminate.
  - unfold distinct_columns. repeat constructor; cbn; intuition discriminate.
  - cbn. tauto.
  - exists records. split; [exact E|]. split.
    + apply (Hiff "q1" (lit 9 10) (lit 7 10)); [left; reflexivity|left; reflexivity].
    + apply (Hiff "q2" zero (lit 5 10));
        [right; left; reflexivity|right; left; reflexivity].
Defined.

(** C3, as the claim words it.  The Baseline record of [V] has no
    identifier [q2]: the loop raises KeyError there, so the pair of
    [q1], whose two values are present and other than zero, is in no
    output, and the pair of [q2] is not left out of an output either. *)
Lemma absent_identifier_raises :
  In ("q1", lit 9 10) (questions short_et)
  /\ In ("q1", lit 7 10) (questions short_baseline)
  /\ scored (lit 9 10) (lit 7 10)
  /\ combined_scores short_et short_baseline = Raise (KeyError "q2")
  /\ ~ (exists records,
          combined_scores short_et short_baseline = Ok records
          /\ In {| Question := "q1"; Electric_Twin := lit 9 10;
                   Baseline := lit 7 10;
                   Difference := (lit 9 10 - lit 7 10)%float |} records).
Proof.
  split; [left; reflexivity|]. split; [left; reflexivity|].
  split; [repeat split|]. split; [reflexivity|].
  intros [records [E _]]. discriminate E.
Qed.

(** *** Labels *)

Lemma replace_label (identifier : string) :
  label_of identifier (replace "." " " identifier).
Proof.
  unfold label_of. induction identifier as [|c s [IHl IHg]]; cbn [replace].
  - split; [reflexivity|]. intros i c H. destruct i; discriminate H.
  - split; [cbn [String.length]; rewrite IHl; reflexivity|].
    intros [|i] c' H; cbn [String.get] in *.
    + injection H as ->. reflexivity.
    + apply IHg, H.
Qed.

(** *** The table that is shown *)

(** The table, once both records are found, the identifiers agree and a
    pair is kept. *)
Lemma question_level_scores_found (et_df baseline_df : list QuestionRow)
  (selected_country : string) (et_row baseline_row : QuestionRow)
  (et_rest baseline_rest : list QuestionRow) :
  select_rows et_df selected_country = et_row :: et_rest ->
  select_rows baseline_df selected_country = baseline_row :: baseline_rest ->
  distinct_columns et_row -> distinct_columns baseline_row ->
  (forall col, In col (map fst (questions et_row)) ->
     In col (map fst (questions baseline_row))) ->
  (exists col e b,
     In (col, e) (questions et_row) /\ In (col, b) (questions baseline_row)
     /\ scored e b) ->
  let records := flat_map (kept_row et_row baseline_row) (columns et_row) in
  combined_scores et_row baseline_row = Ok records
  /\ (forall r, In r records -> isnan (Electric_Twin r) = false)
  /\ question_level_scores et_df baseline_df selected_country
     = Ok (Dataframe
             {| df_columns := ["Question"; "Electric Twin"; "Baseline"; "Difference"];
                df_rows := map (round_row np_round4) (sort_by_electric_twin records) |}).
Proof.
  intros Eet Ebl Det Dbl Hcols [col [e [b [He [Hb Hs]]]]] records.
  assert (Erec : combined_scores et_row baseline_row = Ok records)
    by (apply combined_scores_ok, Hcols).
  split; [exact Erec|]. split; [apply (combined_scores_notna _ _ _ Erec)|].
  rewrite PdSort.question_level_scores_eq.
  rewrite (country_detail_found sort_by_electric_twin np_round4 _ _ _ _ _ _ _ _
             Eet Ebl Erec).
  assert (Hin : In (score_row col e b) records)
    by (apply (proj1 (kept_rows_of_pairs et_row baseline_row Det Dbl)); assumption).
  destruct records as [|r0 records']; [destruct Hin|reflexivity].
Qed.

(** A table comes out only when the Baseline record carries the
    question identifiers of the Electric Twin record and a pair is kept:
    an identifier that is not there makes the loop raise KeyError, and so
    does the sort of a frame without rows, hence without columns. *)
Lemma question_level_scores_shown (et_df baseline_df : list QuestionRow)
  (selected_country : string) (et_row baseline_row : QuestionRow)
  (et_rest baseline_rest : list QuestionRow) (df : DataFrame) :
  select_rows et_df selected_country = et_row :: et_rest ->
  select_rows baseline_df selected_country = baseline_row :: baseline_rest ->
  distinct_columns et_row -> distinct_columns baseline_row ->
  question_level_scores et_df baseline_df selected_country = Ok (Dataframe df) ->
  (forall col, In col (map fst (questions et_row)) ->
     In col (map fst (questions baseline_row)))
  /\ (exists col e b,
        In (col, e) (questions et_row) /\ In (col, b) (questions baseline_row)
        /\ scored e b).
Proof.
  intros Eet Ebl Det Dbl Etab.
  destruct (distinct_columns_questions _ Det) as [_ Iet].
  destruct (combined_scores et_row baseline_row) as [records|err] eqn:Erec.
  2:{ rewrite PdSort.question_level_scores_eq in Etab. unfold country_detail in Etab.
      rewrite Eet, Ebl, Erec in Etab. discriminate Etab. }
  assert (Hcols : forall col, In col (map fst (questions et_row)) ->
                    In col (map fst (questions baseline_row))).
  { intros col Hc.
    destruct (lookup col (questions baseline_row)) as [b|] eqn:Eb;
      [apply (lookup_some_in _ _ _ Eb)|].
    destruct (combined_scores_missing_column et_row baseline_row col Hc (Iet col Hc) Eb)
      as [c [Hraise _]].
    rewrite Hraise in Erec. discriminate Erec. }
  split; [exact Hcols|].
  rewrite PdSort.question_level_scores_eq in Etab.
  rewrite (country_detail_found sort_by_electric_twin np_round4 _ _ _ _ _ _ _ _
             Eet Ebl Erec) in Etab.
  assert (Hrec : records = flat_map (kept_row et_row baseline_row) (columns et_row))
    by (rewrite (combined_scores_ok _ _ Hcols) in Erec; injection Erec as <-;
        reflexivity).
  destruct records as [|r0 records']; [discriminate Etab|].
  destruct (proj2 (kept_rows_of_pairs et_row baseline_row Det Dbl) r0)
    as [col [e [b [He [Hb [Hs _]]]]]]; [rewrite <- Hrec; left; reflexivity|].
  exists col, e, b. auto.
Qed.

(** C8. The table of the country is shown exactly when the Baseline
    record carries the question identifiers of the Electric Twin record
    and a pair of cells is kept.  In the table that is shown, a pair of
    cells that the comparison keeps has a row whose label is the question
    identifier with each dot turned into a space, whose two scores are
    the two cells rounded to four decimal places, and whose difference
    is the float difference of the two cells, Electric Twin minus
    Baseline, rounded to four decimal places; every row of the table is
    the row of such a pair.  Rounded is said twice: as numpy rounds
    ([rounded4], which fixes the float that is shown), and, for a number
    of absolute value at most one, as a number of ten-thousandths within
    half a ten-thousandth of it ([to_4_places]). *)
Theorem displayed_rows (et_df baseline_df : list QuestionRow)
  (selected_country : string) (et_row baseline_row : QuestionRow)
  (et_rest baseline_rest : list QuestionRow) :
  select_rows et_df selected_country = et_row :: et_rest ->
  select_rows baseline_df selected_country = baseline_row :: baseline_rest ->
  distinct_columns et_row -> distinct_columns baseline_row ->
  ((exists df,
      question_level_scores et_df baseline_df selected_country = Ok (Dataframe df))
   <-> (forall c, In c (map fst (questions et_row)) ->
          In c (map fst (questions baseline_row)))
       /\ (exists c e b,
             In (c, e) (questions et_row) /\ In (c, b) (questions baseline_row)
             /\ scored e b))
  /\ forall df,
       question_level_scores et_df baseline_df selected_country = Ok (Dataframe df) ->
       (forall col et_score baseline_score,
          In (col, et_score) (questions et_row) ->
          In (col, baseline_score) (questions baseline_row) ->
          isnan et_score = false /\ isnan baseline_score = false
          /\ (et_score ==? zero)%float = false
          /\ (baseline_score ==? zero)%float = false ->
          exists row,
            In row (df_rows df)
            /\ label_of col (Question row)
            /\ rounded4 et_score (Electric_Twin row)
            /\ rounded4 baseline_score (Baseline row)
            /\ rounded4 (et_score - baseline_score)%float (Difference row)
            /\ (unit_magnitude et_score ->
                to_4_places et_score (Electric_Twin row))
            /\ (unit_magnitude baseline_score ->
                to_4_places baseline_score (Baseline row))
            /\ (unit_magnitude (et_score - baseline_score)%float ->
                to_4_places (et_score - baseline_score)%float (Difference row)))
       /\ (forall row, In row (df_rows df) ->
             exists c e b,
               In (c, e) (questions et_row) /\ In (c, b) (questions baseline_row)
               /\ scored e b
               /\ label_of c (Question row)
               /\ rounded4 e (Electric_Twin row)
               /\ rounded4 b (Baseline row)
               /\ rounded4 (e - b)%float (Difference row)
               /\ (unit_magnitude e -> to_4_places e (Electric_Twin row))
               /\ (unit_magnitude b -> to_4_places b (Baseline row))
               /\ (unit_magnitude (e - b)%float ->
                   to_4_places (e - b)%float (Difference row))).
Proof.
  intros Eet Ebl Det Dbl. split.
  - split.
    + intros [df Etab].
      apply (question_level_scores_shown et_df baseline_df selected_country
               et_row baseline_row et_rest baseline_rest df); assumption.
    + intros [Hcols Hkept].
      destruct (question_level_scores_found et_df baseline_df selected_country
                  et_row baseline_row et_rest baseline_rest Eet Ebl Det Dbl Hcols Hkept)
        as [_ [_ Etab]].
      eexists. exact Etab.
  - intros df Etab.
    destruct (question_level_scores_shown et_df baseline_df selected_country
                et_row baseline_row et_rest baseline_rest df Eet Ebl Det Dbl Etab)
      as [Hcols Hkept].
    destruct (question_level_scores_found et_df baseline_df selected_country
                et_row baseline_row et_rest baseline_rest Eet Ebl Det Dbl Hcols Hkept)
      as [_ [Hna Etab']].
    cbn zeta in *.
    set (records := flat_map (kept_row et_row baseline_row) (columns et_row)) in *.
    rewrite Etab' in Etab. injection Etab as <-. cbn [df_rows].
    pose proof (PdSort.sort_by_electric_twin_perm records Hna) as Hperm.
    destruct (kept_rows_of_pairs et_row baseline_row Det Dbl) as [Hiff Hall].
    assert (Hrow : forall c e b,
              label_of c (Question (round_row np_round4 (score_row c e b)))
              /\ rounded4 e (Electric_Twin (round_row np_round4 (score_row c e b)))
              /\ rounded4 b (Baseline (round_row np_round4 (score_row c e b)))
              /\ rounded4 (e - b)%float
                   (Difference (round_row np_round4 (score_row c e b)))
              /\ (unit_magnitude e ->
                  to_4_places e (Electric_Twin (round_row np_round4 (score_row c e b))))
              /\ (unit_magnitude b ->
                  to_4_places b (Baseline (round_row np_round4 (score_row c e b))))
              /\ (unit_magnitude (e - b)%float ->
                  to_4_places (e - b)%float
                    (Difference (round_row np_round4 (score_row c e b))))).
    { intros c e b.
      cbn [round_row score_row Question Electric_Twin Baseline Difference].
      split; [apply replace_label|].
      do 3 (split; [apply Rounding.np_round4_rounded4|]).
      repeat split; apply Places.np_round4_to_4_places. }
    split.
    + intros col e b He Hb Hs.
      exists (round_row np_round4 (score_row col e b)).
      split; [|apply Hrow]. apply in_map, (Permutation_in _ Hperm).
      apply (Hiff col e b He Hb), Hs.
    + intros row Hin. apply in_map_iff in Hin. destruct Hin as [r [<- Hr]].
      apply (Permutation_in _ (Permutation_sym Hperm)), Hall in Hr.
      destruct Hr as [c [e [b [Hc [Hc' [Hs ->]]]]]]. exists c, e, b.
      split; [exact Hc|]. split; [exact Hc'|]. split; [exact Hs|]. apply Hrow.
Qed.

Lemma displayed_rows_witness :
  exists df,
    question_level_scores [dotted_et] [dotted_baseline] "U" = Ok (Dataframe df)
    /\ exists row,
         In row (df_rows df)
         /\ label_of "Q1.trust.in.science" (Question row)
         /\ rounded4 (lit 123456 1000000) (Electric_Twin row)
         /\ rounded4 (lit 5 10) (Baseline row)
         /\ rounded4 (lit 123456 1000000 - lit 5 10)%float (Difference row)
         /\ to_4_places (lit 123456 1000000) (Electric_Twin row)
         /\ to_4_places (lit 5 10) (Baseline row)
         /\ to_4_places (lit 123456 1000000 - lit 5 10)%float (Difference row).
Proof.
  destruct (displayed_rows [dotted_et] [dotted_baseline] "U"
              dotted_et dotted_baseline [] [] eq_refl eq_refl) as [[_ Hex] Hrows].
  - unfold distinct_columns. repeat constructor; cbn; intuition discriminate.
  - unfold distinct_columns. repeat constructor; cbn; intuition discriminate.
  - destruct Hex as [df E].
    + split; [cbn; tauto|].
      exists "Q1.trust.in.science", (lit 123456 1000000), (lit 5 10).
      split; [left; reflexivity|]. split; [left; reflexivity|]. repeat split.
    + exists df. split; [exact E|].
      destruct (proj1 (Hrows df E) "Q1.trust.in.science" (lit 123456 1000000)
                  (lit 5 10)) as [row [Hin [Hl [R1 [R2 [R3 [P1 [P2 P3]]]]]]]];
        [left; reflexivity|left; reflexivity|repeat split|].
      exists row. repeat (split; [assumption|]).
      split; [apply P1; vm_compute; split; discriminate|].
      split; [apply P2; vm_compute; split; discriminate|].
      apply P3; vm_compute; split; discriminate.
Defined.

(** The table of this example: the label without dots, and 0.123456,
    0.5 and their difference shown as 0.1235, 0.5 and -0.3765. *)
Example displayed_rows_example :
  question_level_scores [dotted_et] [dotted_baseline] "U"
  = Ok (Dataframe
          {| df_columns := ["Question"; "Electric Twin"; "Baseline"; "Difference"];
             df_rows := [ {| Question := "Q1 trust in science";
                             Electric_Twin := lit 1235 10000;
                             Baseline := lit 5 10;
                             Difference := lit (-3765) 10000 |} ] |}).
Proof. vm_compute. reflexivity. Qed.




(** The sort of two rows of equal score leaves them in the order of the
    questions, as does the sort of any 17. *)
Example tied_rows_table :
  exists df,
    question_level_scores [tied_et] [tied_baseline] "Z" = Ok (Dataframe df)
    /\ map Question (df_rows df) = ["q1"; "q2"].
Proof. eexists. split; vm_compute; reflexivity. Qed.

(** The example of the specification: scores [0.6, 0.9, 0.7] come out
    as [0.9, 0.7, 0.6]. *)
Example sort_values_example :
  map Electric_Twin
    (sort_by_electric_twin
       [ score_row "q1" (lit 6 10) (lit 5 10); score_row "q2" (lit 9 10) (lit 5 10);
         score_row "q3" (lit 7 10) (lit 5 10) ])
  = [lit 9 10; lit 7 10; lit 6 10].
Proof. vm_compute. reflexivity. Qed.

(** ** More on the classifiers *)

(** X1. A greater score never gets a lower category. *)
Theorem get_category_monotone (s1 s2 : float) :
  (s1 <=? s2)%float = true -> (get_category s1 <= get_category s2)%Z.
Proof.
  intros H.
  assert (T : forall c, (c <=? s1)%float = true -> (c <=? s2)%float = true)
    by (intros c Hc; eapply FloatOrder.leb_trans; eauto).
  unfold get_category, geb.
  destruct (f0_95 <=? s1)%float eqn:A95; [rewrite (T _ A95); lia|].
  destruct (f0_90 <=? s1)%float eqn:A90;
    [rewrite (T _ A90); destruct (f0_95 <=? s2)%float; lia|].
  destruct (f0_85 <=? s1)%float eqn:A85;
    [rewrite (T _ A85); destruct (f0_95 <=? s2)%float, (f0_90 <=? s2)%float; lia|].
  destruct (f0_80 <=? s1)%float eqn:A80;
    [rewrite (T _ A80);
     destruct (f0_95 <=? s2)%float, (f0_90 <=? s2)%float, (f0_85 <=? s2)%float; lia|].
  destruct (f0_95 <=? s2)%float, (f0_90 <=? s2)%float, (f0_85 <=? s2)%float,
    (f0_80 <=? s2)%float; lia.
Qed.

Lemma get_category_monotone_witness :
  (get_category f0_4 <= get_category f0_90)%Z.
Proof. apply (get_category_monotone f0_4 f0_90). reflexivity. Defined.

(** X2. Every float has a category among 1..5, outside [0, 1] too: the
    lowest band holds the scores below 0.80 and the missing score (NaN),
    the highest holds every score from 0.95 on, and the color is dark red
    exactly in the lowest band. *)
Theorem get_category_of_any_float (s : float) :
  (1 <= get_category s <= 5)%Z
  /\ (get_category s = 1%Z <-> isnan s = true \/ (s <? f0_80)%float = true)
  /\ (get_category s = 5%Z <-> (f0_95 <=? s)%float = true)
  /\ (get_color s = "#8B0000" <-> get_category s = 1%Z).
Proof.
  destruct (isnan s) eqn:Hs.
  - destruct s; try discriminate Hs. cbn. repeat split; auto; try lia; discriminate.
  - unfold get_category, get_color, geb.
    destruct (f0_95 <=? s)%float eqn:H95; [|
    destruct (f0_90 <=? s)%float eqn:H90; [|
    destruct (f0_85 <=? s)%float eqn:H85; [|
    destruct (f0_80 <=? s)%float eqn:H80 ]]].
    all: repeat split; try lia; try discriminate; try reflexivity;
      try (intros [E|E]; [discriminate E|]); try (intros _; right);
      try (exfalso; FloatOrder.to_keys;
           unfold f0_95, f0_90, f0_85, f0_80 in *; cbn [key] in *;
           destruct (key s) as [[a b] c]; cbn [lex_le lex_lt] in *; lia).
    apply FloatOrder.ltb_leb_false; auto.
Qed.

(** ** The traces of the map *)

Lemma get_category_range (s : float) : (1 <= get_category s <= 5)%Z.
Proof.
  unfold get_category.
  destruct (s >=? f0_95)%float, (s >=? f0_90)%float, (s >=? f0_85)%float,
    (s >=? f0_80)%float; lia.
Qed.

Lemma get_color_of_category (s : float) (cat : Z) (c label : string) :
  In (cat, c, label) traces -> get_category s = cat -> get_color s = c.
Proof.
  unfold get_color, get_category. intros Hin.
  cbn [traces In] in Hin.
  repeat (destruct Hin as [Hin|Hin]; [inversion Hin; subst; clear Hin|]);
    try contradiction;
    destruct (s >=? f0_95)%float, (s >=? f0_90)%float, (s >=? f0_85)%float,
      (s >=? f0_80)%float; intros E; try reflexivity; discriminate E.
Qed.

Lemma filter_split_perm {A : Type} (f : A -> bool) (l : list A) :
  Permutation (filter f l ++ filter (fun x => negb (f x)) l) l.
Proof.
  induction l as [|a l IH]; [constructor|]. cbn [filter].
  destruct (f a); cbn [negb app].
  - apply perm_skip, IH.
  - apply Permutation_sym, Permutation_cons_app, Permutation_sym, IH.
Qed.

Lemma flat_map_ext_on {A B : Type} (f g : A -> list B) (l : list A) :
  (forall a, In a l -> f a = g a) -> flat_map f l = flat_map g l.
Proof.
  induction l as [|a l IH]; intros H; [reflexivity|]. cbn [flat_map].
  rewrite (H a (or_introl eq_refl)), IH; [reflexivity|].
  intros b Hb. apply H. right; exact Hb.
Qed.

(** Filtering a list by each key of a duplicate-free list of keys that
    covers it cuts the list in classes. *)
Lemma classes_perm {A : Type} (g : A -> Z) (ks : list Z) :
  NoDup ks ->
  forall l, (forall x, In x l -> In (g x) ks) ->
  Permutation (flat_map (fun k => filter (fun x => (g x =? k)%Z) l) ks) l.
Proof.
  induction 1 as [|k ks Hk Hnd IH]; intros l Hl.
  - destruct l as [|x l]; [constructor|]. destruct (Hl x (or_introl eq_refl)).
  - cbn [flat_map].
    set (rest := filter (fun x => negb (g x =? k)%Z) l).
    assert (E : flat_map (fun k' => filter (fun x => (g x =? k')%Z) l) ks
                = flat_map (fun k' => filter (fun x => (g x =? k')%Z) rest) ks).
    { apply flat_map_ext_on. intros k' Hk'. unfold rest.
      clear - Hk Hk'. induction l as [|x l IHl]; [reflexivity|]. cbn [filter].
      destruct (Z.eqb_spec (g x) k) as [Ek|Ek]; cbn [negb filter].
      - destruct (Z.eqb_spec (g x) k'); [congruence|exact IHl].
      - destruct (g x =? k')%Z; [f_equal|]; exact IHl. }
    rewrite E.
    eapply Permutation_trans; [|apply (filter_split_perm (fun x => (g x =? k)%Z) l)].
    apply Permutation_app_head. apply IH.
    intros x Hx. unfold rest in Hx. apply filter_In in Hx. destruct Hx as [Hx Hne].
    destruct (Hl x Hx) as [Ek|Hin]; [|exact Hin].
    rewrite <- Ek, Z.eqb_refl in Hne. discriminate.
Qed.

Lemma country_traces_eq (selected_approach : string) (delta_df : list DeltaRow) :
  country_traces selected_approach delta_df
  = flat_map (category_trace (col_name selected_approach)
                (plot_data_of (col_name selected_approach) delta_df)) traces.
Proof. unfold country_traces, create_choropleth. apply removelast_last. Qed.

Lemma combine_map {A B C : Type} (f : A -> B) (g : A -> C) (l : list A) :
  combine (map f l) (map g l) = map (fun x => (f x, g x)) l.
Proof. induction l as [|a l IH]; cbn; [reflexivity|]. rewrite IH. reflexivity. Qed.

(** The located scores of one turn of the loop: those of the rows of the
    category, whether a trace is added or not. *)
Lemma category_trace_points (col : string) (plot_data : list PlotRow)
  (cat : Z) (c label : string) :
  flat_map (fun t => combine (go.locations t) (go.z t))
    (category_trace col plot_data (cat, c, label))
  = map (fun p => (country_clean_col (plot_row p), score_of col (plot_row p)))
      (filter (fun p => (category p =? cat)%Z) plot_data).
Proof.
  unfold category_trace.
  destruct (filter (fun p => (category p =? cat)%Z) plot_data) as [|p l] eqn:E;
    [reflexivity|].
  cbn [List.length Nat.ltb Nat.leb flat_map go.locations go.z].
  rewrite app_nil_r. apply combine_map.
Qed.

(** X3. Every row of [delta_df] is drawn exactly once: the pairs of a
    location and its score, over all the traces that draw countries, are
    the pairs of the table up to their order; a row without score (NaN)
    is among them, in the lowest category. *)
Theorem every_country_drawn_once (selected_approach : string)
  (delta_df : list DeltaRow) :
  Permutation
    (flat_map (fun t => combine (go.locations t) (go.z t))
       (country_traces selected_approach delta_df))
    (map (fun r => (country_clean_col r, score_of (col_name selected_approach) r))
       delta_df).
Proof.
  rewrite country_traces_eq.
  set (col := col_name selected_approach).
  set (pd := plot_data_of col delta_df).
  assert (E : map (fun r => (country_clean_col r, score_of col r)) delta_df
              = map (fun p => (country_clean_col (plot_row p), score_of col (plot_row p))) pd).
  { unfold pd, plot_data_of. rewrite map_map. reflexivity. }
  rewrite E. cbn [traces flat_map].
  rewrite !flat_map_app, !category_trace_points. cbn [flat_map].
  rewrite app_nil_r, <- !map_app. apply Permutation_map.
  assert (Hnd : NoDup [5; 4; 3; 2; 1]%Z)
    by (repeat constructor; cbn; intuition discriminate).
  assert (Hin : forall p, In p pd -> In (category p) [5; 4; 3; 2; 1]%Z).
  { intros p Hp. unfold pd, plot_data_of in Hp. apply in_map_iff in Hp.
    destruct Hp as [r [<- _]]. cbn [category].
    pose proof (get_category_range (score_of col r)) as Hr. cbn [In]. lia. }
  pose proof (classes_perm category [5; 4; 3; 2; 1]%Z Hnd pd Hin) as H.
  cbn [flat_map] in H. rewrite app_nil_r in H. exact H.
Qed.

(** X4. A trace that draws countries is never empty, has one score per
    location, shows no scale, and is filled with one color, which is the
    color of each of its scores; there are at most five such traces. *)
Theorem country_trace_shape (selected_approach : string)
  (delta_df : list DeltaRow) :
  (List.length (country_traces selected_approach delta_df) <= 5)%nat
  /\ forall t, In t (country_traces selected_approach delta_df) ->
       go.locations t <> []
       /\ List.length (go.locations t) = List.length (go.z t)
       /\ go.showscale t = false /\ go.visible t = true
       /\ exists c,
            go.colorscale t = [(of_int 0, c); (of_int 1, c)]
            /\ forall s, In s (go.z t) -> get_color s = c.
Proof.
  rewrite country_traces_eq.
  set (col := col_name selected_approach).
  set (pd := plot_data_of col delta_df).
  assert (Hlen : forall triple, (List.length (category_trace col pd triple) <= 1)%nat).
  { intros [[cat c] label]. unfold category_trace.
    destruct (0 <? _)%nat; cbn; lia. }
  split.
  - cbn [traces flat_map]. rewrite !length_app. cbn [List.length].
    pose proof (Hlen (5%Z, "#008000", ">= 0.95")).
    pose proof (Hlen (4%Z, "#90EE90", "0.90-0.94")).
    pose proof (Hlen (3%Z, "#FFFF00", "0.85-0.89")).
    pose proof (Hlen (2%Z, "#FF4500", "0.80-0.84")).
    pose proof (Hlen (1%Z, "#8B0000", "< 0.80")). lia.
  - intros t Ht. apply in_flat_map in Ht.
    destruct Ht as [[[cat c] label] [Htriple Ht]]. unfold category_trace in Ht.
    destruct (filter (fun p => (category p =? cat)%Z) pd) as [|p l] eqn:E;
      [destruct Ht|].
    cbn [List.length Nat.ltb Nat.leb] in Ht. destruct Ht as [<-|[]].
    cbn [go.locations go.z go.showscale go.visible go.colorscale].
    split; [discriminate|]. split; [rewrite !length_map; reflexivity|].
    split; [reflexivity|]. split; [reflexivity|].
    exists c. split; [reflexivity|]. intros s Hs.
    apply in_map_iff in Hs. destruct Hs as [q [<- Hq]].
    rewrite <- E in Hq. apply filter_In in Hq. destruct Hq as [Hq Hcat].
    unfold pd, plot_data_of in Hq. apply in_map_iff in Hq.
    destruct Hq as [r [<- _]]. cbn [plot_row category] in *.
    apply Z.eqb_eq in Hcat.
    apply (get_color_of_category _ cat c label Htriple Hcat).
Qed.

Lemma country_trace_shape_witness :
  (List.length (country_traces "Electric Twin" example_delta) <= 5)%nat.
Proof.
  apply (proj1 (country_trace_shape "Electric Twin" example_delta)).
Defined.

(** X5. The last trace of the figure is the hidden one that carries the
    colour bar; its two ticks are the bounds of the scale.  With at least
    one observed score the lower tick is at most 0.5 and the upper at
    least 1.0, so the scale is never reduced to a point; with no observed
    score both ticks are NaN. *)
Theorem colorbar_ticks (selected_approach : string) (delta_df : list DeltaRow) :
  let t := last (create_choropleth selected_approach delta_df)
             (colorbar_trace selected_approach delta_df) in
  let scores := observed (column delta_df (col_name selected_approach)) in
  go.visible t = false /\ go.showscale t = true
  /\ exists lo hi,
       go.tickvals t = [lo; hi] /\ go.z t = [lo]
       /\ (scores = [] -> isnan lo = true /\ isnan hi = true)
       /\ (scores <> [] ->
           (lo <=? f0_5)%float = true /\ (f1_0 <=? hi)%float = true
           /\ (lo <? hi)%float = true).
Proof.
  intros t scores. unfold t, create_choropleth. rewrite last_last.
  split; [reflexivity|]. split; [reflexivity|].
  exists (min_val selected_approach delta_df), (max_val selected_approach delta_df).
  split; [reflexivity|]. split; [reflexivity|].
  unfold min_val, max_val, series_min, series_max. fold scores. split.
  - intros ->. split; reflexivity.
  - intros Hne.
    pose proof (series_min_least _ Hne) as [Ilo _].
    pose proof (series_max_greatest _ Hne) as [Ihi _].
    pose proof (observed_notna _ _ Ilo) as Nlo.
    pose proof (observed_notna _ _ Ihi) as Nhi.
    unfold series_min, series_max in Ilo, Ihi, Nlo, Nhi. fold scores in Ilo, Ihi, Nlo, Nhi.
    destruct scores as [|x xs]; [congruence|].
    set (lo := fold_left py_min xs x) in *. set (hi := fold_left py_max xs x) in *.
    destruct (py_min_le lo f0_5 Nlo eq_refl) as [_ L].
    destruct (py_max_ge hi f1_0 Nhi eq_refl) as [_ U].
    split; [exact L|]. split; [exact U|].
    pose proof (py_min_notna lo f0_5 Nlo eq_refl) as N1.
    pose proof (py_max_notna hi f1_0 Nhi eq_refl) as N2.
    apply FloatOrder.ltb_key; auto.
    apply FloatOrder.leb_key in L; auto. apply FloatOrder.leb_key in U; auto.
    unfold f0_5, f1_0 in L, U. cbn [key] in L, U.
    destruct (key (py_min lo _)) as [[a1 a2] a3], (key (py_max hi _)) as [[b1 b2] b3].
    cbn [lex_lt lex_le] in *. lia.
Qed.

Lemma colorbar_ticks_witness :
  exists lo hi,
    go.tickvals (last (create_choropleth "Electric Twin" example_delta)
                   (colorbar_trace "Electric Twin" example_delta)) = [lo; hi]
    /\ (lo <? hi)%float = true.
Proof.
  destruct (colorbar_ticks "Electric Twin" example_delta)
    as [_ [_ [lo [hi [Ht [_ [_ H]]]]]]].
  exists lo, hi. split; [exact Ht|]. apply H. vm_compute. discriminate.
Defined.

(** ** The options of the selector *)

Lemma ascii_compare_refl (a : ascii) : Ascii.compare a a = Eq.
Proof. unfold Ascii.compare. apply N.compare_refl. Qed.

Lemma ascii_compare_lt_trans (a b c : ascii) :
  Ascii.compare a b = Lt -> Ascii.compare b c = Lt -> Ascii.compare a c = Lt.
Proof. unfold Ascii.compare. rewrite !N.compare_lt_iff. lia. Qed.

Lemma string_compare_lt_trans (a : string) :
  forall b c, String.compare a b = Lt -> String.compare b c = Lt ->
    String.compare a c = Lt.
Proof.
  induction a as [|x a IH]; intros [|y b] [|z c]; cbn; try discriminate; auto.
  destruct (Ascii.compare x y) eqn:Exy; try discriminate;
    destruct (Ascii.compare y z) eqn:Eyz; try discriminate.
  - apply Ascii.compare_eq_iff in Exy, Eyz. subst. rewrite ascii_compare_refl.
    apply IH.
  - apply Ascii.compare_eq_iff in Exy. subst. rewrite Eyz. auto.
  - apply Ascii.compare_eq_iff in Eyz. subst. rewrite Exy. auto.
  - rewrite (ascii_compare_lt_trans _ _ _ Exy Eyz). auto.
Qed.

Lemma string_ltb_trans (a b c : string) :
  String.ltb a b = true -> String.ltb b c = true -> String.ltb a c = true.
Proof.
  unfold String.ltb. destruct (String.compare a b) eqn:E1; try discriminate.
  destruct (String.compare b c) eqn:E2; try discriminate.
  rewrite (string_compare_lt_trans _ _ _ E1 E2). reflexivity.
Qed.

Lemma string_leb_ltb (a b : string) :
  String.leb a b = true -> a <> b -> String.ltb a b = true.
Proof.
  unfold String.leb, String.ltb. destruct (String.compare a b) eqn:E;
    try discriminate; auto.
  intros _ H. apply String.compare_eq_iff in E. contradiction.
Qed.

Lemma string_leb_false_ltb (a b : string) :
  String.leb a b = false -> String.ltb b a = true.
Proof.
  unfold String.leb, String.ltb. rewrite (String.compare_antisym b a).
  destruct (String.compare a b); try discriminate. reflexivity.
Qed.

Lemma in_unique (l : list string) (x : string) : In x (unique l) <-> In x l.
Proof.
  induction l as [|y l IH]; [reflexivity|]. cbn [unique In].
  rewrite filter_In, IH, negb_true_iff, String.eqb_neq.
  destruct (String.eqb_spec y x); intuition congruence.
Qed.

Lemma NoDup_unique (l : list string) : NoDup (unique l).
Proof.
  induction l as [|y l IH]; [constructor|]. cbn [unique]. constructor.
  - rewrite filter_In, String.eqb_refl. cbn. intuition discriminate.
  - apply NoDup_filter, IH.
Qed.

Lemma insert_sorted_perm (x : string) (l : list string) :
  Permutation (x :: l) (insert_sorted x l).
Proof.
  induction l as [|y l IH]; cbn [insert_sorted]; [apply Permutation_refl|].
  destruct (String.leb x y); [apply Permutation_refl|].
  eapply Permutation_trans; [apply perm_swap|]. apply perm_skip, IH.
Qed.

Lemma sorted_perm (l : list string) : Permutation l (sorted l).
Proof.
  induction l as [|x l IH]; [constructor|]. unfold sorted. cbn [fold_right].
  eapply Permutation_trans; [apply perm_skip, IH|]. apply insert_sorted_perm.
Qed.

Lemma insert_sorted_ascending (x : string) (l : list string) :
  ~ In x l -> StronglySorted ascending l ->
  StronglySorted ascending (insert_sorted x l).
Proof.
  induction l as [|y l IH]; intros Hx Hs; cbn [insert_sorted].
  - repeat constructor.
  - inversion Hs as [|? ? Hs' Hall]; subst.
    destruct (String.leb x y) eqn:E.
    + assert (Hxy : ascending x y).
      { apply string_leb_ltb; [exact E|]. intros ->. apply Hx. left; reflexivity. }
      constructor; [exact Hs|]. constructor; [exact Hxy|].
      rewrite Forall_forall in Hall |- *. intros z Hz.
      eapply string_ltb_trans; [exact Hxy|apply Hall, Hz].
    + constructor.
      * apply IH; [|exact Hs']. intros H. apply Hx. right; exact H.
      * eapply Permutation_Forall; [apply insert_sorted_perm|].
        constructor; [apply string_leb_false_ltb, E|exact Hall].
Qed.

Lemma sorted_ascending (l : list string) :
  NoDup l -> StronglySorted ascending (sorted l).
Proof.
  induction 1 as [|x l Hx Hnd IH]; [constructor|]. unfold sorted. cbn [fold_right].
  apply insert_sorted_ascending; [|exact IH].
  intros H. apply Hx. eapply Permutation_in; [apply Permutation_sym, sorted_perm|exact H].
Qed.

Lemma in_options (delta_df : list DeltaRow) (c : string) :
  In c (options delta_df) <-> exists r, In r delta_df /\ country_clean_col r = c.
Proof.
  unfold options. split.
  - intros H. apply (Permutation_in _ (Permutation_sym (sorted_perm _))) in H.
    apply in_unique, in_map_iff in H. destruct H as [r [E Hr]]. eauto.
  - intros [r [Hr E]]. apply (Permutation_in _ (sorted_perm _)).
    apply in_unique, in_map_iff. eauto.
Qed.

(** X6. The selector offers each cleaned country name of [delta_df]
    once, in strictly ascending order of code points, and nothing else;
    so the summary of a selected option always reads a record of that
    country, never the NaN of a country that is not found. *)
Theorem selector_options (delta_df : list DeltaRow) :
  StronglySorted ascending (options delta_df)
  /\ NoDup (options delta_df)
  /\ (forall c, In c (options delta_df) <->
        exists r, In r delta_df /\ country_clean_col r = c)
  /\ (forall c, In c (options delta_df) ->
        exists r, In r delta_df /\ country_clean_col r = c
          /\ et_score delta_df c = mean_SJSD_ET r
          /\ baseline_score delta_df c = mean_SJSD_Baseline r).
Proof.
  split; [apply sorted_ascending, NoDup_unique|].
  split; [eapply Permutation_NoDup; [apply sorted_perm|apply NoDup_unique]|].
  split; [apply in_options|].
  intros c Hc. apply in_options in Hc. destruct Hc as [r0 [Hr0 E0]].
  unfold et_score, baseline_score, select_delta.
  destruct (filter (fun r => String.eqb (country_clean_col r) c) delta_df)
    as [|r rest] eqn:E.
  - exfalso. assert (H : In r0 []); [|destruct H].
    rewrite <- E. apply filter_In. split; [exact Hr0|]. apply String.eqb_eq, E0.
  - assert (H : In r (r :: rest)) by (left; reflexivity).
    rewrite <- E in H. apply filter_In in H. destruct H as [Hr Hk].
    apply String.eqb_eq in Hk. exists r. auto.
Qed.

Lemma selector_options_witness :
  exists r, In r example_delta /\ country_clean_col r = "France"
    /\ et_score example_delta "France" = mean_SJSD_ET r.
Proof.
  destruct (proj2 (proj2 (proj2 (selector_options example_delta))) "France")
    as [r [Hr [Hk [He _]]]].
  - vm_compute. left; reflexivity.
  - exists r. auto.
Defined.

(** ** More on the summary and on the detail section *)

Lemma filter_head_split {A : Type} (f : A -> bool) (l : list A) (x : A) (rest : list A) :
  filter f l = x :: rest ->
  exists before after,
    l = before ++ x :: after
    /\ (forall y, In y before -> f y = false) /\ f x = true
    /\ rest = filter f after.
Proof.
  induction l as [|a l IH]; cbn [filter]; [discriminate|].
  destruct (f a) eqn:Ea.
  - intros H. injection H as -> <-. exists [], l. repeat split; auto.
    intros y [].
  - intros H. destruct (IH H) as [before [after [-> [Hb [Hx Hr]]]]].
    exists (a :: before), after. repeat split; auto.
    intros y [<-|Hy]; auto.
Qed.

(** X7. Metrics are shown only for the first record that carries the
    key, and only when both of its scores are numbers: the three values
    are then its two scores and their difference.  When one score of that
    record is missing, nothing is shown, not even the other score. *)
Theorem metrics_shown_iff (delta_df : list DeltaRow) (selected_country : string) :
  (forall e b d,
     metrics delta_df selected_country = Some (e, b, d) <->
     exists before r after,
       delta_df = before ++ r :: after
       /\ (forall r', In r' before -> country_clean_col r' <> selected_country)
       /\ country_clean_col r = selected_country
       /\ isnan (mean_SJSD_ET r) = false /\ isnan (mean_SJSD_Baseline r) = false
       /\ e = mean_SJSD_ET r /\ b = mean_SJSD_Baseline r /\ d = (e - b)%float)
  /\ (forall before r after,
        delta_df = before ++ r :: after ->
        (forall r', In r' before -> country_clean_col r' <> selected_country) ->
        country_clean_col r = selected_country ->
        isnan (mean_SJSD_ET r) = true \/ isnan (mean_SJSD_Baseline r) = true ->
        metrics delta_df selected_country = None).
Proof.
  assert (Hfirst : forall before r after,
            delta_df = before ++ r :: after ->
            (forall r', In r' before -> country_clean_col r' <> selected_country) ->
            country_clean_col r = selected_country ->
            select_delta delta_df selected_country
            = r :: select_delta after selected_country).
  { intros before r after -> Hb Hr. apply filter_first.
    - intros y Hy. apply String.eqb_neq, Hb, Hy.
    - apply String.eqb_eq, Hr. }
  split.
  - intros e b d. split.
    + unfold metrics, et_score, baseline_score.
      destruct (select_delta delta_df selected_country) as [|r rest] eqn:E;
        [discriminate|].
      destruct (isnan (mean_SJSD_ET r)) eqn:Het; [discriminate|].
      destruct (isnan (mean_SJSD_Baseline r)) eqn:Hbl; [discriminate|].
      cbn. intros H. injection H as <- <- <-.
      destruct (filter_head_split _ _ _ _ E) as [before [after [Hl [Hb [Hx _]]]]].
      exists before, r, after. repeat split; auto.
      * intros r' Hr'. apply String.eqb_neq, Hb, Hr'.
      * apply String.eqb_eq, Hx.
    + intros [before [r [after [Hl [Hb [Hr [Het [Hbl [-> [-> ->]]]]]]]]]].
      unfold metrics, et_score, baseline_score.
      rewrite (Hfirst before r after Hl Hb Hr), Het, Hbl. reflexivity.
  - intros before r after Hl Hb Hr Hnan.
    unfold metrics, et_score, baseline_score.
    rewrite (Hfirst before r after Hl Hb Hr).
    destruct Hnan as [-> | ->]; [reflexivity|].
    destruct (isnan (mean_SJSD_ET r)); reflexivity.
Qed.

Lemma metrics_shown_iff_witness :
  metrics [ {| country := "A (2020)"; country_clean_col := "A";
               mean_SJSD_ET := f0_90; mean_SJSD_Baseline := nan |} ] "A" = None.
Proof.
  apply (proj2 (metrics_shown_iff
                  [ {| country := "A (2020)"; country_clean_col := "A";
                       mean_SJSD_ET := f0_90; mean_SJSD_Baseline := nan |} ] "A")
           [] {| country := "A (2020)"; country_clean_col := "A";
                 mean_SJSD_ET := f0_90; mean_SJSD_Baseline := nan |} []
           eq_refl).
  - intros r' [].
  - reflexivity.
  - right; reflexivity.
Defined.


(** A KeyError of the loop names a question column met in the loop that
    the Baseline record lacks. *)
Lemma combined_scores_loop_raise (et_row baseline_row : QuestionRow)
  (cols : list string) (c : string) :
  (forall x, In x cols -> in_list x ["Country"; "Country_clean"] = false ->
     In x (map fst (questions et_row))) ->
  forall acc,
    combined_scores_loop et_row baseline_row cols acc = Raise (KeyError c) ->
    In c cols /\ in_list c ["Country"; "Country_clean"] = false
    /\ lookup c (questions baseline_row) = None.
Proof.
  induction cols as [|x cols IH]; intros Het acc; cbn [combined_scores_loop];
    [discriminate|].
  assert (Het' : forall y, In y cols ->
            in_list y ["Country"; "Country_clean"] = false ->
            In y (map fst (questions et_row)))
    by (intros y Hy; apply Het; right; exact Hy).
  assert (Hnext : forall acc',
            combined_scores_loop et_row baseline_row cols acc' = Raise (KeyError c) ->
            In c (x :: cols) /\ in_list c ["Country"; "Country_clean"] = false
            /\ lookup c (questions baseline_row) = None).
  { intros acc' H. destruct (IH Het' acc' H) as [H1 H2]. split; [right; exact H1|exact H2]. }
  destruct (in_list x ["Country"; "Country_clean"]) eqn:Hid; cbn [negb];
    [apply Hnext|].
  destruct (lookup_in _ _ (Het x (or_introl eq_refl) Hid)) as [e Ee].
  unfold getitem. rewrite Ee. cbn [bind].
  destruct (lookup x (questions baseline_row)) as [b|] eqn:Eb; cbn [bind].
  - destruct (both_scored e b); apply Hnext.
  - intros H. injection H as <-. split; [left; reflexivity|]. auto.
Qed.

(** X8. When the Electric Twin record has a question column that the
    Baseline record lacks, the section raises KeyError, whatever the
    other columns hold: no table of the remaining questions is shown.
    The error names a question column of the Electric Twin record that
    the Baseline record lacks. *)
Theorem country_detail_missing_column (sort_desc : list ScoreRow -> list ScoreRow)
  (round4 : float -> float) (et_df baseline_df : list QuestionRow)
  (selected_country : string) (et_row baseline_row : QuestionRow)
  (et_rest baseline_rest : list QuestionRow) (col : string) :
  select_rows et_df selected_country = et_row :: et_rest ->
  select_rows baseline_df selected_country = baseline_row :: baseline_rest ->
  In col (map fst (questions et_row)) ->
  in_list col ["Country"; "Country_clean"] = false ->
  lookup col (questions baseline_row) = None ->
  exists c,
    country_detail sort_desc round4 et_df baseline_df selected_country
    = Raise (KeyError c)
    /\ In c (map fst (questions et_row))
    /\ lookup c (questions baseline_row) = None.
Proof.
  intros Eet Ebl Hin Hid Hnone.
  destruct (combined_scores_missing_column et_row baseline_row col Hin Hid Hnone)
    as [c [Hraise Hc]].
  exists c. unfold country_detail. rewrite Eet, Ebl, Hraise. cbn [bind].
  split; [reflexivity|]. split; [|exact Hc].
  unfold combined_scores in Hraise.
  apply combined_scores_loop_raise in Hraise.
  - destruct Hraise as [H1 [H2 _]]. apply columns_question; assumption.
  - intros x Hx Hx'. apply columns_question; assumption.
Qed.

Lemma country_detail_missing_column_witness :
  exists c,
    country_detail stable_sort_desc np_round4 [example_et]
      [ {| Country := "X (2021)"; Country_clean := "X";
           questions := [("q1", lit 7 10); ("q3", lit 6 10)] |} ] "X"
    = Raise (KeyError c)
    /\ In c (map fst (questions example_et)).
Proof.
  destruct (country_detail_missing_column stable_sort_desc np_round4 [example_et]
              [ {| Country := "X (2021)"; Country_clean := "X";
                   questions := [("q1", lit 7 10); ("q3", lit 6 10)] |} ] "X"
              example_et
              {| Country := "X (2021)"; Country_clean := "X";
                 questions := [("q1", lit 7 10); ("q3", lit 6 10)] |}
              [] [] "q2" eq_refl eq_refl) as [c [H1 [H2 _]]].
  - right; left; reflexivity.
  - reflexivity.
  - reflexivity.
  - exists c. auto.
Defined.



Lemma kept_row_length (et_row baseline_row : QuestionRow) (col : string) :
  (List.length (kept_row et_row baseline_row col) <= 1)%nat.
Proof.
  unfold kept_row. destruct (in_list col _); [cbn; lia|].
  destruct (lookup col (questions et_row)); [|cbn; lia].
  destruct (lookup col (questions baseline_row)); [|cbn; lia].
  destruct (both_scored _ _); cbn; lia.
Qed.

Lemma kept_rows_length (et_row baseline_row : QuestionRow) (cols : list string) :
  (List.length (flat_map (kept_row et_row baseline_row) cols) <= List.length cols)%nat.
Proof.
  induction cols as [|c cols IH]; [cbn; lia|]. cbn [flat_map List.length].
  rewrite length_app. pose proof (kept_row_length et_row baseline_row c). lia.
Qed.

(** X10. A table that is shown is never empty: it has the four columns,
    at least one row and at most one row per question column of the
    Electric Twin record.  The notice of absent data is written exactly
    when one of the two tables has no record for the key; with both
    records found the section shows a table or raises. *)
Theorem country_detail_outcomes (sort_desc : list ScoreRow -> list ScoreRow)
  (round4 : float -> float) (et_df baseline_df : list QuestionRow)
  (selected_country : string) :
  sort_contract sort_desc ->
  (forall df,
     country_detail sort_desc round4 et_df baseline_df selected_country
     = Ok (Dataframe df) ->
     df_columns df = ["Question"; "Electric Twin"; "Baseline"; "Difference"]
     /\ df_rows df <> []
     /\ exists et_row et_rest,
          select_rows et_df selected_country = et_row :: et_rest
          /\ (List.length (df_rows df) <= List.length (questions et_row))%nat)
  /\ (country_detail sort_desc round4 et_df baseline_df selected_country
      = Ok NoQuestionData <->
      select_rows et_df selected_country = []
      \/ select_rows baseline_df selected_country = []).
Proof.
  intros Hsort.
  destruct (select_rows et_df selected_country) as [|et_row et_rest] eqn:Eet.
  { unfold country_detail. rewrite Eet. split; [discriminate|]. split; auto. }
  destruct (select_rows baseline_df selected_country) as [|bl_row bl_rest] eqn:Ebl.
  { unfold country_detail. rewrite Eet, Ebl. split; [discriminate|]. split; auto. }
  destruct (combined_scores et_row bl_row) as [records|e] eqn:Erec.
  2:{ unfold country_detail. rewrite Eet, Ebl, Erec. cbn [bind].
      split; [discriminate|]. split; [discriminate|]. intros [H|H]; discriminate H. }
  rewrite (country_detail_found sort_desc round4 _ _ _ _ _ _ _ _ Eet Ebl Erec).
  destruct records as [|r0 records].
  { split; [discriminate|]. split; [discriminate|]. intros [H|H]; discriminate H. }
  split; [|split; [discriminate|intros [H|H]; discriminate H]].
  intros df H. injection H as <-. cbn [df_columns df_rows].
  destruct (Hsort (r0 :: records) (combined_scores_notna _ _ _ Erec)) as [Hperm _].
  pose proof (Permutation_length Hperm) as Hlen.
  split; [reflexivity|]. split.
  - destruct (sort_desc (r0 :: records)); [discriminate Hlen|discriminate].
  - exists et_row, et_rest. split; [reflexivity|].
    rewrite length_map, <- Hlen, (combined_scores_inv _ _ _ Erec).
    unfold columns. cbn [flat_map]. rewrite flat_map_app, !length_app.
    pose proof (kept_rows_length et_row bl_row (map fst (questions et_row))) as Hk.
    rewrite length_map in Hk.
    change (kept_row et_row bl_row "Country") with (@nil ScoreRow).
    change (flat_map (kept_row et_row bl_row) ["Country_clean"]) with (@nil ScoreRow).
    cbn [List.length]. lia.
Qed.

Lemma country_detail_outcomes_witness :
  exists df,
    country_detail stable_sort_desc np_round4 [example_et] [example_baseline] "X"
    = Ok (Dataframe df)
    /\ df_rows df <> [].
Proof.
  eexists. split; [vm_compute; reflexivity|].
  apply (proj1 (country_detail_outcomes stable_sort_desc np_round4
                  [example_et] [example_baseline] "X" stable_sort_desc_contract)
           _ country_detail_example).
Defined.

(** ** More on the cleaner of country labels *)

(** The cleaner on a text that does not end with white space, followed by
    white space, a year and the end. *)
Lemma country_clean_year (p ws nl : string) (d1 d2 d3 d4 : ascii) :
  ends_with_space p = false -> all_space ws = true ->
  Re.is_digit d1 = true -> Re.is_digit d2 = true ->
  Re.is_digit d3 = true -> Re.is_digit d4 = true ->
  nl = EmptyString \/ nl = newline ->
  country_clean (p ++ ws ++ year d1 d2 d3 d4 ++ nl) = (p ++ nl)%string.
Proof.
  intros Hp Hws H1 H2 H3 H4 Hnl. unfold country_clean, Re.sub.
  induction p as [|c p IH].
  - cbn [append]. rewrite <- append_assoc. rewrite sub_from_match.
    + apply sub_from_end, Hnl.
    + destruct ws; discriminate.
    + rewrite append_assoc. apply match_here_spec.
      exists ws, d1, d2, d3, d4. auto 10.
  - cbn [append Re.sub_from].
    change (String c (p ++ ws ++ year d1 d2 d3 d4 ++ nl))
      with (String c p ++ ws ++ year d1 d2 d3 d4 ++ nl)%string.
    rewrite no_match_inside by (auto; discriminate).
    f_equal. apply IH. apply (ends_with_space_tail c p Hp).
Qed.

Lemma country_clean_annotated (name label : string) :
  ends_with_space name = false -> annotated name label ->
  country_clean label = name.
Proof.
  intros Hn [ws [d1 [d2 [d3 [d4 [Hws [H1 [H2 [H3 [H4 ->]]]]]]]]]].
  rewrite <- (append_nil_r (year d1 d2 d3 d4)).
  rewrite (country_clean_year name ws "" d1 d2 d3 d4) by auto.
  apply append_nil_r.
Qed.

(** Every string is a text that does not end with white space, followed
    by white space. *)
Lemma rstrip_split (s : string) :
  exists p w, s = (p ++ w)%string /\ all_space w = true
              /\ ends_with_space p = false.
Proof.
  induction s as [|c s [p [w [E [Hw Hp]]]]]; [exists "", ""; auto|].
  destruct p as [|d p].
  - cbn [append] in E. subst w. destruct (Re.is_space c) eqn:Hc.
    + exists "", (String c s). cbn. rewrite Hc, Hw. auto.
    + exists (String c ""), s. cbn. auto.
  - exists (String c (String d p)), w. rewrite E. cbn in *. auto.
Qed.

Lemma ends_with_space_append (a b : string) :
  b <> EmptyString -> ends_with_space (a ++ b) = ends_with_space b.
Proof.
  intros Hb. induction a as [|c a IH]; [reflexivity|]. cbn [append].
  destruct (a ++ b)%string eqn:E; [|cbn; cbn in IH; exact IH].
  destruct a; [cbn in E; congruence|discriminate E].
Qed.

(** The scan either keeps the whole string or drops one block of white
    space and year. *)
Lemma sub_from_shape (s : string) :
  Re.sub_from year_suffix 0 s = s
  \/ exists a ws d1 d2 d3 d4 nl,
       all_space ws = true
       /\ Re.is_digit d1 = true /\ Re.is_digit d2 = true
       /\ Re.is_digit d3 = true /\ Re.is_digit d4 = true
       /\ (nl = EmptyString \/ nl = newline)
       /\ s = (a ++ ws ++ year d1 d2 d3 d4 ++ nl)%string
       /\ Re.sub_from year_suffix 0 s = (a ++ nl)%string.
Proof.
  induction s as [|c s IH]; [left; reflexivity|].
  destruct (Re.match_here year_suffix (String c s)) as [r|] eqn:Hm.
  - right. pose proof Hm as Hspec. apply match_here_spec in Hspec.
    destruct Hspec as [ws [d1 [d2 [d3 [d4 [Hws [H1 [H2 [H3 [H4 [E Hr]]]]]]]]]]].
    exists "", ws, d1, d2, d3, d4, r. repeat (split; [assumption|]).
    cbn [append]. rewrite E in Hm |- *.
    rewrite <- append_assoc in Hm |- *. rewrite sub_from_match.
    + apply sub_from_end, Hr.
    + destruct ws; discriminate.
    + exact Hm.
  - cbn [Re.sub_from]. rewrite Hm. destruct IH as [IH|IH].
    + left. rewrite IH. reflexivity.
    + right.
      destruct IH as [a [ws [d1 [d2 [d3 [d4 [nl [Hws [H1 [H2 [H3 [H4 [Hnl [E Es]]]]]]]]]]]]]].
      exists (String c a), ws, d1, d2, d3, d4, nl.
      do 6 (split; [assumption|]).
      rewrite Es. rewrite E at 1. split; reflexivity.
Qed.

(** X11. What the cleaner does to any label: it returns the label as it
    is, or it drops from it exactly one block of white space and a year
    in parentheses that stands at the end or before the final newline;
    the cleaned label is never longer, and when it differs it is shorter
    by six characters at least. *)
Theorem country_clean_shape (x : string) :
  (country_clean x = x
   \/ exists a ws d1 d2 d3 d4 nl,
        all_space ws = true
        /\ Re.is_digit d1 = true /\ Re.is_digit d2 = true
        /\ Re.is_digit d3 = true /\ Re.is_digit d4 = true
        /\ (nl = EmptyString \/ nl = newline)
        /\ x = (a ++ ws ++ year d1 d2 d3 d4 ++ nl)%string
        /\ country_clean x = (a ++ nl)%string)
  /\ (String.length (country_clean x) <= String.length x)%nat
  /\ (country_clean x <> x ->
      (String.length (country_clean x) + 6 <= String.length x)%nat).
Proof.
  unfold country_clean, Re.sub.
  destruct (sub_from_shape x) as [E|H].
  - split; [left; exact E|]. rewrite E. split; [lia|congruence].
  - assert (Hlen : (String.length (Re.sub_from year_suffix 0 x) + 6
                    <= String.length x)%nat).
    { destruct H as [a [ws [d1 [d2 [d3 [d4 [nl [_ [_ [_ [_ [_ [_ [E Es]]]]]]]]]]]]]].
      rewrite Es. rewrite E. rewrite !length_append. cbn [year String.length]. lia. }
    split; [right; exact H|]. split; [lia|]. intros _. exact Hlen.
Qed.

(** X12. A label that ends with a year in parentheses is cleaned to the
    text before the year without its trailing white space, whatever the
    text is.  Only the last annotation goes: of two annotations the
    first stays, so cleaning a cleaned label can change it again. *)
Theorem country_clean_trailing_year (s : string) (d1 d2 d3 d4 : ascii) :
  Re.is_digit d1 = true -> Re.is_digit d2 = true ->
  Re.is_digit d3 = true -> Re.is_digit d4 = true ->
  (exists p w,
     s = (p ++ w)%string /\ all_space w = true /\ ends_with_space p = false
     /\ country_clean (s ++ year d1 d2 d3 d4) = p)
  /\ (forall ws e1 e2 e3 e4,
        all_space ws = true ->
        Re.is_digit e1 = true -> Re.is_digit e2 = true ->
        Re.is_digit e3 = true -> Re.is_digit e4 = true ->
        let x := (s ++ year d1 d2 d3 d4 ++ ws ++ year e1 e2 e3 e4)%string in
        country_clean x = (s ++ year d1 d2 d3 d4)%string
        /\ country_clean (country_clean x) <> country_clean x).
Proof.
  intros H1 H2 H3 H4.
  assert (Hclean : exists p w,
             s = (p ++ w)%string /\ all_space w = true /\ ends_with_space p = false
             /\ country_clean (s ++ year d1 d2 d3 d4) = p).
  { destruct (rstrip_split s) as [p [w [E [Hw Hp]]]].
    exists p, w. repeat (split; [assumption|]).
    rewrite E, append_assoc, <- (append_nil_r (year d1 d2 d3 d4)).
    rewrite (country_clean_year p w "" d1 d2 d3 d4) by auto.
    apply append_nil_r. }
  split; [exact Hclean|].
  intros ws e1 e2 e3 e4 Hws G1 G2 G3 G4 x.
  assert (Ex : country_clean x = (s ++ year d1 d2 d3 d4)%string).
  { unfold x. rewrite <- (append_assoc s), <- (append_nil_r (year e1 e2 e3 e4)).
    rewrite (country_clean_year (s ++ year d1 d2 d3 d4) ws "" e1 e2 e3 e4); auto.
    - apply append_nil_r.
    - rewrite ends_with_space_append by discriminate. reflexivity. }
  split; [exact Ex|]. rewrite Ex.
  destruct Hclean as [p [w [E [_ [_ ->]]]]]. intros Hp.
  apply (f_equal String.length) in Hp. rewrite E, !length_append in Hp.
  cbn [year String.length] in Hp. lia.
Qed.

Lemma country_clean_trailing_year_witness :
  country_clean "Germany  (2019) (2021)" = "Germany  (2019)"
  /\ country_clean (country_clean "Germany  (2019) (2021)")
     <> country_clean "Germany  (2019) (2021)".
Proof.
  apply (proj2 (country_clean_trailing_year "Germany  "
                  "2"%char "0"%char "1"%char "9"%char
                  eq_refl eq_refl eq_refl eq_refl)
           " " "2"%char "0"%char "2"%char "1"%char);
    reflexivity.
Defined.

(** ** The tables of [load_data] and the selection *)

Lemma country_clean_labelled (name label : string) :
  ends_with_space name = false -> country_clean name = name ->
  labelled name label -> country_clean label = name.
Proof.
  intros Hn Hc [->|H]; [exact Hc|]. apply country_clean_annotated; assumption.
Qed.

Lemma select_rows_found (df : list QuestionRow) (c : string) (r : QuestionRow) :
  In r df -> Country_clean r = c -> select_rows df c <> [].
Proof.
  intros Hr Hc E.
  assert (H : In r (select_rows df c)).
  { unfold select_rows. apply filter_In. split; [exact Hr|].
    apply String.eqb_eq, Hc. }
  rewrite E in H. destruct H.
Qed.

(** X13. Labels that name one country with different year annotations,
    or with none, are joined: when the three files carry the country
    under such labels, the selector offers its clean name, and for this
    name the detail section finds a record in both per-question tables,
    so it never writes the notice of absent data. *)
Theorem load_data_joins_labels (delta : list RawDeltaRow)
  (baseline et : list RawQuestionRow) (name : string)
  (sort_desc : list ScoreRow -> list ScoreRow) (round4 : float -> float) :
  ends_with_space name = false -> country_clean name = name ->
  (exists r, In r delta /\ labelled name (raw_country r)) ->
  (exists r, In r baseline /\ labelled name (raw_Country r)) ->
  (exists r, In r et /\ labelled name (raw_Country r)) ->
  let '(delta_df, baseline_df, et_df) := load_data delta baseline et in
  In name (options delta_df)
  /\ select_rows et_df name <> []
  /\ select_rows baseline_df name <> []
  /\ country_detail sort_desc round4 et_df baseline_df name <> Ok NoQuestionData.
Proof.
  intros Hn Hc [rd [Hrd Ld]] [rb [Hrb Lb]] [re [Hre Le]]. unfold load_data.
  assert (Het : select_rows (map clean_question et) name <> []).
  { apply (select_rows_found _ _ (clean_question re)).
    - apply in_map, Hre.
    - apply (country_clean_labelled _ _ Hn Hc Le). }
  assert (Hbl : select_rows (map clean_question baseline) name <> []).
  { apply (select_rows_found _ _ (clean_question rb)).
    - apply in_map, Hrb.
    - apply (country_clean_labelled _ _ Hn Hc Lb). }
  split; [|split; [exact Het|split; [exact Hbl|]]].
  - apply in_options. exists (clean_delta rd). split; [apply in_map, Hrd|].
    apply (country_clean_labelled _ _ Hn Hc Ld).
  - unfold country_detail.
    destruct (select_rows (map clean_question et) name) as [|er ?]; [congruence|].
    destruct (select_rows (map clean_question baseline) name) as [|br ?];
      [congruence|].
    destruct (combined_scores er br) as [records|e]; cbn [bind]; [|discriminate].
    unfold sort_values, DataFrame_of. destruct records; cbn; discriminate.
Qed.

Lemma load_data_joins_labels_witness :
  let '(delta_df, baseline_df, et_df) :=
    load_data
      [ {| raw_country := "France (2021)"; raw_mean_SJSD_ET := f0_90;
           raw_mean_SJSD_Baseline := f0_85 |} ]
      [ {| raw_Country := "France"; raw_questions := [("q1", f0_85)] |} ]
      [ {| raw_Country := "France  (2019)"; raw_questions := [("q1", f0_90)] |} ] in
  In "France" (options delta_df)
  /\ select_rows et_df "France" <> []
  /\ select_rows baseline_df "France" <> []
  /\ country_detail stable_sort_desc np_round4 et_df baseline_df "France"
     <> Ok NoQuestionData.
Proof.
  apply (load_data_joins_labels
           [ {| raw_country := "France (2021)"; raw_mean_SJSD_ET := f0_90;
                raw_mean_SJSD_Baseline := f0_85 |} ]
           [ {| raw_Country := "France"; raw_questions := [("q1", f0_85)] |} ]
           [ {| raw_Country := "France  (2019)"; raw_questions := [("q1", f0_90)] |} ]
           "France" stable_sort_desc np_round4 eq_refl eq_refl).
  - eexists. split; [left; reflexivity|]. right.
    exists " ", "2"%char, "0"%char, "2"%char, "1"%char. repeat split.
  - eexists. split; [left; reflexivity|]. left. reflexivity.
  - eexists. split; [left; reflexivity|]. right.
    exists "  ", "2"%char, "0"%char, "1"%char, "9"%char. repeat split.
Defined.

(** X14. A label that is nothing but a year annotation is cleaned to the
    empty name: the selector offers it, and once it is selected the
    detail section is skipped, though both per-question tables may hold a
    record under the empty name. *)
Theorem annotation_only_label (delta : list RawDeltaRow)
  (baseline et : list RawQuestionRow) (r : RawDeltaRow)
  (sort_desc : list ScoreRow -> list ScoreRow) (round4 : float -> float) :
  In r delta -> annotated "" (raw_country r) ->
  let '(delta_df, baseline_df, et_df) := load_data delta baseline et in
  In "" (options delta_df)
  /\ select_delta delta_df "" <> []
  /\ detail_section sort_desc round4 et_df baseline_df "" = Ok None.
Proof.
  intros Hr Ha. unfold load_data.
  assert (Hc : country_clean_col (clean_delta r) = "")
    by (apply (country_clean_annotated "" _ eq_refl Ha)).
  split; [|split; [|reflexivity]].
  - apply in_options. exists (clean_delta r). split; [apply in_map, Hr|exact Hc].
  - intros E.
    assert (H : In (clean_delta r) (select_delta (map clean_delta delta) "")).
    { unfold select_delta. apply filter_In. split; [apply in_map, Hr|].
      apply String.eqb_eq, Hc. }
    rewrite E in H. destruct H.
Qed.

Lemma annotation_only_label_witness :
  let '(delta_df, baseline_df, et_df) :=
    load_data
      [ {| raw_country := " (2021)"; raw_mean_SJSD_ET := f0_90;
           raw_mean_SJSD_Baseline := f0_85 |} ]
      [ {| raw_Country := "(2021)"; raw_questions := [("q1", f0_85)] |} ]
      [ {| raw_Country := "(2021)"; raw_questions := [("q1", f0_90)] |} ] in
  In "" (options delta_df)
  /\ select_delta delta_df "" <> []
  /\ detail_section stable_sort_desc np_round4 et_df baseline_df "" = Ok None.
Proof.
  apply (annotation_only_label
           [ {| raw_country := " (2021)"; raw_mean_SJSD_ET := f0_90;
                raw_mean_SJSD_Baseline := f0_85 |} ]
           [ {| raw_Country := "(2021)"; raw_questions := [("q1", f0_85)] |} ]
           [ {| raw_Country := "(2021)"; raw_questions := [("q1", f0_90)] |} ]
           {| raw_country := " (2021)"; raw_mean_SJSD_ET := f0_90;
              raw_mean_SJSD_Baseline := f0_85 |}
           stable_sort_desc np_round4).
  - left; reflexivity.
  - exists " ", "2"%char, "0"%char, "2"%char, "1"%char. repeat split.
Defined.

(** ** The map against the selector and the colour bar *)

Lemma category_trace_in (col : string) (delta_df : list DeltaRow)
  (triple : Z * string * string) (t : go.Choropleth) :
  In t (category_trace col (plot_data_of col delta_df) triple) ->
  (forall c, In c (go.locations t) ->
     exists r, In r delta_df /\ country_clean_col r = c)
  /\ (forall s, In s (go.z t) ->
        exists r, In r delta_df /\ score_of col r = s).
Proof.
  destruct triple as [[cat c] label]. unfold category_trace.
  destruct (0 <? _)%nat; [|intros []]. intros [<-|[]].
  cbn [go.locations go.z]. split; intros x Hx; apply in_map_iff in Hx;
    destruct Hx as [p [<- Hp]]; apply filter_In in Hp; destruct Hp as [Hp _];
    unfold plot_data_of in Hp; apply in_map_iff in Hp;
    destruct Hp as [r [<- Hr]]; exists r; auto.
Qed.

Lemma triple_of_category (k : Z) :
  (1 <= k <= 5)%Z -> exists c label, In (k, c, label) traces.
Proof.
  intros H. assert (E : (k = 1 \/ k = 2 \/ k = 3 \/ k = 4 \/ k = 5)%Z) by lia.
  unfold traces.
  destruct E as [->|[->|[->|[->| ->]]]]; do 2 eexists; cbn [In]; eauto 6.
Qed.

(** X15. The countries drawn on the map are the countries that the
    selector offers: every location of a trace that draws countries is
    an option, and every option is a location of such a trace. *)
Theorem map_locations_are_options (selected_approach : string)
  (delta_df : list DeltaRow) (c : string) :
  In c (flat_map go.locations (country_traces selected_approach delta_df))
  <-> In c (options delta_df).
Proof.
  rewrite in_options, country_traces_eq, in_flat_map.
  set (col := col_name selected_approach). split.
  - intros [t [Ht Hc]]. apply in_flat_map in Ht. destruct Ht as [triple [_ Ht]].
    apply (proj1 (category_trace_in col delta_df triple t Ht) c Hc).
  - intros [r [Hr <-]].
    destruct (triple_of_category _ (get_category_range (score_of col r)))
      as [tc [label Htriple]].
    set (p := {| plot_row := r; color := get_color (score_of col r);
                 category := get_category (score_of col r) |}).
    set (cd := filter (fun q => (category q =? get_category (score_of col r))%Z)
                 (plot_data_of col delta_df)).
    assert (Hp : In p cd).
    { apply filter_In. split; [|apply Z.eqb_refl].
      unfold plot_data_of. apply in_map_iff. exists r. auto. }
    exists {| go.locations := map (fun q => country_clean_col (plot_row q)) cd;
              go.z := map (fun q => score_of col (plot_row q)) cd;
              go.colorscale := [(of_int 0, tc); (of_int 1, tc)];
              go.showscale := false; go.visible := true; go.tickvals := [] |}.
    split.
    + apply in_flat_map. eexists. split; [exact Htriple|].
      unfold category_trace. fold cd.
      destruct cd as [|q l]; [destruct Hp|].
      cbn [List.length Nat.ltb Nat.leb]. left; reflexivity.
    + cbn [go.locations]. apply in_map_iff. exists p. split; [reflexivity|exact Hp].
Qed.

Lemma nonempty_filter {A : Type} (f : A -> bool) (l : list A) :
  (0 <? List.length (filter f l))%nat = existsb f l.
Proof.
  induction l as [|a l IH]; [reflexivity|]. cbn [filter existsb].
  destruct (f a); [reflexivity|exact IH].
Qed.

Lemma has_category (col : string) (delta_df : list DeltaRow) (k : Z) :
  (0 <? List.length (filter (fun p => (category p =? k)%Z)
                       (plot_data_of col delta_df)))%nat
  = existsb (fun r => (get_category (score_of col r) =? k)%Z) delta_df.
Proof.
  rewrite nonempty_filter. unfold plot_data_of.
  induction delta_df as [|r l IH]; [reflexivity|]. cbn [map existsb category].
  rewrite IH. reflexivity.
Qed.

(** X16. Which traces the figure has, and in which order: one for each
    category that some row of [delta_df] falls in, none for the others,
    from the best category down to the worst, each filled with the color
    of its triple. *)
Theorem traces_follow_the_triples (selected_approach : string)
  (delta_df : list DeltaRow) :
  map go.colorscale (country_traces selected_approach delta_df)
  = map (fun '(_, c, _) => [(of_int 0, c); (of_int 1, c)])
      (filter (fun '(k, _, _) =>
                 existsb (fun r => (get_category
                                      (score_of (col_name selected_approach) r) =? k)%Z)
                   delta_df)
         traces).
Proof.
  rewrite country_traces_eq. set (col := col_name selected_approach).
  unfold traces. cbn [flat_map filter]. unfold category_trace.
  rewrite !has_category.
  destruct (existsb (fun r => (get_category (score_of col r) =? 5)%Z) delta_df),
    (existsb (fun r => (get_category (score_of col r) =? 4)%Z) delta_df),
    (existsb (fun r => (get_category (score_of col r) =? 3)%Z) delta_df),
    (existsb (fun r => (get_category (score_of col r) =? 2)%Z) delta_df),
    (existsb (fun r => (get_category (score_of col r) =? 1)%Z) delta_df);
    reflexivity.
Qed.

Lemma column_scores (delta_df : list DeltaRow) (col : string) :
  column delta_df col = map (score_of col) delta_df.
Proof. reflexivity. Qed.

(** X17. Every number on the map lies within the scale of the colour
    bar: a score of a trace that draws countries is NaN or lies between
    the lower and the upper tick. *)
Theorem drawn_scores_within_scale (selected_approach : string)
  (delta_df : list DeltaRow) (t : go.Choropleth) (s : float) :
  In t (country_traces selected_approach delta_df) ->
  In s (go.z t) -> isnan s = false ->
  (min_val selected_approach delta_df <=? s)%float = true
  /\ (s <=? max_val selected_approach delta_df)%float = true.
Proof.
  rewrite country_traces_eq. set (col := col_name selected_approach).
  intros Ht Hs Hnan. apply in_flat_map in Ht. destruct Ht as [triple [_ Ht]].
  destruct (proj2 (category_trace_in col delta_df triple t Ht) s Hs) as [r [Hr E]].
  assert (Hobs : In s (observed (column delta_df col))).
  { unfold observed. apply filter_In. split.
    - rewrite column_scores, <- E. apply in_map, Hr.
    - unfold notna. rewrite Hnan. reflexivity. }
  assert (Hne : observed (column delta_df col) <> [])
    by (intros E'; rewrite E' in Hobs; destruct Hobs).
  destruct (series_min_least _ Hne) as [Hmin_in Hmin].
  destruct (series_max_greatest _ Hne) as [Hmax_in Hmax].
  apply observed_notna in Hmin_in, Hmax_in.
  unfold min_val, max_val. fold col. split.
  - apply (FloatOrder.leb_trans _ (series_min (column delta_df col))).
    + apply py_min_le; [exact Hmin_in|reflexivity].
    + apply Hmin, Hobs.
  - apply (FloatOrder.leb_trans _ (series_max (column delta_df col))).
    + apply Hmax, Hobs.
    + apply py_max_ge; [exact Hmax_in|reflexivity].
Qed.

Lemma drawn_scores_within_scale_witness :
  (min_val "Electric Twin" example_delta <=? f0_4)%float = true
  /\ (f0_4 <=? max_val "Electric Twin" example_delta)%float = true.
Proof.
  apply (drawn_scores_within_scale "Electric Twin" example_delta
           {| go.locations := ["France"]; go.z := [f0_4];
              go.colorscale := [(of_int 0, "#8B0000"); (of_int 1, "#8B0000")];
              go.showscale := false; go.visible := true; go.tickvals := [] |}
           f0_4).
  - vm_compute. right; left; reflexivity.
  - left; reflexivity.
  - reflexivity.
Defined.

Lemma observed_scored (col : string) (delta_df : list DeltaRow) :
  observed (column (filter (fun r => notna (score_of col r)) delta_df) col)
  = observed (column delta_df col).
Proof.
  rewrite !column_scores. unfold observed.
  induction delta_df as [|r l IH]; [reflexivity|]. cbn [filter map].
  destruct (notna (score_of col r)) eqn:E; cbn [map filter]; rewrite ?E, IH;
    reflexivity.
Qed.

(** X18. Rows without a score in the selected column have no part in the
    bounds of the scale: the bounds are those of the table without these
    rows. *)
Theorem bounds_ignore_missing_scores (selected_approach : string)
  (delta_df : list DeltaRow) :
  let scored := filter (fun r => notna (score_of (col_name selected_approach) r))
                  delta_df in
  min_val selected_approach delta_df = min_val selected_approach scored
  /\ max_val selected_approach delta_df = max_val selected_approach scored.
Proof.
  intros scored. unfold min_val, max_val, series_min, series_max, scored.
  rewrite observed_scored. split; reflexivity.
Qed.

(** ** The names of the questions *)

Lemma replace_length (old new : ascii) (s : string) :
  String.length (replace old new s) = String.length s.
Proof. induction s as [|c s IH]; cbn; [reflexivity|]. rewrite IH. reflexivity. Qed.

Lemma replace_has_char (old new : ascii) (s : string) :
  new <> old -> has_char old (replace old new s) = false.
Proof.
  intros Hne. induction s as [|c s IH]; [reflexivity|]. cbn [replace has_char].
  rewrite IH, orb_false_r.
  destruct (Ascii.eqb_spec c old) as [->|Hc]; apply Ascii.eqb_neq; assumption.
Qed.

Lemma replace_without (old new : ascii) (s : string) :
  has_char old s = false -> replace old new s = s.
Proof.
  induction s as [|c s IH]; [reflexivity|]. cbn [replace has_char].
  intros H. apply orb_false_elim in H. destruct H as [Hc Hs].
  rewrite Hc, (IH Hs). reflexivity.
Qed.

(** X19. The name under which a question is shown is the name of its
    column with every dot turned into a space: no name of the table has
    a dot, each has the length of its column name, and a column name
    without dot is shown as it is. *)
Theorem question_names (et_row baseline_row : QuestionRow)
  (records : list ScoreRow) :
  combined_scores et_row baseline_row = Ok records ->
  forall r, In r records ->
    has_char "." (Question r) = false
    /\ exists col,
         In col (map fst (questions et_row))
         /\ Question r = replace "." " " col
         /\ String.length (Question r) = String.length col
         /\ (has_char "." col = false -> Question r = col).
Proof.
  intros H r Hr. rewrite (combined_scores_inv _ _ _ H) in Hr.
  apply in_kept_rows in Hr.
  destruct Hr as [col [e [b [Hcol [Hid [_ [_ [_ ->]]]]]]]].
  cbn [score_row Question]. split.
  - apply replace_has_char. discriminate.
  - exists col. split; [apply columns_question; assumption|].
    split; [reflexivity|]. split; [apply replace_length|apply replace_without].
Qed.

Lemma question_names_witness :
  has_char "." (Question (score_row "q1" (lit 9 10) (lit 7 10))) = false.
Proof.
  apply (question_names example_et example_baseline
           [score_row "q1" (lit 9 10) (lit 7 10)] combined_scores_example
           (score_row "q1" (lit 9 10) (lit 7 10)) (or_introl eq_refl)).
Defined.
